(** * The auto-apply job of [cron_job.ts]

    A shallow embedding of the criterion pipeline ([processVacancies]), of the
    helpers it calls ([getApplicationsPerPosition], [isSuitableVacancy],
    [generateCoverLetter], [HHService.sendNegotiation], ...) and of the
    per-user dispatch of [processUsers], followed by the properties of the
    specification that concern them.

    The program talks to four outside parties: the chat-completion service,
    the job board, the resume store of the job board and the database.  What
    they answer is not decided by the program; a [World] gives, per call
    site, the answer of each call.  Every theorem is stated for all worlds. *)

From Stdlib Require Import ZArith List String Bool Lia Permutation.
Import ListNotations.

Local Open Scope string_scope.
Local Open Scope list_scope.
Local Open Scope Z_scope.

(** ** JavaScript values *)

(** The values that [JSON.parse] can return, and [undefined]. *)
#[local] Unset Elimination Schemes.
Inductive JsValue : Type :=
| JUndefined
| JNull
| JBool (b : bool)
| JNum (n : Z)
| JStr (s : string)
| JArr (items : list JsValue)
| JObj (fields : list (string * JsValue)).
#[local] Set Elimination Schemes.

(** [!v] is [negb (truthy v)]. *)
Definition truthy (v : JsValue) : bool :=
  match v with
  | JUndefined | JNull => false
  | JBool b => b
  | JNum n => negb (n =? 0)
  | JStr s => negb (s =? "")%string
  | JArr _ | JObj _ => true
  end.

Fixpoint assoc (key : string) (fields : list (string * JsValue)) : JsValue :=
  match fields with
  | [] => JUndefined
  | (k, v) :: rest => if (k =? key)%string then v else assoc key rest
  end.

(** A [string] that is [null] when absent: [message.content] of a completion,
    nullable fields of a posting. *)
Definition truthyText (t : option string) : bool :=
  match t with
  | Some s => negb (s =? "")%string
  | None => false
  end.

(** [t || ''] *)
Definition orEmpty (t : option string) : string :=
  match t with
  | Some s => s
  | None => ""
  end.

(** ** Promises: resolved or rejected *)

Inductive Outcome (A : Type) : Type :=
| Resolved (a : A)
| Rejected.

Arguments Resolved {A} a.
Arguments Rejected {A}.

(** [v.key]: a [TypeError] on [null] and [undefined]; the own property of an
    object; [undefined] for the keys read by this program on any other
    value. *)
Definition getProp (v : JsValue) (key : string) : Outcome JsValue :=
  match v with
  | JUndefined | JNull => Rejected
  | JObj fields => Resolved (assoc key fields)
  | _ => Resolved JUndefined
  end.

(** The text of a completion ([completion.choices[0].message.content]).  The
    program reads it only through [JSON.parse], so that a text is given by
    what [JSON.parse] makes of it: a [SyntaxError], or a value (a [null]
    content parses to [JNull]). *)
Inductive ReplyText : Type :=
| Unparsable
| ParsesTo (j : JsValue).

Definition JSON_parse (t : ReplyText) : Outcome JsValue :=
  match t with
  | Unparsable => Rejected
  | ParsesTo j => Resolved j
  end.

(** ** Data model *)

(** A search criterion of a user. *)
Module Position.
Record t : Type := mk { position : string; status : string }.
End Position.

(** A user as [UserModel.find({}).lean()] returns it, with the fields that
    the program reads.  [id] is the virtual of a document, which a lean
    object need not have; [positions] may be missing. *)
Module User.
Record t : Type := mk {
  id : JsValue;
  _id : string;
  firstName : string;
  lastName : string;
  positions : option (list Position.t);
  hasHHAccount : bool;
  hhAccessToken : string;
  hhRefreshToken : string;
  only_with_salary : bool
}.
End User.

(** One item of a page of the job board, with the fields that the program
    reads.  [employer] and [snippet] are present in every item; [salary],
    [address] and [employer.logo_urls] may be [null], and so may
    [salary.from], [address.raw], the logo of size 90 and the two texts of
    the snippet. *)
Module Vacancy.
Record t : Type := mk {
  id : string;
  name : string;
  employer_name : string;
  employer_logo_urls : option (option string);
  salary : option (option Z);
  snippet_responsibility : option string;
  snippet_requirement : option string;
  address : option (option string)
}.
End Vacancy.

(** [response.data] of a search of the job board: [items] may be missing. *)
Module VacanciesPage.
Record t : Type := mk { items : option (list Vacancy.t) }.
End VacanciesPage.

(** The record that [processVacancies] builds for [insertMany]. *)
Module Doc.
Record t : Type := mk {
  vacancy_id : string;
  job_name : string;
  employer_name : string;
  salary : option Z;
  employer_logo : option string;
  responsibility : string;
  requirement : string;
  address : option string;
  url : string;
  user : string;
  cover_letter : option string;
  isHeadHunterVacancy : bool;
  isOtherSiteVacancy : bool
}.
End Doc.

(** ** Quota policy *)

Definition getApplicationsPerPosition (numPositions : Z) : Z :=
  if numPositions <=? 4 then 7
  else if numPositions >=? 8 then 2
  else 6.

(** ** What the program does to the outside, and what it prints *)

Inductive Request : Type :=
| ChatExtract (positionText : string)
| GetVacancies (text : JsValue) (page : nat) (only_with_salary : bool)
    (area : Z) (order_by : string)
| FindOne (user : JsValue) (job_name : string)
| ChatSuitable (positionText : string) (vacancy : Vacancy.t)
| SuitableResume (vacancyId : string) (token : string)
| GetResume (resumeId : JsValue) (token : string)
| LoadPDF (url : JsValue) (token : option string)
| ChatCoverLetter (firstName lastName : string) (vacancy : Vacancy.t)
    (resume : string)
| PostNegotiation (formData : list (string * JsValue)) (token : string)
| InsertMany (docs : list Doc.t).

Inductive LogMsg : Type :=
| LogPosition (extractPosition : JsValue)
| ErrorPage (page : nat)
| ErrorVacancies
| ErrorSuitable
| ErrorCoverLetter
| ErrorResume
| ErrorNegotiation
| Inserted
| ErrorInserting
| NothingToInsert.

Inductive Event : Type :=
| Call (r : Request)
| Log (m : LogMsg).

(** ** The store of one run and its monad

    [vacancyDocs] and [processedVacancies] are the two locals of
    [processVacancies] that its callbacks share; [trace] collects the requests
    and the console lines of the run. *)

Record Store : Type := mkStore {
  vacancyDocs : list Doc.t;
  processedVacancies : Z;
  trace : list Event
}.

Definition emptyStore : Store :=
  {| vacancyDocs := []; processedVacancies := 0; trace := [] |}.

(** A computation reads and writes the store and resolves or rejects; what a
    rejected computation wrote before it threw stays written. *)
Definition M (A : Type) : Type := Store -> Store * Outcome A.

Definition ret {A} (a : A) : M A := fun st => (st, Resolved a).

Definition throw {A} : M A := fun st => (st, Rejected).

Definition bind {A B} (m : M A) (k : A -> M B) : M B :=
  fun st =>
    match m st with
    | (st', Resolved a) => k a st'
    | (st', Rejected) => (st', Rejected)
    end.

Notation "x <- m ;; k" := (bind m (fun x => k))
  (at level 61, m at next level, right associativity).
Notation "m ;;; k" := (bind m (fun _ => k))
  (at level 61, right associativity).

(** [try { body } catch { handler }] *)
Definition tryCatch {A} (body : M A) (handler : M A) : M A :=
  fun st =>
    match body st with
    | (st', Resolved a) => (st', Resolved a)
    | (st', Rejected) => handler st'
    end.

Definition settled {A} (o : Outcome A) : M A := fun st => (st, o).

Definition emit (e : Event) : M unit :=
  fun st =>
    ({| vacancyDocs := vacancyDocs st;
        processedVacancies := processedVacancies st;
        trace := trace st ++ [e] |}, Resolved tt).

(** An awaited request to the outside, with the answer the world gives. *)
Definition call {A} (r : Request) (reply : Outcome A) : M A :=
  emit (Call r) ;;; settled reply.

Definition log (m : LogMsg) : M unit := emit (Log m).

Definition gets {A} (f : Store -> A) : M A := fun st => (st, Resolved (f st)).

(** [vacancyDocs.push(vacancyDoc); processedVacancies++] *)
Definition push (doc : Doc.t) : M unit :=
  fun st =>
    ({| vacancyDocs := vacancyDocs st ++ [doc];
        processedVacancies := processedVacancies st + 1;
        trace := trace st |}, Resolved tt).

Definition run {A} (m : M A) : Store := fst (m emptyStore).

(** ** The answers of the outside

    A call site inside the page loop is named by its page; one inside the
    callback of a posting by the page and the index of the posting in the
    page.  [settleTime] is the moment at which the callback of a posting
    reaches its end: callbacks of a page run interleaved and settle in any
    order. *)
Record World : Type := mkWorld {
  extractionReply : nat -> Outcome ReplyText;
  vacanciesReply : nat -> Outcome VacanciesPage.t;
  findOneReply : nat -> nat -> Outcome bool;
  suitableReply : nat -> nat -> Outcome ReplyText;
  suitableResumeReply : nat -> nat -> Outcome JsValue;
  resumeReply : nat -> nat -> Outcome JsValue;
  pdfReply : nat -> nat -> Outcome string;
  coverLetterReply : nat -> nat -> Outcome (option string);
  negotiationReply : nat -> nat -> Outcome JsValue;
  insertManyReply : Outcome unit;
  settleTime : nat -> nat -> nat
}.

(** Worlds that differ from a world in the answers of one service. *)
Definition withExtractionReply (replies : nat -> Outcome ReplyText)
    (w : World) : World :=
  {| extractionReply := replies;
     vacanciesReply := vacanciesReply w;
     findOneReply := findOneReply w;
     suitableReply := suitableReply w;
     suitableResumeReply := suitableResumeReply w;
     resumeReply := resumeReply w;
     pdfReply := pdfReply w;
     coverLetterReply := coverLetterReply w;
     negotiationReply := negotiationReply w;
     insertManyReply := insertManyReply w;
     settleTime := settleTime w |}.

Definition withSuitableReply (replies : nat -> nat -> Outcome ReplyText)
    (w : World) : World :=
  {| extractionReply := extractionReply w;
     vacanciesReply := vacanciesReply w;
     findOneReply := findOneReply w;
     suitableReply := replies;
     suitableResumeReply := suitableResumeReply w;
     resumeReply := resumeReply w;
     pdfReply := pdfReply w;
     coverLetterReply := coverLetterReply w;
     negotiationReply := negotiationReply w;
     insertManyReply := insertManyReply w;
     settleTime := settleTime w |}.

Definition withCoverLetterReply (replies : nat -> nat -> Outcome (option string))
    (w : World) : World :=
  {| extractionReply := extractionReply w;
     vacanciesReply := vacanciesReply w;
     findOneReply := findOneReply w;
     suitableReply := suitableReply w;
     suitableResumeReply := suitableResumeReply w;
     resumeReply := resumeReply w;
     pdfReply := pdfReply w;
     coverLetterReply := replies;
     negotiationReply := negotiationReply w;
     insertManyReply := insertManyReply w;
     settleTime := settleTime w |}.

Definition withNegotiationReply (replies : nat -> nat -> Outcome JsValue)
    (w : World) : World :=
  {| extractionReply := extractionReply w;
     vacanciesReply := vacanciesReply w;
     findOneReply := findOneReply w;
     suitableReply := suitableReply w;
     suitableResumeReply := suitableResumeReply w;
     resumeReply := resumeReply w;
     pdfReply := pdfReply w;
     coverLetterReply := coverLetterReply w;
     negotiationReply := replies;
     insertManyReply := insertManyReply w;
     settleTime := settleTime w |}.

(** ** The job board service *)

Module HHService.

Definition softFailure : JsValue :=
  JObj [("success", JBool false);
        ("message", JStr "An error occurred, but the operation has continued.")].

Definition sendNegotiation (vacancyId : string) (resumeId : JsValue)
    (message : option string) (token : string) (reply : Outcome JsValue)
  : M JsValue :=
  tryCatch
    (let formData := [("vacancy_id", JStr vacancyId); ("resume_id", resumeId)] in
     let formData :=
       if truthyText message
       then formData ++ [("message", JStr (orEmpty message))]
       else formData in
     data <- call (PostNegotiation formData token) reply ;;
     ret data)
    (log ErrorNegotiation ;;; ret softFailure).

(** The date bound of the query comes from the clock and is left out. *)
Definition getVacancy (vacancyName : JsValue) (page : nat)
    (only_with_salary : bool) (reply : Outcome VacanciesPage.t)
  : M VacanciesPage.t :=
  tryCatch
    (call (GetVacancies vacancyName page only_with_salary 40 "publication_time")
          reply)
    (log ErrorVacancies ;;; throw).

(** The whole [try] block (two fetches, the PDF of each resume, a completion
    and, when the completion names no resume, a third fetch) is one request:
    it resolves with the chosen identifier or rejects. *)
Definition getSuitableResumeId (vacancyId : string) (token : string)
    (reply : Outcome JsValue) : M JsValue :=
  tryCatch
    (call (SuitableResume vacancyId token) reply)
    (log ErrorResume ;;; ret JUndefined).

Definition getOneResume (resumeId : JsValue) (token : string)
    (reply : Outcome JsValue) : M JsValue :=
  call (GetResume resumeId token) reply.

End HHService.

Definition loadPDF (url : JsValue) (token : string) (reply : Outcome string)
  : M string :=
  if (token =? "")%string
  then call (LoadPDF url None) reply
  else call (LoadPDF url (Some token)) reply.

Definition generateCoverLetter (user : User.t) (vacancy : Vacancy.t)
    (resume : string) (reply : Outcome (option string)) : M (option string) :=
  tryCatch
    (content <-
       call (ChatCoverLetter (User.firstName user) (User.lastName user)
               vacancy resume) reply ;;
     ret content)
    (log ErrorCoverLetter ;;; ret None).

Definition isSuitableVacancy (position : string) (vacancy : Vacancy.t)
    (reply : Outcome ReplyText) : M JsValue :=
  tryCatch
    (responseText <- call (ChatSuitable position vacancy) reply ;;
     responseJson <- settled (JSON_parse responseText) ;;
     settled (getProp responseJson "isSuitable"))
    (log ErrorSuitable ;;; ret (JBool false)).

(** ** The criterion pipeline *)

Definition defaultLogo : string :=
  "https://media.licdn.com/dms/image/C4D0BAQGYJfURzon1xg/company-logo_200_200/0/1631327285447?e=2147483647&v=beta&t=mTBfWh3AsArQHLJLo8fp6OLk5LLlzqQrsL6ob3uUFsA".

Definition vacancyDoc (user : User.t) (vacancy : Vacancy.t)
    (coverLetter : option string) : Doc.t :=
  {| Doc.vacancy_id := Vacancy.id vacancy;
     Doc.job_name := Vacancy.name vacancy;
     Doc.employer_name := Vacancy.employer_name vacancy;
     Doc.salary :=
       match Vacancy.salary vacancy with
       | Some from => from
       | None => Some 0
       end;
     Doc.employer_logo :=
       match Vacancy.employer_logo_urls vacancy with
       | Some logo90 => logo90
       | None => Some defaultLogo
       end;
     Doc.responsibility := orEmpty (Vacancy.snippet_responsibility vacancy);
     Doc.requirement := orEmpty (Vacancy.snippet_requirement vacancy);
     Doc.address :=
       match Vacancy.address vacancy with
       | Some raw => raw
       | None => Some ""
       end;
     Doc.url := ("https://hh.kz/vacancy/" ++ Vacancy.id vacancy ++ "/")%string;
     Doc.user := User._id user;
     Doc.cover_letter := coverLetter;
     Doc.isHeadHunterVacancy := true;
     Doc.isOtherSiteVacancy := false |}.

Definition alreadyInVacancyDocs (docs : list Doc.t) (vacancy : Vacancy.t) : bool :=
  existsb
    (fun doc =>
       (Doc.vacancy_id doc =? Vacancy.id vacancy)%string
       || ((Doc.job_name doc =? Vacancy.name vacancy)%string
           && (Doc.employer_name doc =? Vacancy.employer_name vacancy)%string)
       || (Doc.job_name doc =? Vacancy.name vacancy)%string)
    docs.

(** Callbacks in the order in which they settle: a stable insertion sort on
    the settle time. *)
Fixpoint insertByTime {A} (x : nat * A) (l : list (nat * A)) : list (nat * A) :=
  match l with
  | [] => [x]
  | y :: rest =>
      if (fst y <=? fst x)%nat then y :: insertByTime x rest else x :: l
  end.

Definition inOrderOfSettling {A} (l : list (nat * A)) : list A :=
  map snd (fold_left (fun sorted x => insertByTime x sorted) l []).

Inductive Flow : Type := Next | Break.

Section Criterion.

Variable w : World.
Variable user : User.t.
Variable position : Position.t.
Variable applicationsPerPosition : Z.

(** The callback of a posting from its first [await] on.  It does not read
    the store; it appends to it at its end. *)
Definition resumed (page i : nat) (vacancy : Vacancy.t) : M unit :=
  alreadyExistingVacancy <-
    call (FindOne (User.id user) (Vacancy.name vacancy)) (findOneReply w page i) ;;
  if alreadyExistingVacancy : bool then ret tt else
  isSuitable <-
    isSuitableVacancy (Position.position position) vacancy (suitableReply w page i) ;;
  if negb (truthy isSuitable) then ret tt else
  if User.hasHHAccount user then
    resumeId <-
      HHService.getSuitableResumeId (Vacancy.id vacancy) (User.hhAccessToken user)
        (suitableResumeReply w page i) ;;
    resumeDetail <-
      HHService.getOneResume resumeId (User.hhAccessToken user) (resumeReply w page i) ;;
    download <- settled (getProp resumeDetail "download") ;;
    pdf <- settled (getProp download "pdf") ;;
    url <- settled (getProp pdf "url") ;;
    pdfContent <- loadPDF url (User.hhAccessToken user) (pdfReply w page i) ;;
    coverLetter <-
      generateCoverLetter user vacancy pdfContent (coverLetterReply w page i) ;;
    HHService.sendNegotiation (Vacancy.id vacancy) resumeId coverLetter
      (User.hhAccessToken user) (negotiationReply w page i) ;;;
    push (vacancyDoc user vacancy coverLetter)
  else
    coverLetter <- generateCoverLetter user vacancy "" (coverLetterReply w page i) ;;
    if negb (truthyText coverLetter) then ret tt else
    push (vacancyDoc user vacancy coverLetter).

(** The callback of a posting up to its first [await]: an [async] function
    runs until there when it is called, so that [items.map] runs this part of
    every callback of the page, in the order of the items, before any of them
    goes on.  [None]: the callback returned; [Some k]: it waits at
    [VacanciesModel.findOne] and goes on with [k]. *)
Definition callback (page i : nat) (vacancy : Vacancy.t) : M (option (M unit)) :=
  processed <- gets processedVacancies ;;
  if processed >=? applicationsPerPosition then ret None else
  docs <- gets vacancyDocs ;;
  if alreadyInVacancyDocs docs vacancy then ret None else
  ret (Some (resumed page i vacancy)).

(** [vacanciesPage.items.map(async (vacancy) => ...)] *)
Fixpoint mapAsync (page i : nat) (items : list Vacancy.t)
  : M (list (nat * M unit)) :=
  match items with
  | [] => ret []
  | vacancy :: rest =>
      promise <- callback page i vacancy ;;
      promises <- mapAsync page (S i) rest ;;
      ret match promise with
          | Some k => (settleTime w page i, k) :: promises
          | None => promises
          end
  end.

(** [await Promise.allSettled(promises)]: every callback runs to its end, a
    rejection stays with its promise.  From its first [await] on a callback
    does not read the store (lemma [resumed_pushes]), so that running the
    callbacks one after the other, in the order in which they settle, leads
    to the store of any interleaving; only the events of different callbacks
    come grouped in the trace. *)
Fixpoint allSettled (pending : list (M unit)) : M unit :=
  match pending with
  | [] => ret tt
  | k :: rest => tryCatch k (ret tt) ;;; allSettled rest
  end.

(** The [try] block of the page loop. *)
Definition pageBody (page : nat) : M Flow :=
  responseText <-
    call (ChatExtract (Position.position position)) (extractionReply w page) ;;
  responseJson <- settled (JSON_parse responseText) ;;
  extractPosition <- settled (getProp responseJson "position") ;;
  log (LogPosition extractPosition) ;;;
  vacanciesPage <-
    HHService.getVacancy extractPosition page (User.only_with_salary user)
      (vacanciesReply w page) ;;
  items <-
    settled match VacanciesPage.items vacanciesPage with
            | Some items => Resolved items
            | None => Rejected
            end ;;
  if (List.length items =? 0)%nat then ret Next else
  promises <- mapAsync page 0 items ;;
  allSettled (inOrderOfSettling promises) ;;;
  processed <- gets processedVacancies ;;
  if processed >=? applicationsPerPosition then ret Break else ret Next.

(** [for (let page = 1; page <= 6; page++) { try {...} catch (error) {...} }]
    over the pages that remain.  The result tells how the loop was left: by
    [break], or because no page remained. *)
Fixpoint pageLoop (pages : list nat) : M Flow :=
  match pages with
  | [] => ret Next
  | page :: rest =>
      flow <- tryCatch (pageBody page) (log (ErrorPage page) ;;; ret Next) ;;
      match flow with
      | Break => ret Break
      | Next => pageLoop rest
      end
  end.

(** The body of [processVacancies] below the computation of the quota. *)
Definition criterionRun : M unit :=
  pageLoop (seq 1 6) ;;;
  docs <- gets vacancyDocs ;;
  if (0 <? List.length docs)%nat then
    tryCatch
      (call (InsertMany docs) (insertManyReply w) ;;; log Inserted)
      (log ErrorInserting)
  else log NothingToInsert.

End Criterion.

Definition processVacancies (w : World) (user : User.t) (position : Position.t)
  : M unit :=
  match User.positions user with
  | None => ret tt
  | Some positions =>
      let applicationsPerPosition :=
        getApplicationsPerPosition (Z.of_nat (List.length positions)) in
      criterionRun w user position applicationsPerPosition
  end.

(** The records handed to [insertMany] in a trace. *)
Definition committed (events : list Event) : list Doc.t :=
  flat_map
    (fun e => match e with Call (InsertMany docs) => docs | _ => [] end)
    events.

(** ** The worker of the queue of [processUsers] *)

(** [refreshAccessToken]: the two tokens of the answer are written to the
    user before [user.save()] is awaited; any failure is logged and leaves
    the function normally. *)
Definition refreshAccessToken (user : User.t) (reply : Outcome (string * string))
  : User.t :=
  match reply with
  | Resolved (access_token, refresh_token) =>
      {| User.id := User.id user;
         User._id := User._id user;
         User.firstName := User.firstName user;
         User.lastName := User.lastName user;
         User.positions := User.positions user;
         User.hasHHAccount := User.hasHHAccount user;
         User.hhAccessToken := access_token;
         User.hhRefreshToken := refresh_token;
         User.only_with_salary := User.only_with_salary user |}
  | Rejected => user
  end.

(** [position.position && position.status === 'Active'] *)
Definition isActive (position : Position.t) : bool :=
  negb (Position.position position =? "")%string
  && (Position.status position =? "Active")%string.

(** [user.positions.map(async (position) => ...)]: one run per criterion that
    passes the test, each with locals of its own and, as the runs of a user
    interleave, a world of its own ([worlds j] for the criterion at index
    [j]); [None] for a criterion that is passed over. *)
Fixpoint positionPromises (worlds : nat -> World) (user : User.t) (j : nat)
    (positions : list Position.t) : list (option Store) :=
  match positions with
  | [] => []
  | position :: rest =>
      (if isActive position
       then Some (run (processVacancies (worlds j) user position))
       else None)
      :: positionPromises worlds user (S j) rest
  end.

Definition processUser (worlds : nat -> World) (refreshReply : Outcome (string * string))
    (user : User.t) : Outcome (list (option Store)) :=
  let user := refreshAccessToken user refreshReply in
  match User.positions user with
  | None => Rejected
  | Some positions => Resolved (positionPromises worlds user 0 positions)
  end.

(** ** Sample users, postings and worlds *)

Module Sample.

Definition criterion (text status : string) : Position.t :=
  {| Position.position := text; Position.status := status |}.

Definition dev : Position.t := criterion "Python developer" "Active".

(** A user with [active] active and [paused] paused criteria. *)
Definition userOf (active paused : nat) (hasHHAccount : bool) : User.t :=
  {| User.id := JUndefined;
     User._id := "u1";
     User.firstName := "Aigerim";
     User.lastName := "S";
     User.positions :=
       Some (repeat dev active ++ repeat (criterion "QA engineer" "Paused") paused);
     User.hasHHAccount := hasHHAccount;
     User.hhAccessToken := "token";
     User.hhRefreshToken := "refresh";
     User.only_with_salary := false |}.

Definition posting (id name employer : string) : Vacancy.t :=
  {| Vacancy.id := id;
     Vacancy.name := name;
     Vacancy.employer_name := employer;
     Vacancy.employer_logo_urls := None;
     Vacancy.salary := None;
     Vacancy.snippet_responsibility := Some "Write services";
     Vacancy.snippet_requirement := Some "Python";
     Vacancy.address := None |}.

Definition pageOf (items : list Vacancy.t) : Outcome VacanciesPage.t :=
  Resolved {| VacanciesPage.items := Some items |}.

Definition extracted : Outcome ReplyText :=
  Resolved (ParsesTo (JObj [("position", JStr "Python developer")])).

Definition suitable : Outcome ReplyText :=
  Resolved (ParsesTo (JObj [("isSuitable", JBool true); ("reason", JStr "match")])).

Definition resume : JsValue :=
  JObj [("download", JObj [("pdf", JObj [("url", JStr "https://hh.ru/r1.pdf")])])].

(** The world in which every service answers and every posting is new and
    suitable; page [p] of the job board is [pages p]. *)
Definition friendly (pages : nat -> list Vacancy.t) : World :=
  {| extractionReply := fun _ => extracted;
     vacanciesReply := fun page => pageOf (pages page);
     findOneReply := fun _ _ => Resolved false;
     suitableReply := fun _ _ => suitable;
     suitableResumeReply := fun _ _ => Resolved (JStr "r1");
     resumeReply := fun _ _ => Resolved resume;
     pdfReply := fun _ _ => Resolved "resume text";
     coverLetterReply := fun _ _ => Resolved (Some "Hello");
     negotiationReply := fun _ _ => Resolved (JObj []);
     insertManyReply := Resolved tt;
     settleTime := fun _ i => i |}.

Definition threePostings : list Vacancy.t :=
  [posting "101" "Python developer" "Kaspi";
   posting "102" "Backend developer" "Kolesa";
   posting "103" "Django developer" "Halyk"].

Definition firstPageOnly (items : list Vacancy.t) (page : nat) : list Vacancy.t :=
  match page with
  | 1%nat => items
  | _ => []
  end.

(** The first page of the friendly world holds the three postings. *)
Definition threeOnPageOne : World := friendly (firstPageOnly threePostings).

(** The same, with a classifier that is down. *)
Definition classifierDown : World :=
  withSuitableReply (fun _ _ => Rejected) threeOnPageOne.

(** The same, with a generator that returns no content. *)
Definition generatorSilent : World :=
  withCoverLetterReply (fun _ _ => Resolved None) threeOnPageOne.

(** The same, with a submission endpoint that refuses every request. *)
Definition submissionRefused : World :=
  withNegotiationReply (fun _ _ => Rejected) threeOnPageOne.

(** Two postings of one page with the same title and the same employer. *)
Definition twins : list Vacancy.t :=
  [posting "201" "Python developer" "Kaspi";
   posting "202" "Python developer" "Kaspi"].

(** A job board with one new posting on every page. *)
Definition onePerPage (page : nat) : list Vacancy.t :=
  match page with
  | 1%nat => [posting "301" "Python developer" "Kaspi"]
  | 2%nat => [posting "302" "Backend developer" "Kolesa"]
  | 3%nat => [posting "303" "Django developer" "Halyk"]
  | 4%nat => [posting "304" "Data engineer" "Beeline"]
  | 5%nat => [posting "305" "ML engineer" "Kcell"]
  | _ => [posting "306" "Python team lead" "Jusan"]
  end.

(** The extraction fails on page 1 and succeeds from page 2 on; page 2
    holds two postings. *)
Definition extractionFailsOnce : World :=
  withExtractionReply
    (fun page => match page with 1%nat => Rejected | _ => extracted end)
    (friendly (fun page =>
                 match page with
                 | 2%nat => [posting "102" "Backend developer" "Kolesa";
                             posting "103" "Django developer" "Halyk"]
                 | _ => []
                 end)).

End Sample.

(** ** Notions used by the statements *)

(** The store with more records and more events. *)
Definition extend (st : Store) (docs : list Doc.t) (events : list Event) : Store :=
  {| vacancyDocs := vacancyDocs st ++ docs;
     processedVacancies := processedVacancies st + Z.of_nat (List.length docs);
     trace := trace st ++ events |}.

(** The pages asked of the job board, in the order of the requests. *)
Definition fetchedPages (events : list Event) : list nat :=
  flat_map
    (fun e => match e with Call (GetVacancies _ page _ _ _) => [page] | _ => [] end)
    events.

(** The number of extraction requests. *)
Definition extractions (events : list Event) : nat :=
  List.length
    (filter (fun e => match e with Call (ChatExtract _) => true | _ => false end)
       events).

(** The ways in which the extraction of a page fails: the completion
    rejects, its text is not JSON, or it is the JSON of [null]. *)
Definition extractionFails (reply : Outcome ReplyText) : bool :=
  match reply with
  | Rejected => true
  | Resolved Unparsable => true
  | Resolved (ParsesTo JNull) => true
  | Resolved (ParsesTo JUndefined) => true
  | Resolved (ParsesTo _) => false
  end.

(** The ways in which the call of the classifier fails: the completion
    rejects, or its text is not JSON. *)
Definition classifierFails (reply : Outcome ReplyText) : bool :=
  match reply with
  | Rejected => true
  | Resolved Unparsable => true
  | Resolved (ParsesTo _) => false
  end.

(** The generator gives no content: the completion rejects, or its content
    is [null]. *)
Definition noContent (reply : Outcome (option string)) : bool :=
  match reply with
  | Rejected => true
  | Resolved None => true
  | Resolved (Some _) => false
  end.

(** The quota as the specification words it: from the criteria whose status
    is [Active]. *)
Definition activeCriteria (positions : list Position.t) : list Position.t :=
  filter (fun p => (Position.status p =? "Active")%string) positions.

Definition quotaFromActiveCriteria (positions : list Position.t) : Z :=
  getApplicationsPerPosition (Z.of_nat (List.length (activeCriteria positions))).

(** [Pushes P m]: whatever the store, [m] appends to it records that satisfy
    [P], appends events, and ends in an outcome, none of which depends on the
    store. *)
Definition Pushes {A} (P : list Doc.t -> Prop) (m : M A) : Prop :=
  exists docs events o,
    P docs /\ forall st, m st = (extend st docs events, o).

Definition Quiet {A} (m : M A) : Prop := Pushes (fun docs => docs = []) m.

(** [Keeps R m]: [R] relates the store before [m] to the store after it. *)
Definition Keeps (R : Store -> Store -> Prop) {A} (m : M A) : Prop :=
  forall st, R st (fst (m st)).

(** The store grew by records that satisfy [Q] and by events that satisfy
    [T]. *)
Definition Grows (Q : Doc.t -> Prop) (T : Event -> Prop) (st st' : Store) : Prop :=
  exists docs events,
    st' = extend st docs events /\ Forall Q docs /\ Forall T events.

(** The events of the callback of a posting: neither an extraction, nor a
    search, nor an insertion. *)
Definition inner (e : Event) : Prop :=
  match e with
  | Call (ChatExtract _) => False
  | Call (GetVacancies _ _ _ _ _) => False
  | Call (InsertMany _) => False
  | _ => True
  end.

(** What [generateCoverLetter] returns for an answer of the completion
    service. *)
Definition letterOf (reply : Outcome (option string)) : option string :=
  match reply with
  | Resolved content => content
  | Rejected => None
  end.

(** The callbacks of a page that wait at their first [await], for the store
    in which [items.map] runs. *)
Fixpoint launched (w : World) (user : User.t) (position : Position.t)
    (applicationsPerPosition : Z) (st : Store) (page i : nat)
    (items : list Vacancy.t) : list (nat * M unit) :=
  match items with
  | [] => []
  | vacancy :: rest =>
      let others :=
        launched w user position applicationsPerPosition st page (S i) rest in
      if processedVacancies st >=? applicationsPerPosition then others
      else if alreadyInVacancyDocs (vacancyDocs st) vacancy then others
      else (settleTime w page i, resumed w user position page i vacancy) :: others
  end.

(** [Subseq l1 l2]: [l1] is [l2] with some elements left out. *)
Inductive Subseq {A : Type} : list A -> list A -> Prop :=
| Subseq_nil : Subseq [] []
| Subseq_skip (x : A) (l1 l2 : list A) : Subseq l1 l2 -> Subseq l1 (x :: l2)
| Subseq_take (x : A) (l1 l2 : list A) : Subseq l1 l2 -> Subseq (x :: l1) (x :: l2).

(** The store with more events. *)
Definition logged (st : Store) (events : list Event) : Store :=
  {| vacancyDocs := vacancyDocs st;
     processedVacancies := processedVacancies st;
     trace := trace st ++ events |}.

(** The store once the callbacks of a page have settled. *)
Definition settledPage (w : World) (user : User.t) (position : Position.t)
    (applicationsPerPosition : Z) (page : nat) (items : list Vacancy.t)
    (st : Store) : Store :=
  fst (allSettled
         (inOrderOfSettling
            (launched w user position applicationsPerPosition st page 0 items))
         st).

(** What [getSuitableResumeId] returns for an answer of its requests. *)
Definition resumeIdOf (reply : Outcome JsValue) : JsValue :=
  match reply with
  | Resolved resumeId => resumeId
  | Rejected => JUndefined
  end.

(** Two stores with the same records and the same count. *)
Definition sameDocs (st st' : Store) : Prop :=
  vacancyDocs st = vacancyDocs st'
  /\ processedVacancies st = processedVacancies st'.

(** Two outcomes of the same kind, with related values. *)
Definition sameFate {A} (RA : A -> A -> Prop) (o o' : Outcome A) : Prop :=
  match o, o' with
  | Resolved a, Resolved a' => RA a a'
  | Rejected, Rejected => True
  | _, _ => False
  end.

(** [Alike RA m m']: from stores with the same records, [m] and [m'] lead
    to stores with the same records and to outcomes of the same kind. *)
Definition Alike {A} (RA : A -> A -> Prop) (m m' : M A) : Prop :=
  forall st st',
    sameDocs st st' ->
    sameDocs (fst (m st)) (fst (m' st'))
    /\ sameFate RA (snd (m st)) (snd (m' st')).

(** Two waiting callbacks that settle at the same time and are alike. *)
Definition alikePending (p p' : nat * M unit) : Prop :=
  fst p = fst p' /\ Alike eq (snd p) (snd p').

(** The user with other criteria. *)
Definition withPositions (positions : option (list Position.t)) (user : User.t)
  : User.t :=
  {| User.id := User.id user;
     User._id := User._id user;
     User.firstName := User.firstName user;
     User.lastName := User.lastName user;
     User.positions := positions;
     User.hasHHAccount := User.hasHHAccount user;
     User.hhAccessToken := User.hhAccessToken user;
     User.hhRefreshToken := User.hhRefreshToken user;
     User.only_with_salary := User.only_with_salary user |}.

(** ** Notions used by the further properties *)

(** The events of the turn of a page that the loop itself appends. *)
Definition loopEvent (user : User.t) (position : Position.t) (page : nat)
    (e : Event) : Prop :=
  match e with
  | Call (ChatExtract text) => text = Position.position position
  | Call (GetVacancies _ p only_with_salary area order_by) =>
      p = page /\ only_with_salary = User.only_with_salary user
      /\ area = 40 /\ order_by = "publication_time"
  | Log (LogPosition _) => True
  | Log ErrorVacancies => True
  | Log (ErrorPage p) => p = page
  | _ => False
  end.

(** The events with which a run ends, for the store at the end of the
    loop. *)
Definition commitEvents (w : World) (st : Store) : list Event :=
  match vacancyDocs st with
  | [] => [Log NothingToInsert]
  | _ :: _ =>
      [Call (InsertMany (vacancyDocs st));
       Log match insertManyReply w with
           | Resolved _ => Inserted
           | Rejected => ErrorInserting
           end]
  end.

(** The lists of records handed to [insertMany], one per call. *)
Definition insertions (events : list Event) : list (list Doc.t) :=
  flat_map
    (fun e => match e with Call (InsertMany docs) => [docs] | _ => [] end)
    events.

(** The events of the callback of a posting before the submission. *)
Definition helperEvent (user : User.t) (position : Position.t)
    (vacancy : Vacancy.t) (e : Event) : Prop :=
  match e with
  | Call (FindOne u job_name) =>
      u = User.id user /\ job_name = Vacancy.name vacancy
  | Call (ChatSuitable text v) =>
      text = Position.position position /\ v = vacancy
  | Call (SuitableResume vacancyId token) =>
      User.hasHHAccount user = true /\ vacancyId = Vacancy.id vacancy
      /\ token = User.hhAccessToken user
  | Call (GetResume _ token) =>
      User.hasHHAccount user = true /\ token = User.hhAccessToken user
  | Call (LoadPDF _ token) =>
      User.hasHHAccount user = true
      /\ token = (if (User.hhAccessToken user =? "")%string then None
                  else Some (User.hhAccessToken user))
  | Call (ChatCoverLetter firstName lastName v _) =>
      firstName = User.firstName user /\ lastName = User.lastName user
      /\ v = vacancy
  | Log ErrorSuitable => True
  | Log ErrorCoverLetter => True
  | Log ErrorResume => User.hasHHAccount user = true
  | _ => False
  end.

(** The events of the submission of a posting. *)
Definition negotiationEvent (user : User.t) (vacancy : Vacancy.t) (e : Event)
  : Prop :=
  match e with
  | Call (PostNegotiation formData token) =>
      User.hasHHAccount user = true /\ token = User.hhAccessToken user
      /\ assoc "vacancy_id" formData = JStr (Vacancy.id vacancy)
  | Log ErrorNegotiation => User.hasHHAccount user = true
  | _ => False
  end.

(** The events with which a run ends. *)
Definition commitEvent (e : Event) : Prop :=
  match e with
  | Call (InsertMany _) => True
  | Log Inserted => True
  | Log ErrorInserting => True
  | Log NothingToInsert => True
  | _ => False
  end.

(** The postings that page [page] of the job board holds in world [w]. *)
Definition onPage (w : World) (page : nat) (vacancy : Vacancy.t) : Prop :=
  exists items,
    vacanciesReply w page = Resolved {| VacanciesPage.items := Some items |}
    /\ In vacancy items.

(** The events that the page loop of a run of [position] for [user] in [w]
    can append, and those that the run can append. *)
Definition pagesEvent (w : World) (user : User.t) (position : Position.t)
    (e : Event) : Prop :=
  (exists page, In page (seq 1 6) /\ loopEvent user position page e)
  \/ (exists page vacancy,
         In page (seq 1 6) /\ onPage w page vacancy
         /\ (helperEvent user position vacancy e
             \/ negotiationEvent user vacancy e)).

Definition runEvent (w : World) (user : User.t) (position : Position.t)
    (e : Event) : Prop :=
  pagesEvent w user position e \/ commitEvent e.

(** The postings of a page whose callbacks wait at their first [await], for
    the store in which [items.map] runs. *)
Definition launchedVacancies (q : Z) (st : Store) (items : list Vacancy.t)
  : list Vacancy.t :=
  if processedVacancies st >=? q then []
  else filter (fun v => negb (alreadyInVacancyDocs (vacancyDocs st) v)) items.

(** The record of a posting and a letter. *)
Definition docOf (user : User.t) (p : Vacancy.t * option string) : Doc.t :=
  vacancyDoc user (fst p) (snd p).

(** [PushesFor user vacancies m]: [m] is blind to the store and appends
    records of some of [vacancies], in their order, at most one each. *)
Definition PushesFor {A} (user : User.t) (vacancies : list Vacancy.t) (m : M A)
  : Prop :=
  Pushes
    (fun docs =>
       exists pairs,
         docs = map (docOf user) pairs /\ Subseq (map fst pairs) vacancies)
    m.

(** [resumeDetail.download.pdf.url] *)
Definition pdfUrl (resumeDetail : JsValue) : Outcome JsValue :=
  match getProp resumeDetail "download" with
  | Resolved download =>
      match getProp download "pdf" with
      | Resolved pdf => getProp pdf "url"
      | Rejected => Rejected
      end
  | Rejected => Rejected
  end.

(** Events that ask for a letter or post a negotiation. *)
Definition lateEvent (e : Event) : Prop :=
  match e with
  | Call (ChatCoverLetter _ _ _ _) => True
  | Call (PostNegotiation _ _) => True
  | _ => False
  end.

(** The world with other answers to the requests for a resume. *)
Definition withResumeReply (replies : nat -> nat -> Outcome JsValue) (w : World)
  : World :=
  {| extractionReply := extractionReply w;
     vacanciesReply := vacanciesReply w;
     findOneReply := findOneReply w;
     suitableReply := suitableReply w;
     suitableResumeReply := suitableResumeReply w;
     resumeReply := replies;
     pdfReply := pdfReply w;
     coverLetterReply := coverLetterReply w;
     negotiationReply := negotiationReply w;
     insertManyReply := insertManyReply w;
     settleTime := settleTime w |}.

(** The first page holds three postings; the resume for the first of them
    cannot be fetched. *)
Definition firstResumeUnreadable : World :=
  withResumeReply
    (fun _ i => match i with
                | 0%nat => Rejected
                | _ => Resolved Sample.resume
                end)
    Sample.threeOnPageOne.

(** The world in which the callbacks settle at other moments. *)
Definition withSettleTime (settle : nat -> nat -> nat) (w : World) : World :=
  {| extractionReply := extractionReply w;
     vacanciesReply := vacanciesReply w;
     findOneReply := findOneReply w;
     suitableReply := suitableReply w;
     suitableResumeReply := suitableResumeReply w;
     resumeReply := resumeReply w;
     pdfReply := pdfReply w;
     coverLetterReply := coverLetterReply w;
     negotiationReply := negotiationReply w;
     insertManyReply := insertManyReply w;
     settleTime := settle |}.

(** Two stores with the same records, in some order, and the same count. *)
Definition sameRecords (st st' : Store) : Prop :=
  Permutation (vacancyDocs st) (vacancyDocs st')
  /\ processedVacancies st = processedVacancies st'.

(** [Blind k docs]: whatever the store, [k] appends [docs] to it. *)
Definition Blind (k : M unit) (docs : list Doc.t) : Prop :=
  exists events o, forall st, k st = (extend st docs events, o).

(** ** The selection of a resume, request by request

    [HHService.getSuitableResumeId] above takes the outcome of its [try]
    block as one answer.  [Selection.tryBlock] computes this outcome from the
    answers to the single requests of the block. *)

Module Selection.

(** The requests of the block. *)
Inductive Ask : Type :=
| AskSuitableResumes (vacancyId token : string)
| AskVacancy (vacancyId token : string)
| AskPDF (url : JsValue) (token : option string)
| AskChat (resumeDetails : list (JsValue * string)) (vacancyDetails : list JsValue)
| AskMine (token : string).

(** The answers: [response.data] of the three fetches, the text of the PDF
    of the candidate at each index, the content of the completion. *)
Record Replies : Type := mkReplies {
  resumesReply : Outcome JsValue;
  vacancyReply : Outcome JsValue;
  pdfReply : nat -> Outcome string;
  chatReply : Outcome (option string);
  mineReply : Outcome JsValue
}.

(** A computation asks and resolves or rejects. *)
Definition T (A : Type) : Type := (list Ask * Outcome A)%type.

Definition pure {A} (a : A) : T A := ([], Resolved a).

Definition lift {A} (o : Outcome A) : T A := ([], o).

Definition ask {A} (a : Ask) (reply : Outcome A) : T A := ([a], reply).

Definition andThen {A B} (m : T A) (k : A -> T B) : T B :=
  match m with
  | (asked, Resolved a) => let (asked', o) := k a in (asked ++ asked', o)
  | (asked, Rejected) => (asked, Rejected)
  end.

(** [Promise.all(promises)]: the requests of all the promises are made; the
    result is the list of their values, or a rejection when one of them
    rejects. *)
Fixpoint promiseAll {A} (promises : list (T A)) : T (list A) :=
  match promises with
  | [] => pure []
  | (asked, o) :: rest =>
      let (asked', os) := promiseAll rest in
      (asked ++ asked',
       match o, os with
       | Resolved a, Resolved values => Resolved (a :: values)
       | _, _ => Rejected
       end)
  end.

(** A value on which [slice] and [map], or [map] and [join], succeed. *)
Definition asArray (v : JsValue) : Outcome (list JsValue) :=
  match v with
  | JArr items => Resolved items
  | _ => Rejected
  end.

(** [v?.key] *)
Definition optProp (v : JsValue) (key : string) : JsValue :=
  match getProp v key with
  | Resolved x => x
  | Rejected => JUndefined
  end.

(** [v[0]] *)
Definition first (v : JsValue) : Outcome JsValue :=
  match v with
  | JUndefined | JNull => Rejected
  | JArr items => Resolved (nth 0 items JUndefined)
  | JObj fields => Resolved (assoc "0" fields)
  | JStr (String c _) => Resolved (JStr (String c EmptyString))
  | _ => Resolved JUndefined
  end.

Fixpoint names (skills : list JsValue) : Outcome (list JsValue) :=
  match skills with
  | [] => Resolved []
  | skill :: rest =>
      match getProp skill "name", names rest with
      | Resolved name, Resolved others => Resolved (name :: others)
      | _, _ => Rejected
      end
  end.

Definition bindO {A B} (o : Outcome A) (k : A -> Outcome B) : Outcome B :=
  match o with
  | Resolved a => k a
  | Rejected => Rejected
  end.

(** The values that the template of [vacancyDetails] reads, in its order. *)
Definition vacancyDetails (vacancy : JsValue) : Outcome (list JsValue) :=
  bindO (getProp vacancy "name") (fun name =>
  bindO (getProp vacancy "area") (fun area =>
  bindO (getProp area "name") (fun areaName =>
  bindO (getProp vacancy "salary") (fun salary =>
  bindO (getProp vacancy "employment") (fun employment =>
  bindO (getProp employment "name") (fun employmentName =>
  bindO (getProp vacancy "schedule") (fun schedule =>
  bindO (getProp schedule "name") (fun scheduleName =>
  bindO (getProp vacancy "key_skills") (fun key_skills =>
  bindO (asArray key_skills) (fun skills =>
  bindO (names skills) (fun skillNames =>
  Resolved
    ([name; areaName; optProp salary "from"; optProp salary "to";
      optProp salary "currency"; employmentName; scheduleName]
     ++ skillNames)))))))))))).

(** The double quote. *)
Definition quote : Ascii.ascii := Ascii.ascii_of_nat 34.

(** The text that the expression looks for in front of the identifier. *)
Definition key : string :=
  String quote ("resumeId" ++ String quote (": " ++ String quote ""))%string.

Fixpoint stripPrefix (prefix s : string) : option string :=
  match prefix, s with
  | EmptyString, _ => Some s
  | String p prefix', String c s' =>
      if Ascii.eqb p c then stripPrefix prefix' s' else None
  | String _ _, EmptyString => None
  end.

(** The characters in front of the first double quote, and what follows
    this quote. *)
Fixpoint untilQuote (s : string) : option (string * string) :=
  match s with
  | EmptyString => None
  | String c rest =>
      if Ascii.eqb c quote then Some (EmptyString, rest)
      else match untilQuote rest with
           | Some (run, after) => Some (String c run, after)
           | None => None
           end
  end.

(** The match of the expression at the start of [s]. *)
Definition captureAt (s : string) : option string :=
  match stripPrefix key s with
  | Some tail =>
      match untilQuote tail with
      | Some (EmptyString, _) => None
      | Some (run, _) => Some run
      | None => None
      end
  | None => None
  end.

(** [jsonResponse.match(regex)[1]] for the expression of the program: the
    group of the leftmost match, [None] when there is no match. *)
Fixpoint matchResumeId (s : string) : option string :=
  match captureAt s with
  | Some resumeId => Some resumeId
  | None =>
      match s with
      | EmptyString => None
      | String _ rest => matchResumeId rest
      end
  end.

(** No occurrence of [key] in [before ++ rest] starts within [before]. *)
Fixpoint keyAbsent (before rest : string) : bool :=
  match before with
  | EmptyString => true
  | String _ before' =>
      match stripPrefix key (before ++ rest) with
      | Some _ => false
      | None => keyAbsent before' rest
      end
  end.

(** The callback of [resumes.map]: it reads the link of the PDF, asks for
    the PDF and, once it has it, reads the identifier. *)
Definition loadOne (r : Replies) (token : string) (k : nat) (resume : JsValue)
  : T (JsValue * string) :=
  match pdfUrl resume with
  | Rejected => lift Rejected
  | Resolved url =>
      andThen
        (ask (AskPDF url (if (token =? "")%string then None else Some token))
           (pdfReply r k))
        (fun data =>
           andThen (lift (getProp resume "id")) (fun id => pure (id, data)))
  end.

Fixpoint loadFrom (r : Replies) (token : string) (k : nat) (resumes : list JsValue)
  : list (T (JsValue * string)) :=
  match resumes with
  | [] => []
  | resume :: rest => loadOne r token k resume :: loadFrom r token (S k) rest
  end.

(** The [try] block of [getSuitableResumeId]. *)
Definition tryBlock (r : Replies) (vacancyId token : string) : T JsValue :=
  andThen (ask (AskSuitableResumes vacancyId token) (resumesReply r))
    (fun resumeData =>
  andThen (ask (AskVacancy vacancyId token) (vacancyReply r)) (fun vacancy =>
  andThen (lift (getProp resumeData "items")) (fun items =>
  andThen (lift (asArray items)) (fun all =>
  let resumes := firstn 4 all in
  andThen (promiseAll (loadFrom r token 0 resumes)) (fun resumeDetails =>
  andThen (lift (vacancyDetails vacancy)) (fun details =>
  andThen (ask (AskChat resumeDetails details) (chatReply r)) (fun content =>
  andThen (lift match content with
                | Some text => Resolved text
                | None => Rejected
                end) (fun jsonResponse =>
  match matchResumeId jsonResponse with
  | Some resumeId => pure (JStr resumeId)
  | None =>
      andThen (ask (AskMine token) (mineReply r)) (fun mine =>
      andThen (lift (getProp mine "items")) (fun mineItems =>
      andThen (lift (first mineItems)) (fun resume =>
      lift (getProp resume "id"))))
  end)))))))).

(** [getSuitableResumeId]: the block, and [undefined] from its [catch]. *)
Definition getSuitableResumeId (r : Replies) (vacancyId token : string) : M JsValue :=
  HHService.getSuitableResumeId vacancyId token (snd (tryBlock r vacancyId token)).

(** A candidate with a link to its PDF. *)
Definition candidate (id : string) : JsValue :=
  JObj [("id", JStr id);
        ("download",
         JObj [("pdf", JObj [("url", JStr ("https://hh.ru/" ++ id ++ ".pdf")%string)])])].

(** Five candidates, a complete posting, PDFs that load and a completion
    that names the second candidate. *)
Definition fiveCandidates : Replies :=
  {| resumesReply :=
       Resolved (JObj [("items", JArr (map candidate ["r1"; "r2"; "r3"; "r4"; "r5"]))]);
     vacancyReply :=
       Resolved
         (JObj [("name", JStr "Python developer");
                ("area", JObj [("name", JStr "Almaty")]);
                ("salary", JNull);
                ("employment", JObj [("name", JStr "full")]);
                ("schedule", JObj [("name", JStr "remote")]);
                ("key_skills", JArr [JObj [("name", JStr "Python")]])]);
     pdfReply := fun _ => Resolved "resume text";
     chatReply := Resolved (Some ("{" ++ key ++ "r2" ++ String quote "}")%string);
     mineReply := Resolved (JObj [("items", JArr [candidate "r1"])]) |}.

Definition withChatReply (reply : Outcome (option string)) (r : Replies) : Replies :=
  {| resumesReply := resumesReply r;
     vacancyReply := vacancyReply r;
     pdfReply := pdfReply r;
     chatReply := reply;
     mineReply := mineReply r |}.

Definition withPdfReply (replies : nat -> Outcome string) (r : Replies) : Replies :=
  {| resumesReply := resumesReply r;
     vacancyReply := vacancyReply r;
     pdfReply := replies;
     chatReply := chatReply r;
     mineReply := mineReply r |}.

Definition isAskPDF (a : Ask) : bool :=
  match a with
  | AskPDF _ _ => true
  | _ => false
  end.

Definition isAskChat (a : Ask) : bool :=
  match a with
  | AskChat _ _ => true
  | _ => false
  end.

Definition isAskMine (a : Ask) : bool :=
  match a with
  | AskMine _ => true
  | _ => false
  end.

(** No double quote in a string. *)
Fixpoint quoteFree (s : string) : bool :=
  match s with
  | EmptyString => true
  | String c rest => negb (Ascii.eqb c quote) && quoteFree rest
  end.

End Selection.

(** * Properties *)

(** ** Quota policy *)

(** C1: for every non-negative count [c] the quota is 7 when [c <= 4], 2 when
    [c >= 8] and 6 in between; it never grows when the count grows. *)
Theorem getApplicationsPerPosition_step (c : Z) (Hc : 0 <= c) :
  (c <= 4 -> getApplicationsPerPosition c = 7)
  /\ (c >= 8 -> getApplicationsPerPosition c = 2)
  /\ (4 < c < 8 -> getApplicationsPerPosition c = 6)
  /\ (forall c', c <= c' ->
        getApplicationsPerPosition c' <= getApplicationsPerPosition c).
Proof.
  unfold getApplicationsPerPosition.
  repeat split; intros.
  - destruct (Z.leb_spec c 4); lia.
  - destruct (Z.leb_spec c 4); [lia|].
    destruct (Z.geb_spec c 8); lia.
  - destruct (Z.leb_spec c 4); [lia|].
    destruct (Z.geb_spec c 8); lia.
  - destruct (Z.leb_spec c 4), (Z.leb_spec c' 4),
      (Z.geb_spec c 8), (Z.geb_spec c' 8); lia.
Qed.

Lemma getApplicationsPerPosition_step_witness :
  getApplicationsPerPosition 3 = 7
  /\ getApplicationsPerPosition 9 <= getApplicationsPerPosition 3.
Proof.
  destruct (getApplicationsPerPosition_step 3 ltac:(lia)) as (H4 & _ & _ & Hmono).
  split; [apply H4; lia | apply Hmono; lia].
Defined.

Lemma getApplicationsPerPosition_pos (c : Z) : 0 < getApplicationsPerPosition c.
Proof.
  unfold getApplicationsPerPosition.
  destruct (c <=? 4); [lia|]. destruct (c >=? 8); lia.
Qed.

(** ** Computations that only append *)

Lemma extend_nil (st : Store) : extend st [] [] = st.
Proof.
  destruct st as [docs processed events]. unfold extend. simpl.
  now rewrite !app_nil_r, Z.add_0_r.
Qed.

Lemma extend_extend (st : Store) (d1 d2 : list Doc.t) (e1 e2 : list Event) :
  extend (extend st d1 e1) d2 e2 = extend st (d1 ++ d2) (e1 ++ e2).
Proof.
  unfold extend. simpl. f_equal.
  - now rewrite app_assoc.
  - rewrite length_app, Nat2Z.inj_add. lia.
  - now rewrite app_assoc.
Qed.

Lemma Quiet_Pushes {A} (P : list Doc.t -> Prop) (m : M A) :
  P [] -> Quiet m -> Pushes P m.
Proof.
  intros HP (docs & events & o & -> & Hm). now exists [], events, o.
Qed.

Lemma Quiet_ret {A} (a : A) : Quiet (ret a).
Proof.
  exists [], [], (Resolved a). split; [easy|]. intros st.
  now rewrite extend_nil.
Qed.

Lemma Quiet_throw {A} : Quiet (@throw A).
Proof.
  exists [], [], Rejected. split; [easy|]. intros st. now rewrite extend_nil.
Qed.

Lemma Quiet_settled {A} (o : Outcome A) : Quiet (settled o).
Proof.
  exists [], [], o. split; [easy|]. intros st. now rewrite extend_nil.
Qed.

Lemma Quiet_emit (e : Event) : Quiet (emit e).
Proof.
  exists [], [e], (Resolved tt). split; [easy|]. intros st.
  unfold emit, extend. simpl. now rewrite app_nil_r, Z.add_0_r.
Qed.

Lemma Pushes_push (P : list Doc.t -> Prop) (doc : Doc.t) :
  P [doc] -> Pushes P (push doc).
Proof.
  intros HP. exists [doc], [], (Resolved tt). split; [easy|]. intros st.
  unfold push, extend. simpl. now rewrite app_nil_r.
Qed.

Lemma Pushes_bind {A B} (P : list Doc.t -> Prop) (m : M A) (k : A -> M B) :
  P [] -> Quiet m -> (forall a, Pushes P (k a)) -> Pushes P (bind m k).
Proof.
  intros HP (docs & events & o & -> & Hm) Hk.
  destruct o as [a|].
  - destruct (Hk a) as (docs' & events' & o' & HP' & Hka).
    exists docs', (events ++ events'), o'. split; [easy|]. intros st.
    unfold bind. now rewrite Hm, Hka, extend_extend.
  - exists [], events, Rejected. split; [easy|]. intros st.
    unfold bind. now rewrite Hm.
Qed.

Lemma Pushes_tryCatch {A} (P : list Doc.t -> Prop) (body handler : M A) :
  Pushes P body -> Quiet handler -> Pushes P (tryCatch body handler).
Proof.
  intros (docs & events & o & HP & Hb) (docs' & events' & o' & -> & Hh).
  destruct o as [a|].
  - exists docs, events, (Resolved a). split; [easy|]. intros st.
    unfold tryCatch. now rewrite Hb.
  - exists docs, (events ++ events'), o'. split; [easy|]. intros st.
    unfold tryCatch. now rewrite Hb, Hh, extend_extend, app_nil_r.
Qed.

Lemma Quiet_bind {A B} (m : M A) (k : A -> M B) :
  Quiet m -> (forall a, Quiet (k a)) -> Quiet (bind m k).
Proof. intros. now apply Pushes_bind. Qed.

Lemma Quiet_tryCatch {A} (body handler : M A) :
  Quiet body -> Quiet handler -> Quiet (tryCatch body handler).
Proof. intros. now apply Pushes_tryCatch. Qed.

Lemma Quiet_call {A} (r : Request) (reply : Outcome A) : Quiet (call r reply).
Proof.
  unfold call. apply Quiet_bind; [apply Quiet_emit | intros; apply Quiet_settled].
Qed.

Lemma Quiet_log (m : LogMsg) : Quiet (log m).
Proof. apply Quiet_emit. Qed.

Ltac quiet :=
  repeat first
    [ apply Quiet_ret | apply Quiet_throw | apply Quiet_settled
    | apply Quiet_call | apply Quiet_log | apply Quiet_emit
    | apply Quiet_tryCatch | (apply Quiet_bind; [|intros]) ].

Lemma Quiet_isSuitableVacancy position vacancy reply :
  Quiet (isSuitableVacancy position vacancy reply).
Proof. unfold isSuitableVacancy. quiet. Qed.

Lemma Quiet_generateCoverLetter user vacancy resume reply :
  Quiet (generateCoverLetter user vacancy resume reply).
Proof. unfold generateCoverLetter. quiet. Qed.

Lemma Quiet_sendNegotiation vacancyId resumeId message token reply :
  Quiet (HHService.sendNegotiation vacancyId resumeId message token reply).
Proof. unfold HHService.sendNegotiation. quiet. Qed.

Lemma Quiet_getVacancy vacancyName page only_with_salary reply :
  Quiet (HHService.getVacancy vacancyName page only_with_salary reply).
Proof. unfold HHService.getVacancy. quiet. Qed.

Lemma Quiet_getSuitableResumeId vacancyId token reply :
  Quiet (HHService.getSuitableResumeId vacancyId token reply).
Proof. unfold HHService.getSuitableResumeId. quiet. Qed.

Lemma Quiet_getOneResume resumeId token reply :
  Quiet (HHService.getOneResume resumeId token reply).
Proof. unfold HHService.getOneResume. quiet. Qed.

Lemma Quiet_loadPDF url token reply : Quiet (loadPDF url token reply).
Proof. unfold loadPDF. destruct (token =? "")%string; quiet. Qed.

(** What the callback of a posting appends: nothing, or the record of the
    posting; for a user without a linked account the record carries a
    letter that is neither [null] nor empty. *)
Lemma resumed_pushes (P : list Doc.t -> Prop) w user position page i vacancy :
  P [] ->
  (forall coverLetter,
      (User.hasHHAccount user = false -> truthyText coverLetter = true) ->
      P [vacancyDoc user vacancy coverLetter]) ->
  Pushes P (resumed w user position page i vacancy).
Proof.
  intros Hnil Hdoc. unfold resumed.
  apply Pushes_bind; [easy | apply Quiet_call | intros found].
  destruct found; [now apply Quiet_Pushes, Quiet_ret|].
  apply Pushes_bind; [easy | apply Quiet_isSuitableVacancy | intros isSuitable].
  destruct (negb (truthy isSuitable)); [now apply Quiet_Pushes, Quiet_ret|].
  destruct (User.hasHHAccount user) eqn:Hhh.
  - apply Pushes_bind; [easy | apply Quiet_getSuitableResumeId | intros resumeId].
    apply Pushes_bind; [easy | apply Quiet_getOneResume | intros resumeDetail].
    apply Pushes_bind; [easy | apply Quiet_settled | intros download].
    apply Pushes_bind; [easy | apply Quiet_settled | intros pdf].
    apply Pushes_bind; [easy | apply Quiet_settled | intros url].
    apply Pushes_bind; [easy | apply Quiet_loadPDF | intros pdfContent].
    apply Pushes_bind; [easy | apply Quiet_generateCoverLetter | intros coverLetter].
    apply Pushes_bind; [easy | apply Quiet_sendNegotiation | intros _].
    apply Pushes_push, Hdoc. discriminate.
  - apply Pushes_bind; [easy | apply Quiet_generateCoverLetter | intros coverLetter].
    destruct (truthyText coverLetter) eqn:Hletter; simpl.
    + apply Pushes_push, Hdoc. easy.
    + now apply Quiet_Pushes, Quiet_ret.
Qed.

(** ** Relations that a computation keeps between the store before and after *)

Section Keeping.

Variable R : Store -> Store -> Prop.
Hypothesis R_refl : forall st, R st st.
Hypothesis R_trans : forall st1 st2 st3, R st1 st2 -> R st2 st3 -> R st1 st3.

Lemma Keeps_ret {A} (a : A) : Keeps R (ret a).
Proof. intros st. apply R_refl. Qed.

Lemma Keeps_throw {A} : Keeps R (@throw A).
Proof. intros st. apply R_refl. Qed.

Lemma Keeps_settled {A} (o : Outcome A) : Keeps R (settled o).
Proof. intros st. apply R_refl. Qed.

Lemma Keeps_gets {A} (f : Store -> A) : Keeps R (gets f).
Proof. intros st. apply R_refl. Qed.

Lemma Keeps_bind {A B} (m : M A) (k : A -> M B) :
  Keeps R m -> (forall a, Keeps R (k a)) -> Keeps R (bind m k).
Proof.
  intros Hm Hk st. unfold bind. specialize (Hm st).
  destruct (m st) as [st' [a|]]; simpl in *; [|easy].
  eapply R_trans; [eassumption | apply Hk].
Qed.

Lemma Keeps_tryCatch {A} (body handler : M A) :
  Keeps R body -> Keeps R handler -> Keeps R (tryCatch body handler).
Proof.
  intros Hb Hh st. unfold tryCatch. specialize (Hb st).
  destruct (body st) as [st' [a|]]; simpl in *; [easy|].
  eapply R_trans; [eassumption | apply Hh].
Qed.

Lemma Keeps_call {A} (r : Request) (reply : Outcome A) :
  Keeps R (emit (Call r)) -> Keeps R (call r reply).
Proof.
  intros He. unfold call. apply Keeps_bind; [easy | intros; apply Keeps_settled].
Qed.

End Keeping.

Lemma Grows_refl Q T st : Grows Q T st st.
Proof. exists [], []. now rewrite extend_nil. Qed.

Lemma Grows_trans Q T st1 st2 st3 :
  Grows Q T st1 st2 -> Grows Q T st2 st3 -> Grows Q T st1 st3.
Proof.
  intros (d1 & e1 & -> & Hd1 & He1) (d2 & e2 & -> & Hd2 & He2).
  exists (d1 ++ d2), (e1 ++ e2). rewrite extend_extend.
  repeat split; apply Forall_app; easy.
Qed.

Lemma Grows_emit Q (T : Event -> Prop) e : T e -> Keeps (Grows Q T) (emit e).
Proof.
  intros He st. exists [], [e]. repeat split; [|constructor|now constructor].
  unfold emit, extend. simpl. now rewrite app_nil_r, Z.add_0_r.
Qed.

Lemma Grows_push (Q : Doc.t -> Prop) T doc : Q doc -> Keeps (Grows Q T) (push doc).
Proof.
  intros Hd st. exists [doc], []. repeat split; [|now constructor|constructor].
  unfold push, extend. simpl. now rewrite app_nil_r.
Qed.

Lemma Grows_weaken (Q Q' : Doc.t -> Prop) (T T' : Event -> Prop) st st' :
  (forall doc, Q doc -> Q' doc) -> (forall e, T e -> T' e) ->
  Grows Q T st st' -> Grows Q' T' st st'.
Proof.
  intros HQ HT (docs & events & -> & Hd & He).
  exists docs, events. repeat split; eapply Forall_impl; eauto.
Qed.

(** ** What the helpers return *)

Lemma call_result {A} (r : Request) (reply : Outcome A) st :
  snd (call r reply st) = reply.
Proof. reflexivity. Qed.

Lemma isSuitableVacancy_resolves position vacancy reply st :
  exists isSuitable,
    snd (isSuitableVacancy position vacancy reply st) = Resolved isSuitable
    /\ (classifierFails reply = true -> isSuitable = JBool false).
Proof.
  unfold isSuitableVacancy, tryCatch, bind, call, settled, log, emit, ret.
  destruct reply as [[|j]|]; simpl.
  - now exists (JBool false).
  - destruct (getProp j "isSuitable") as [v|]; simpl.
    + now exists v.
    + now exists (JBool false).
  - now exists (JBool false).
Qed.

Lemma generateCoverLetter_result user vacancy resume reply st :
  snd (generateCoverLetter user vacancy resume reply st)
  = Resolved (letterOf reply).
Proof. now destruct reply. Qed.

Lemma sendNegotiation_result vacancyId resumeId message token reply st :
  snd (HHService.sendNegotiation vacancyId resumeId message token reply st)
  = Resolved match reply with
             | Resolved data => data
             | Rejected => HHService.softFailure
             end.
Proof. now destruct reply. Qed.

(** ** The callback of a posting keeps the store growing *)

Lemma Keeps_bind_when (R : Store -> Store -> Prop) {A B}
    (S : A -> Prop) (m : M A) (k : A -> M B) :
  (forall st1 st2 st3, R st1 st2 -> R st2 st3 -> R st1 st3) ->
  Keeps R m ->
  (forall st a, snd (m st) = Resolved a -> S a) ->
  (forall a, S a -> Keeps R (k a)) ->
  Keeps R (bind m k).
Proof.
  intros R_trans Hm HS Hk st. unfold bind.
  specialize (Hm st). specialize (HS st).
  destruct (m st) as [st' [a|]]; simpl in *; [|easy].
  eapply R_trans; [eassumption | now apply Hk, HS].
Qed.

Ltac keeps :=
  repeat first
    [ apply Keeps_ret; [apply Grows_refl]
    | apply Keeps_throw; [apply Grows_refl]
    | apply Keeps_settled; [apply Grows_refl]
    | apply Grows_emit; exact I
    | apply Keeps_call; [apply Grows_refl | apply Grows_trans | ]
    | apply Keeps_tryCatch; [apply Grows_trans | | ]
    | (apply Keeps_bind; [apply Grows_trans | | intros]) ].

Lemma isSuitableVacancy_grows Q position vacancy reply :
  Keeps (Grows Q inner) (isSuitableVacancy position vacancy reply).
Proof. unfold isSuitableVacancy, log. keeps. Qed.

Lemma generateCoverLetter_grows Q user vacancy resume reply :
  Keeps (Grows Q inner) (generateCoverLetter user vacancy resume reply).
Proof. unfold generateCoverLetter, log. keeps. Qed.

(** The callback of a posting appends events of its own and at most the
    record of the posting, and this only when the posting is not stored yet
    and the classifier answered. *)
Lemma resumed_grows (Q : Doc.t -> Prop) w user position page i vacancy :
  (findOneReply w page i = Resolved false ->
   classifierFails (suitableReply w page i) = false ->
   (User.hasHHAccount user = false ->
    truthyText (letterOf (coverLetterReply w page i)) = true) ->
   Q (vacancyDoc user vacancy (letterOf (coverLetterReply w page i)))) ->
  Keeps (Grows Q inner) (resumed w user position page i vacancy).
Proof.
  intros Hdoc. unfold resumed.
  apply Keeps_bind_when with (S := fun a => findOneReply w page i = Resolved a);
    [apply Grows_trans | keeps | intros st a Ha; exact Ha | intros found Hfound].
  destruct found; [keeps|].
  apply Keeps_bind_when
    with (S := fun a => classifierFails (suitableReply w page i) = true ->
                        a = JBool false);
    [apply Grows_trans | apply isSuitableVacancy_grows | | intros isSuitable Hs].
  { intros st a Ha.
    destruct (isSuitableVacancy_resolves (Position.position position) vacancy
                (suitableReply w page i) st) as (v & Hv & Hfail).
    rewrite Hv in Ha. now injection Ha as <-. }
  destruct (classifierFails (suitableReply w page i)) eqn:Hfails.
  { rewrite Hs by easy. simpl. keeps. }
  destruct (negb (truthy isSuitable)); [keeps|].
  destruct (User.hasHHAccount user) eqn:Hhh.
  - unfold HHService.getSuitableResumeId, HHService.getOneResume, loadPDF, log.
    apply Keeps_bind; [apply Grows_trans | keeps | intros resumeId].
    apply Keeps_bind; [apply Grows_trans | keeps | intros resumeDetail].
    apply Keeps_bind; [apply Grows_trans | keeps | intros download].
    apply Keeps_bind; [apply Grows_trans | keeps | intros pdf].
    apply Keeps_bind; [apply Grows_trans | keeps | intros url].
    apply Keeps_bind;
      [apply Grows_trans
      | destruct (User.hhAccessToken user =? "")%string; keeps
      | intros pdfContent].
    apply Keeps_bind_when
      with (S := fun a => a = letterOf (coverLetterReply w page i));
      [apply Grows_trans | apply generateCoverLetter_grows | | intros coverLetter ->].
    { intros st a Ha. rewrite generateCoverLetter_result in Ha.
      now injection Ha as <-. }
    apply Keeps_bind;
      [apply Grows_trans | unfold HHService.sendNegotiation, log; keeps | intros _].
    apply Grows_push, Hdoc; easy.
  - apply Keeps_bind_when
      with (S := fun a => a = letterOf (coverLetterReply w page i));
      [apply Grows_trans | apply generateCoverLetter_grows | | intros coverLetter ->].
    { intros st a Ha. rewrite generateCoverLetter_result in Ha.
      now injection Ha as <-. }
    destruct (truthyText (letterOf (coverLetterReply w page i))) eqn:Hletter;
      simpl; keeps.
    now apply Grows_push, Hdoc.
Qed.

(** ** One page *)

Lemma logged_extend st events : logged st events = extend st [] events.
Proof. unfold logged, extend. simpl. now rewrite app_nil_r, Z.add_0_r. Qed.

Lemma logged_logged st e1 e2 : logged (logged st e1) e2 = logged st (e1 ++ e2).
Proof. unfold logged. simpl. now rewrite app_assoc. Qed.

Lemma emit_logged e st : emit e st = (logged st [e], Resolved tt).
Proof. reflexivity. Qed.

Lemma insertByTime_perm {A} (x : nat * A) (l : list (nat * A)) :
  Permutation (insertByTime x l) (x :: l).
Proof.
  induction l as [|y rest IH]; simpl; [easy|].
  destruct (fst y <=? fst x)%nat; [|easy].
  rewrite IH. apply perm_swap.
Qed.

Lemma inOrderOfSettling_perm {A} (l : list (nat * A)) :
  Permutation (inOrderOfSettling l) (map snd l).
Proof.
  unfold inOrderOfSettling.
  assert (H : forall sorted,
             Permutation (fold_left (fun s x => insertByTime x s) l sorted)
                         (sorted ++ l)).
  { induction l as [|x rest IH]; intros sorted; simpl.
    - now rewrite app_nil_r.
    - rewrite IH, insertByTime_perm. apply Permutation_middle. }
  apply Permutation_map. apply (H []).
Qed.

Section Page.

Variable w : World.
Variable user : User.t.
Variable position : Position.t.
Variable q : Z.

Lemma mapAsync_launched items : forall page i st,
  mapAsync w user position q page i items st
  = (st, Resolved (launched w user position q st page i items)).
Proof.
  induction items as [|vacancy rest IH]; intros page i st; [reflexivity|].
  simpl. unfold bind at 1. unfold callback, bind, gets, ret.
  destruct (processedVacancies st >=? q).
  - now rewrite IH.
  - destruct (alreadyInVacancyDocs (vacancyDocs st) vacancy); now rewrite IH.
Qed.

Lemma launched_all (P : M unit -> Prop) st page items : forall i,
  (forall j vacancy, P (resumed w user position page j vacancy)) ->
  Forall P (map snd (launched w user position q st page i items)).
Proof.
  induction items as [|vacancy rest IH]; intros i HP; simpl; [constructor|].
  destruct (processedVacancies st >=? q); [now apply IH|].
  destruct (alreadyInVacancyDocs (vacancyDocs st) vacancy); [now apply IH|].
  simpl. constructor; [apply HP | now apply IH].
Qed.

Lemma launched_length st page items : forall i,
  (List.length (launched w user position q st page i items)
   <= List.length items)%nat.
Proof.
  induction items as [|vacancy rest IH]; intros i; simpl; [easy|].
  specialize (IH (S i)).
  destruct (processedVacancies st >=? q); [lia|].
  destruct (alreadyInVacancyDocs (vacancyDocs st) vacancy); simpl; lia.
Qed.

Lemma allSettled_resolves pending : forall st,
  snd (allSettled pending st) = Resolved tt.
Proof.
  induction pending as [|k rest IH]; intros st; [reflexivity|].
  simpl. unfold bind, tryCatch, ret.
  destruct (k st) as [st' [[]|]]; apply IH.
Qed.

Lemma allSettled_keeps (R : Store -> Store -> Prop) pending :
  (forall st, R st st) ->
  (forall st1 st2 st3, R st1 st2 -> R st2 st3 -> R st1 st3) ->
  Forall (Keeps R) pending -> Keeps R (allSettled pending).
Proof.
  intros R_refl R_trans Hall.
  induction Hall as [|k rest Hk _ IH]; simpl.
  - now apply Keeps_ret.
  - apply Keeps_bind; [easy | | now intros].
    apply Keeps_tryCatch; [easy | easy | now apply Keeps_ret].
Qed.

Lemma settledPage_keeps (R : Store -> Store -> Prop) page items st :
  (forall st, R st st) ->
  (forall st1 st2 st3, R st1 st2 -> R st2 st3 -> R st1 st3) ->
  (forall i vacancy, Keeps R (resumed w user position page i vacancy)) ->
  R st (settledPage w user position q page items st).
Proof.
  intros R_refl R_trans Hk. unfold settledPage.
  apply allSettled_keeps; [easy | easy |].
  eapply Permutation_Forall.
  - symmetry. apply inOrderOfSettling_perm.
  - now apply launched_all.
Qed.

Lemma extraction_cases (reply : Outcome ReplyText) :
  extractionFails reply = false ->
  exists j extractPosition,
    reply = Resolved (ParsesTo j)
    /\ getProp j "position" = Resolved extractPosition.
Proof.
  destruct reply as [[|j]|]; try discriminate.
  destruct j; try discriminate; intros _; eexists; eexists; split;
    reflexivity.
Qed.

(** The page whose extraction fails: one request, and the [try] block is
    left by the exception. *)
Lemma pageBody_extraction_fails page st :
  extractionFails (extractionReply w page) = true ->
  pageBody w user position q page st
  = (logged st [Call (ChatExtract (Position.position position))], Rejected).
Proof.
  intros Hfails. unfold pageBody, bind, call, settled, emit, logged. simpl.
  destruct (extractionReply w page) as [[|j]|]; try reflexivity.
  destruct j; try discriminate; reflexivity.
Qed.

(** The page whose extraction succeeds, by the answer of the job board. *)
Lemma pageBody_extracted page st j extractPosition :
  extractionReply w page = Resolved (ParsesTo j) ->
  getProp j "position" = Resolved extractPosition ->
  let st1 :=
    logged st
      [Call (ChatExtract (Position.position position));
       Log (LogPosition extractPosition);
       Call (GetVacancies extractPosition page (User.only_with_salary user) 40
               "publication_time")] in
  pageBody w user position q page st
  = match vacanciesReply w page with
    | Rejected => (logged st1 [Log ErrorVacancies], Rejected)
    | Resolved {| VacanciesPage.items := None |} => (st1, Rejected)
    | Resolved {| VacanciesPage.items := Some [] |} => (st1, Resolved Next)
    | Resolved {| VacanciesPage.items := Some items |} =>
        let st2 := settledPage w user position q page items st1 in
        (st2,
         Resolved (if processedVacancies st2 >=? q then Break else Next))
    end.
Proof.
  intros Hreply Hposition st1.
  unfold pageBody. unfold bind at 1. unfold call, bind at 1.
  rewrite emit_logged. unfold settled at 1. rewrite Hreply.
  unfold bind at 1. unfold settled at 1. simpl JSON_parse. cbv iota beta.
  unfold bind at 1. unfold settled at 1. rewrite Hposition. cbv iota beta.
  unfold bind at 1. unfold log. rewrite emit_logged, logged_logged.
  unfold bind at 1, HHService.getVacancy, tryCatch, call.
  unfold bind at 1. rewrite emit_logged, logged_logged. simpl app.
  fold st1. unfold settled at 1.
  destruct (vacanciesReply w page) as [[[items|]]|]; simpl.
  - unfold bind at 1. unfold settled at 1.
    destruct items as [|vacancy rest]; [reflexivity|].
    change (List.length (vacancy :: rest) =? 0)%nat with false. cbv iota.
    unfold bind at 1. rewrite mapAsync_launched.
    unfold bind at 1. unfold settledPage.
    pose proof (allSettled_resolves
      (inOrderOfSettling (launched w user position q st1 page 0 (vacancy :: rest)))
      st1) as Hres.
    destruct (allSettled _ st1) as [st2 o]. simpl in Hres. subst o.
    unfold bind, gets, ret. simpl.
    now destruct (processedVacancies st2 >=? q).
  - reflexivity.
  - reflexivity.
Qed.

End Page.

(** ** Counting in traces *)

Lemma extractions_app e1 e2 :
  extractions (e1 ++ e2) = (extractions e1 + extractions e2)%nat.
Proof. unfold extractions. now rewrite filter_app, length_app. Qed.

Lemma fetchedPages_app e1 e2 :
  fetchedPages (e1 ++ e2) = fetchedPages e1 ++ fetchedPages e2.
Proof. apply flat_map_app. Qed.

Lemma committed_app e1 e2 : committed (e1 ++ e2) = committed e1 ++ committed e2.
Proof. apply flat_map_app. Qed.

Lemma inner_silent events :
  Forall inner events ->
  extractions events = 0%nat /\ fetchedPages events = [] /\ committed events = [].
Proof.
  induction 1 as [|e rest He _ (IH1 & IH2 & IH3)]; [easy|].
  unfold extractions in *. simpl.
  destruct e as [[]|]; simpl in *; try contradiction; now rewrite ?IH2, ?IH3.
Qed.

Lemma Subseq_nil_l {A} (l : list A) : Subseq [] l.
Proof. induction l; now constructor. Qed.

Lemma Subseq_app {A} (l1 l2 l1' l2' : list A) :
  Subseq l1 l1' -> Subseq l2 l2' -> Subseq (l1 ++ l2) (l1' ++ l2').
Proof.
  induction 1; intros; simpl;
    [easy | apply Subseq_skip; auto | apply Subseq_take; auto].
Qed.

Lemma Subseq_length {A} (l1 l2 : list A) :
  Subseq l1 l2 -> (List.length l1 <= List.length l2)%nat.
Proof. induction 1; simpl; lia. Qed.

Ltac subseq :=
  simpl; repeat first [apply Subseq_nil | apply Subseq_take | apply Subseq_skip].

(** ** The page loop *)

Section Loop.

Variable w : World.
Variable user : User.t.
Variable position : Position.t.
Variable q : Z.

(** The property of the records that the run accumulates. *)
Variable Q : Doc.t -> Prop.

Hypothesis Q_pushed : forall page i vacancy,
  findOneReply w page i = Resolved false ->
  classifierFails (suitableReply w page i) = false ->
  (User.hasHHAccount user = false ->
   truthyText (letterOf (coverLetterReply w page i)) = true) ->
  Q (vacancyDoc user vacancy (letterOf (coverLetterReply w page i))).

Lemma settledPage_grows page items st :
  Grows Q inner st (settledPage w user position q page items st).
Proof.
  apply settledPage_keeps; [apply Grows_refl | apply Grows_trans |].
  intros i vacancy. apply resumed_grows, Q_pushed.
Qed.

(** One turn of the loop: the [try] block and its [catch]. *)
Lemma iteration_shape page st :
  exists docs events flow,
    tryCatch (pageBody w user position q page) (log (ErrorPage page) ;;; ret Next) st
    = (extend st docs events, Resolved flow)
    /\ Forall Q docs
    /\ extractions events = 1%nat
    /\ Subseq (fetchedPages events) [page]
    /\ committed events = [].
Proof.
  unfold tryCatch.
  destruct (extractionFails (extractionReply w page)) eqn:Hfails.
  - rewrite pageBody_extraction_fails by easy.
    unfold bind, log, ret. rewrite emit_logged, logged_logged, logged_extend.
    eexists [], _, Next. split; [reflexivity|].
    repeat split; [constructor | subseq].
  - destruct (extraction_cases _ Hfails) as (j & extractPosition & Hreply & Hpos).
    rewrite (pageBody_extracted w user position q page st j extractPosition Hreply Hpos).
    cbv zeta.
    destruct (vacanciesReply w page) as [[[items|]]|].
    + destruct items as [|vacancy rest].
      * rewrite logged_extend. eexists [], _, Next. split; [reflexivity|].
        repeat split; [constructor | subseq].
      * destruct (settledPage_grows page (vacancy :: rest)
                    (logged st
                       [Call (ChatExtract (Position.position position));
                        Log (LogPosition extractPosition);
                        Call (GetVacancies extractPosition page
                                (User.only_with_salary user) 40 "publication_time")]))
          as (docs & events & Hst2 & Hdocs & Hevents).
        rewrite Hst2, logged_extend, extend_extend.
        destruct (inner_silent events Hevents) as (He & Hf & Hc).
        eexists docs, _, _. split; [reflexivity|].
        rewrite extractions_app, fetchedPages_app, committed_app, He, Hf, Hc.
        repeat split; [easy | subseq].
    + unfold bind, log, ret. rewrite emit_logged, logged_logged, logged_extend.
      eexists [], _, Next. split; [reflexivity|].
      repeat split; [constructor | subseq].
    + unfold bind, log, ret.
      rewrite emit_logged, !logged_logged, logged_extend.
      eexists [], _, Next. split; [reflexivity|].
      repeat split; [constructor | subseq].
Qed.

(** The loop over any pages: it resolves; it appends records that satisfy
    [Q]; it asks for one extraction per page it enters, hence for as many as
    there are pages when it is not left by [break]; the pages it fetches are
    among its pages, in their order; it inserts nothing. *)
Lemma pageLoop_shape pages : forall st,
  exists docs events flow,
    pageLoop w user position q pages st = (extend st docs events, Resolved flow)
    /\ Forall Q docs
    /\ (extractions events <= List.length pages)%nat
    /\ (flow = Next -> extractions events = List.length pages)
    /\ Subseq (fetchedPages events) pages
    /\ committed events = [].
Proof.
  induction pages as [|page rest IH]; intros st.
  - exists [], [], Next. simpl. unfold ret. rewrite extend_nil.
    repeat split; constructor.
  - simpl. unfold bind at 1.
    destruct (iteration_shape page st)
      as (docs & events & flow & -> & Hdocs & He & Hf & Hc).
    destruct flow.
    + destruct (IH (extend st docs events))
        as (docs' & events' & flow' & -> & Hdocs' & He' & Hnext & Hf' & Hc').
      exists (docs ++ docs'), (events ++ events'), flow'.
      rewrite extend_extend, extractions_app, fetchedPages_app, committed_app.
      rewrite He, Hc, Hc'. simpl.
      repeat split; try easy.
      * now apply Forall_app.
      * lia.
      * intros Hflow. now rewrite Hnext.
      * now apply (Subseq_app _ _ [page] rest).
    + exists docs, events, Break. unfold ret. rewrite He, Hc.
      repeat split; try easy.
      * simpl. lia.
      * rewrite <- (app_nil_r (fetchedPages events)).
        apply (Subseq_app _ _ [page] rest); [easy | apply Subseq_nil_l].
Qed.

End Loop.

(** ** A whole run *)

Lemma criterionRun_runs w user position q (Q : Doc.t -> Prop) :
  (forall page i vacancy,
      findOneReply w page i = Resolved false ->
      classifierFails (suitableReply w page i) = false ->
      (User.hasHHAccount user = false ->
       truthyText (letterOf (coverLetterReply w page i)) = true) ->
      Q (vacancyDoc user vacancy (letterOf (coverLetterReply w page i)))) ->
  exists docs events,
    criterionRun w user position q emptyStore
    = ({| vacancyDocs := docs;
          processedVacancies := Z.of_nat (List.length docs);
          trace := events |}, Resolved tt)
    /\ Forall Q docs
    /\ committed events = docs
    /\ Subseq (fetchedPages events) (seq 1 6)
    /\ (extractions events <= 6)%nat.
Proof.
  intros HQ. unfold criterionRun.
  destruct (pageLoop_shape w user position q Q HQ (seq 1 6) emptyStore)
    as (docs & events & flow & Hloop & Hdocs & He & _ & Hf & Hc).
  rewrite length_seq in He.
  remember (seq 1 6) as pages eqn:Hpages.
  unfold bind at 1. rewrite Hloop.
  unfold bind at 1. unfold gets at 1.
  change (vacancyDocs (extend emptyStore docs events)) with docs.
  destruct docs as [|doc docs].
  - exists [], (events ++ [Log NothingToInsert]).
    rewrite committed_app, fetchedPages_app, extractions_app, Hc.
    simpl. rewrite app_nil_r, Nat.add_0_r. easy.
  - change (0 <? List.length (doc :: docs))%nat with true. cbv iota.
    unfold tryCatch, bind, call, log, settled, emit, extend, emptyStore.
    cbn [vacancyDocs processedVacancies trace app].
    destruct (insertManyReply w) as [[]|];
      eexists (doc :: docs), _; (split; [reflexivity|]);
      cbn [trace];
      rewrite !committed_app, !fetchedPages_app, !extractions_app, Hc;
      simpl; rewrite !app_nil_r, ?Nat.add_0_r; easy.
Qed.

Lemma criterionRun_shape w user position q (Q : Doc.t -> Prop) :
  (forall page i vacancy,
      findOneReply w page i = Resolved false ->
      classifierFails (suitableReply w page i) = false ->
      (User.hasHHAccount user = false ->
       truthyText (letterOf (coverLetterReply w page i)) = true) ->
      Q (vacancyDoc user vacancy (letterOf (coverLetterReply w page i)))) ->
  let st := run (criterionRun w user position q) in
  snd (criterionRun w user position q emptyStore) = Resolved tt
  /\ Forall Q (vacancyDocs st)
  /\ committed (trace st) = vacancyDocs st
  /\ Subseq (fetchedPages (trace st)) (seq 1 6)
  /\ (extractions (trace st) <= 6)%nat.
Proof.
  intros HQ st. subst st. unfold run.
  destruct (criterionRun_runs w user position q Q HQ)
    as (docs & events & -> & Hdocs & Hc & Hf & He).
  easy.
Qed.

Lemma processVacancies_shape w user position (Q : Doc.t -> Prop) :
  (forall page i vacancy,
      findOneReply w page i = Resolved false ->
      classifierFails (suitableReply w page i) = false ->
      (User.hasHHAccount user = false ->
       truthyText (letterOf (coverLetterReply w page i)) = true) ->
      Q (vacancyDoc user vacancy (letterOf (coverLetterReply w page i)))) ->
  let st := run (processVacancies w user position) in
  snd (processVacancies w user position emptyStore) = Resolved tt
  /\ Forall Q (vacancyDocs st)
  /\ committed (trace st) = vacancyDocs st
  /\ Subseq (fetchedPages (trace st)) (seq 1 6)
  /\ (extractions (trace st) <= 6)%nat.
Proof.
  intros HQ. unfold processVacancies.
  destruct (User.positions user) as [positions|].
  - now apply criterionRun_shape.
  - unfold run, ret. simpl.
    split; [reflexivity|]. split; [constructor|]. split; [reflexivity|].
    split; [subseq | unfold extractions; simpl; lia].
Qed.

(** ** Postings that yield no record *)

(** A callback that can only append records of an empty kind appends none. *)
Lemma grows_nothing st st' :
  Grows (fun _ => False) inner st st' ->
  vacancyDocs st' = vacancyDocs st
  /\ processedVacancies st' = processedVacancies st.
Proof.
  intros (docs & events & -> & Hdocs & _).
  destruct docs as [|doc docs]; [|now inversion Hdocs].
  simpl. rewrite app_nil_r. split; [easy | lia].
Qed.

(** C5: when the call of the classifier fails (the completion rejects, or
    its text cannot be parsed), [isSuitableVacancy] resolves to [false], and
    the callback of the posting leaves the accumulated records and their
    count as they are; every record that a run commits comes from a posting
    for which the classifier answered. *)
Theorem classifier_fails_closed w user position page i vacancy :
  classifierFails (suitableReply w page i) = true ->
  (forall st,
      snd (isSuitableVacancy (Position.position position) vacancy
             (suitableReply w page i) st)
      = Resolved (JBool false))
  /\ (forall st,
         vacancyDocs (fst (resumed w user position page i vacancy st))
         = vacancyDocs st
         /\ processedVacancies (fst (resumed w user position page i vacancy st))
            = processedVacancies st)
  /\ Forall
       (fun doc =>
          exists page' i' vacancy',
            classifierFails (suitableReply w page' i') = false
            /\ doc = vacancyDoc user vacancy' (letterOf (coverLetterReply w page' i')))
       (committed (trace (run (processVacancies w user position)))).
Proof.
  intros Hfails. split; [|split].
  - intros st.
    destruct (isSuitableVacancy_resolves (Position.position position) vacancy
                (suitableReply w page i) st) as (v & Hv & Hfalse).
    now rewrite Hv, Hfalse.
  - intros st. apply grows_nothing.
    apply resumed_grows. intros _ Hok. now rewrite Hfails in Hok.
  - destruct (processVacancies_shape w user position
                (fun doc =>
                   exists page' i' vacancy',
                     classifierFails (suitableReply w page' i') = false
                     /\ doc = vacancyDoc user vacancy'
                                (letterOf (coverLetterReply w page' i'))))
      as (_ & Hdocs & Hcommitted & _).
    + intros page' i' vacancy' _ Hok _. now exists page', i', vacancy'.
    + now rewrite Hcommitted.
Qed.

(** C6: for a user without a linked account, when the generator gives no
    content (the completion rejects, or its content is [null]),
    [generateCoverLetter] returns [null] and the callback of the posting
    leaves the accumulated records and their count as they are; no record
    that a run of such a user commits has a [null] or empty letter. *)
Theorem no_letter_no_record w user position page i vacancy :
  User.hasHHAccount user = false ->
  noContent (coverLetterReply w page i) = true ->
  (forall resume st,
      snd (generateCoverLetter user vacancy resume (coverLetterReply w page i) st)
      = Resolved None)
  /\ (forall st,
         vacancyDocs (fst (resumed w user position page i vacancy st))
         = vacancyDocs st
         /\ processedVacancies (fst (resumed w user position page i vacancy st))
            = processedVacancies st)
  /\ Forall (fun doc => truthyText (Doc.cover_letter doc) = true)
       (committed (trace (run (processVacancies w user position)))).
Proof.
  intros Hhh Hnone.
  assert (Hletter : letterOf (coverLetterReply w page i) = None).
  { now destruct (coverLetterReply w page i) as [[letter|]|]. }
  split; [|split].
  - intros resume st. now rewrite generateCoverLetter_result, Hletter.
  - intros st. apply grows_nothing.
    apply resumed_grows. intros _ _ Htruthy.
    specialize (Htruthy Hhh). now rewrite Hletter in Htruthy.
  - destruct (processVacancies_shape w user position
                (fun doc => truthyText (Doc.cover_letter doc) = true))
      as (_ & Hdocs & Hcommitted & _).
    + intros page' i' vacancy' _ _ Htruthy. now apply Htruthy.
    + now rewrite Hcommitted.
Qed.

Lemma classifier_fails_closed_witness :
  classifierFails (suitableReply Sample.classifierDown 1 0) = true
  /\ committed
       (trace (run (processVacancies Sample.classifierDown
                      (Sample.userOf 3 0 false) Sample.dev)))
     = [].
Proof.
  split; [reflexivity|].
  destruct (classifier_fails_closed Sample.classifierDown
              (Sample.userOf 3 0 false) Sample.dev 1 0
              (Sample.posting "101" "Python developer" "Kaspi") eq_refl)
    as (_ & _ & Hall).
  destruct (committed _) as [|doc docs]; [reflexivity|].
  inversion Hall as [|? ? (page & i & vacancy & Hok & _) _]. discriminate Hok.
Defined.

Lemma no_letter_no_record_witness :
  User.hasHHAccount (Sample.userOf 3 0 false) = false
  /\ noContent (coverLetterReply Sample.generatorSilent 1 0) = true
  /\ vacancyDocs
       (fst (resumed Sample.generatorSilent (Sample.userOf 3 0 false) Sample.dev
               1 0 (Sample.posting "101" "Python developer" "Kaspi") emptyStore))
     = [].
Proof.
  split; [reflexivity|]. split; [reflexivity|].
  apply (no_letter_no_record Sample.generatorSilent (Sample.userOf 3 0 false)
           Sample.dev 1 0 (Sample.posting "101" "Python developer" "Kaspi")
           eq_refl eq_refl).
Defined.

(** ** The callback of a posting for a user with a linked account *)

Lemma isSuitableVacancy_answered position vacancy j verdict st :
  getProp j "isSuitable" = Resolved verdict ->
  snd (isSuitableVacancy position vacancy (Resolved (ParsesTo j)) st)
  = Resolved verdict.
Proof.
  intros Hverdict.
  unfold isSuitableVacancy, tryCatch, bind, call, settled, emit. simpl.
  now rewrite Hverdict.
Qed.

Lemma getSuitableResumeId_result vacancyId token reply st :
  snd (HHService.getSuitableResumeId vacancyId token reply st)
  = Resolved (resumeIdOf reply).
Proof. now destruct reply. Qed.

Lemma loadPDF_result url token reply st : snd (loadPDF url token reply st) = reply.
Proof. unfold loadPDF. now destruct (token =? "")%string. Qed.

(** A quiet computation in front of a continuation: the continuation runs
    on the store with more events, or does not run. *)
Lemma bind_quiet {A B} (m : M A) (k : A -> M B) :
  Quiet m ->
  forall st, exists events,
    bind m k st
    = match snd (m st) with
      | Resolved a => k a (logged st events)
      | Rejected => (logged st events, Rejected)
      end.
Proof.
  intros (docs & events & o & -> & Hm) st. exists events.
  unfold bind. rewrite Hm, logged_extend. now destruct o.
Qed.

Ltac step Hquiet :=
  let events := fresh "events" in
  let Hstep := fresh "Hstep" in
  match goal with
  | |- context [bind ?m ?k ?st] =>
      destruct (bind_quiet m k Hquiet st) as (events & Hstep);
      rewrite Hstep; clear Hstep; rewrite ?logged_logged
  end.

(** When the posting is new and suitable and the resume of the user can be
    read, the callback ends with the call of [sendNegotiation], whose
    message is the letter as the generator returned it, and with the push
    of the record with that letter. *)
Lemma resumed_linked w user position page i vacancy
    j verdict detail download pdf url pdfContent st :
  User.hasHHAccount user = true ->
  findOneReply w page i = Resolved false ->
  suitableReply w page i = Resolved (ParsesTo j) ->
  getProp j "isSuitable" = Resolved verdict ->
  truthy verdict = true ->
  resumeReply w page i = Resolved detail ->
  getProp detail "download" = Resolved download ->
  getProp download "pdf" = Resolved pdf ->
  getProp pdf "url" = Resolved url ->
  pdfReply w page i = Resolved pdfContent ->
  exists events,
    resumed w user position page i vacancy st
    = push (vacancyDoc user vacancy (letterOf (coverLetterReply w page i)))
        (fst (HHService.sendNegotiation (Vacancy.id vacancy)
                (resumeIdOf (suitableResumeReply w page i))
                (letterOf (coverLetterReply w page i))
                (User.hhAccessToken user) (negotiationReply w page i)
                (logged st events))).
Proof.
  intros Hhh Hfound Hsuitable Hverdict Htruthy Hresume Hdownload Hpdf Hurl Hcontent.
  unfold resumed.
  step (Quiet_call (FindOne (User.id user) (Vacancy.name vacancy))
          (findOneReply w page i)).
  rewrite call_result, Hfound. cbv iota.
  step (Quiet_isSuitableVacancy (Position.position position) vacancy
          (suitableReply w page i)).
  rewrite Hsuitable, (isSuitableVacancy_answered _ _ j verdict) by easy.
  rewrite Htruthy, Hhh. change (negb true) with false. cbv iota.
  step (Quiet_getSuitableResumeId (Vacancy.id vacancy) (User.hhAccessToken user)
          (suitableResumeReply w page i)).
  rewrite getSuitableResumeId_result.
  step (Quiet_getOneResume (resumeIdOf (suitableResumeReply w page i))
          (User.hhAccessToken user) (resumeReply w page i)).
  unfold HHService.getOneResume at 1. rewrite call_result, Hresume.
  unfold bind at 1, settled at 1. rewrite Hdownload.
  unfold bind at 1, settled at 1. rewrite Hpdf.
  unfold bind at 1, settled at 1. rewrite Hurl.
  step (Quiet_loadPDF url (User.hhAccessToken user) (pdfReply w page i)).
  rewrite loadPDF_result, Hcontent.
  step (Quiet_generateCoverLetter user vacancy pdfContent (coverLetterReply w page i)).
  rewrite generateCoverLetter_result.
  match goal with
  | |- context [bind _ _ (logged st ?all)] => exists all
  end.
  unfold bind.
  pose proof (sendNegotiation_result (Vacancy.id vacancy)
                (resumeIdOf (suitableResumeReply w page i))
                (letterOf (coverLetterReply w page i))
                (User.hhAccessToken user) (negotiationReply w page i)) as Hsent.
  match goal with
  | |- context [HHService.sendNegotiation ?a ?b ?c ?d ?e ?s] =>
      specialize (Hsent s);
      destruct (HHService.sendNegotiation a b c d e s) as [st' o]
  end.
  simpl in Hsent. subst o. reflexivity.
Qed.

(** ** Runs in two worlds that differ in the answers of the submission
       endpoint *)

Lemma Alike_ret {A} (RA : A -> A -> Prop) a a' : RA a a' -> Alike RA (ret a) (ret a').
Proof. intros Ha st st' Hst. now split. Qed.

Lemma Alike_settled {A} (o : Outcome A) : Alike eq (settled o) (settled o).
Proof. intros st st' Hst. split; [easy|]. now destruct o. Qed.

Lemma Alike_emit e e' : Alike eq (emit e) (emit e').
Proof. intros st st' Hst. now split. Qed.

Lemma Alike_push doc : Alike eq (push doc) (push doc).
Proof.
  intros st st' (Hdocs & Hprocessed). unfold push, sameDocs. simpl.
  now rewrite Hdocs, Hprocessed.
Qed.

Lemma Alike_gets {A} (f : Store -> A) :
  (forall st st', sameDocs st st' -> f st = f st') -> Alike eq (gets f) (gets f).
Proof. intros Hf st st' Hst. split; [easy|]. simpl. now apply Hf. Qed.

Lemma Alike_bind {A B} (RA : A -> A -> Prop) (RB : B -> B -> Prop)
    (m m' : M A) (k k' : A -> M B) :
  Alike RA m m' ->
  (forall a a', RA a a' -> Alike RB (k a) (k' a')) ->
  Alike RB (bind m k) (bind m' k').
Proof.
  intros Hm Hk st st' Hst. unfold bind.
  destruct (Hm st st' Hst) as (Hst1 & Hfate).
  destruct (m st) as [st1 [a|]], (m' st') as [st1' [a'|]]; simpl in *;
    try easy.
  now apply Hk.
Qed.

Lemma Alike_tryCatch {A} (RA : A -> A -> Prop) (body body' handler handler' : M A) :
  Alike RA body body' -> Alike RA handler handler' ->
  Alike RA (tryCatch body handler) (tryCatch body' handler').
Proof.
  intros Hb Hh st st' Hst. unfold tryCatch.
  destruct (Hb st st' Hst) as (Hst1 & Hfate).
  destruct (body st) as [st1 [a|]], (body' st') as [st1' [a'|]]; simpl in *;
    try easy.
  now apply Hh.
Qed.

Lemma Alike_call {A} r r' (reply : Outcome A) :
  Alike eq (call r reply) (call r' reply).
Proof.
  unfold call. eapply Alike_bind; [apply Alike_emit | intros; apply Alike_settled].
Qed.

Lemma Alike_log m m' : Alike eq (log m) (log m').
Proof. apply Alike_emit. Qed.

Lemma sendNegotiation_run vacancyId resumeId message token reply st :
  HHService.sendNegotiation vacancyId resumeId message token reply st
  = (logged st
       (Call (PostNegotiation
                (if truthyText message
                 then [("vacancy_id", JStr vacancyId); ("resume_id", resumeId);
                       ("message", JStr (orEmpty message))]
                 else [("vacancy_id", JStr vacancyId); ("resume_id", resumeId)])
                token)
        :: match reply with
           | Resolved _ => []
           | Rejected => [Log ErrorNegotiation]
           end),
     Resolved match reply with
              | Resolved data => data
              | Rejected => HHService.softFailure
              end).
Proof.
  unfold HHService.sendNegotiation, tryCatch, bind, call, log, settled, ret,
    emit, logged.
  destruct (truthyText message), reply; simpl; rewrite <- ?app_assoc;
    reflexivity.
Qed.

Lemma Alike_sendNegotiation vacancyId resumeId message token reply reply' :
  Alike (fun _ _ => True)
    (HHService.sendNegotiation vacancyId resumeId message token reply)
    (HHService.sendNegotiation vacancyId resumeId message token reply').
Proof.
  intros st st' Hst. rewrite !sendNegotiation_run. now split.
Qed.

Ltac alike :=
  repeat first
    [ apply Alike_ret; reflexivity
    | apply Alike_settled | apply Alike_call | apply Alike_log
    | apply Alike_push
    | apply Alike_tryCatch
    | (apply Alike_bind with (RA := eq); [| intros ? ? <-]) ].

Lemma Alike_isSuitableVacancy position vacancy reply :
  Alike eq (isSuitableVacancy position vacancy reply)
    (isSuitableVacancy position vacancy reply).
Proof. unfold isSuitableVacancy. alike. Qed.

Lemma Alike_generateCoverLetter user vacancy resume reply :
  Alike eq (generateCoverLetter user vacancy resume reply)
    (generateCoverLetter user vacancy resume reply).
Proof. unfold generateCoverLetter. alike. Qed.

Lemma Alike_getSuitableResumeId vacancyId token reply :
  Alike eq (HHService.getSuitableResumeId vacancyId token reply)
    (HHService.getSuitableResumeId vacancyId token reply).
Proof. unfold HHService.getSuitableResumeId. alike. Qed.

Lemma Alike_loadPDF url token reply :
  Alike eq (loadPDF url token reply) (loadPDF url token reply).
Proof. unfold loadPDF. destruct (token =? "")%string; alike. Qed.

Lemma Alike_getVacancy vacancyName page only_with_salary reply :
  Alike eq (HHService.getVacancy vacancyName page only_with_salary reply)
    (HHService.getVacancy vacancyName page only_with_salary reply).
Proof.
  unfold HHService.getVacancy. apply Alike_tryCatch; [alike|].
  apply Alike_bind with (RA := eq); [alike | intros _ _ _].
  intros st st' Hst. now split.
Qed.

Section TwoWorlds.

Variable w : World.
Variable replies : nat -> nat -> Outcome JsValue.
Variable user : User.t.
Variable position : Position.t.
Variable q : Z.

Let w' : World := withNegotiationReply replies w.

Lemma resumed_alike page i vacancy :
  Alike eq (resumed w user position page i vacancy)
    (resumed w' user position page i vacancy).
Proof.
  unfold resumed, w'.
  cbn [findOneReply suitableReply suitableResumeReply resumeReply pdfReply
         coverLetterReply negotiationReply withNegotiationReply].
  apply Alike_bind with (RA := eq); [apply Alike_call | intros found ? <-].
  destruct found; [alike|].
  apply Alike_bind with (RA := eq);
    [apply Alike_isSuitableVacancy | intros isSuitable ? <-].
  destruct (negb (truthy isSuitable)); [alike|].
  destruct (User.hasHHAccount user).
  - apply Alike_bind with (RA := eq);
      [apply Alike_getSuitableResumeId | intros resumeId ? <-].
    apply Alike_bind with (RA := eq);
      [apply Alike_call | intros resumeDetail ? <-].
    apply Alike_bind with (RA := eq); [apply Alike_settled | intros download ? <-].
    apply Alike_bind with (RA := eq); [apply Alike_settled | intros pdf ? <-].
    apply Alike_bind with (RA := eq); [apply Alike_settled | intros url ? <-].
    apply Alike_bind with (RA := eq);
      [apply Alike_loadPDF | intros pdfContent ? <-].
    apply Alike_bind with (RA := eq);
      [apply Alike_generateCoverLetter | intros coverLetter ? <-].
    apply Alike_bind with (RA := fun _ _ => True);
      [apply Alike_sendNegotiation | intros _ _ _].
    apply Alike_push.
  - apply Alike_bind with (RA := eq);
      [apply Alike_generateCoverLetter | intros coverLetter ? <-].
    destruct (negb (truthyText coverLetter)); alike.
Qed.

Lemma launched_alike st st' page items : forall i,
  sameDocs st st' ->
  Forall2 alikePending
    (launched w user position q st page i items)
    (launched w' user position q st' page i items).
Proof.
  intros i (Hdocs & Hprocessed). revert i.
  induction items as [|vacancy rest IH]; intros i; simpl; [constructor|].
  rewrite <- Hdocs, <- Hprocessed.
  destruct (processedVacancies st >=? q); [apply IH|].
  destruct (alreadyInVacancyDocs (vacancyDocs st) vacancy); [apply IH|].
  constructor; [|apply IH].
  split; [reflexivity | apply resumed_alike].
Qed.

Lemma insertByTime_alike x x' l l' :
  alikePending x x' -> Forall2 alikePending l l' ->
  Forall2 alikePending (insertByTime x l) (insertByTime x' l').
Proof.
  intros Hx Hl. induction Hl as [|y y' l l' Hy Hl IH]; simpl.
  - constructor; [exact Hx | constructor].
  - assert (Hkeys : (fst y' <=? fst x')%nat = (fst y <=? fst x)%nat).
    { destruct Hx as (<- & _), Hy as (<- & _). reflexivity. }
    rewrite Hkeys.
    destruct (fst y <=? fst x)%nat.
    + constructor; [exact Hy | exact IH].
    + constructor; [exact Hx | constructor; [exact Hy | exact Hl]].
Qed.

Lemma inOrderOfSettling_alike l l' :
  Forall2 alikePending l l' ->
  Forall2 (Alike eq) (inOrderOfSettling l) (inOrderOfSettling l').
Proof.
  intros Hl. unfold inOrderOfSettling.
  assert (H : forall sorted sorted',
             Forall2 alikePending sorted sorted' ->
             Forall2 alikePending
               (fold_left (fun s x => insertByTime x s) l sorted)
               (fold_left (fun s x => insertByTime x s) l' sorted')).
  { induction Hl as [|x x' l l' Hx Hl IH]; intros sorted sorted' Hs; simpl.
    - easy.
    - apply IH. now apply insertByTime_alike. }
  specialize (H [] [] (Forall2_nil _)).
  induction H as [|p p' s s' (_ & Hp) _ IH]; simpl; now constructor.
Qed.

Lemma allSettled_alike pending pending' :
  Forall2 (Alike eq) pending pending' ->
  Alike eq (allSettled pending) (allSettled pending').
Proof.
  induction 1 as [|k k' rest rest' Hk _ IH]; simpl.
  - now apply Alike_ret.
  - eapply Alike_bind; [|intros _ _ _; apply IH].
    apply Alike_tryCatch; [apply Hk | now apply Alike_ret].
Qed.

Lemma mapAsync_alike page items :
  Alike (Forall2 alikePending)
    (mapAsync w user position q page 0 items)
    (mapAsync w' user position q page 0 items).
Proof.
  intros st st' Hst. rewrite !mapAsync_launched. simpl.
  split; [easy | now apply launched_alike].
Qed.

Lemma pageBody_alike page :
  Alike eq (pageBody w user position q page) (pageBody w' user position q page).
Proof.
  unfold pageBody, w'.
  cbn [extractionReply vacanciesReply withNegotiationReply].
  apply Alike_bind with (RA := eq); [apply Alike_call | intros responseText ? <-].
  apply Alike_bind with (RA := eq); [apply Alike_settled | intros responseJson ? <-].
  apply Alike_bind with (RA := eq);
    [apply Alike_settled | intros extractPosition ? <-].
  apply Alike_bind with (RA := eq); [apply Alike_log | intros _ _ _].
  apply Alike_bind with (RA := eq);
    [apply Alike_getVacancy | intros vacanciesPage ? <-].
  apply Alike_bind with (RA := eq); [apply Alike_settled | intros items ? <-].
  destruct (List.length items =? 0)%nat; [alike|].
  apply Alike_bind with (RA := Forall2 alikePending);
    [apply mapAsync_alike | intros promises promises' Hp].
  apply Alike_bind with (RA := eq);
    [apply allSettled_alike, inOrderOfSettling_alike, Hp | intros _ _ _].
  apply Alike_bind with (RA := eq);
    [apply Alike_gets; now intros st st' (_ & Hn) | intros processed ? <-].
  destruct (processed >=? q); alike.
Qed.

Lemma pageLoop_alike pages :
  Alike eq (pageLoop w user position q pages) (pageLoop w' user position q pages).
Proof.
  induction pages as [|page rest IH]; simpl; [alike|].
  apply Alike_bind with (RA := eq);
    [|intros flow ? <-; destruct flow; [apply IH | alike]].
  apply Alike_tryCatch; [apply pageBody_alike | alike].
Qed.

Lemma pageLoop_sameDocs pages :
  vacancyDocs (fst (pageLoop w user position q pages emptyStore))
  = vacancyDocs (fst (pageLoop w' user position q pages emptyStore)).
Proof. now apply pageLoop_alike. Qed.

End TwoWorlds.

Lemma criterionRun_docs w user position q :
  vacancyDocs (run (criterionRun w user position q))
  = vacancyDocs (fst (pageLoop w user position q (seq 1 6) emptyStore)).
Proof.
  unfold run, criterionRun. remember (seq 1 6) as pages.
  unfold bind at 1.
  destruct (pageLoop w user position q pages emptyStore) as [st [flow|]];
    [|reflexivity].
  unfold bind, gets.
  destruct (0 <? List.length (vacancyDocs st))%nat; [|reflexivity].
  unfold tryCatch, bind, call, log, settled, emit.
  now destruct (insertManyReply w).
Qed.

Lemma processVacancies_sameDocs w replies user position :
  vacancyDocs (run (processVacancies (withNegotiationReply replies w) user position))
  = vacancyDocs (run (processVacancies w user position)).
Proof.
  unfold processVacancies.
  destruct (User.positions user) as [positions|]; [|reflexivity].
  rewrite !criterionRun_docs. symmetry. apply pageLoop_sameDocs.
Qed.

Lemma committed_accumulated w user position :
  committed (trace (run (processVacancies w user position)))
  = vacancyDocs (run (processVacancies w user position)).
Proof.
  now destruct (processVacancies_shape w user position (fun _ => True))
    as (_ & _ & Hcommitted & _).
Qed.

(** C10: for a user with a linked account, a posting that is new and
    suitable and whose resume steps succeed yields a record also when the
    generator gives no content: the callback calls [sendNegotiation] with
    [null] as its message, so that the form that is posted has no message,
    and pushes the record with a [null] letter. *)
Theorem linked_account_null_letter w user position page i vacancy
    j verdict detail download pdf url pdfContent :
  User.hasHHAccount user = true ->
  findOneReply w page i = Resolved false ->
  suitableReply w page i = Resolved (ParsesTo j) ->
  getProp j "isSuitable" = Resolved verdict ->
  truthy verdict = true ->
  resumeReply w page i = Resolved detail ->
  getProp detail "download" = Resolved download ->
  getProp download "pdf" = Resolved pdf ->
  getProp pdf "url" = Resolved url ->
  pdfReply w page i = Resolved pdfContent ->
  noContent (coverLetterReply w page i) = true ->
  forall st,
    (exists st1,
        resumed w user position page i vacancy st
        = push (vacancyDoc user vacancy None)
            (fst (HHService.sendNegotiation (Vacancy.id vacancy)
                    (resumeIdOf (suitableResumeReply w page i)) None
                    (User.hhAccessToken user) (negotiationReply w page i) st1)))
    /\ vacancyDocs (fst (resumed w user position page i vacancy st))
       = vacancyDocs st ++ [vacancyDoc user vacancy None]
    /\ Doc.cover_letter (vacancyDoc user vacancy None) = None
    /\ processedVacancies (fst (resumed w user position page i vacancy st))
       = processedVacancies st + 1
    /\ In (Call (PostNegotiation
                   [("vacancy_id", JStr (Vacancy.id vacancy));
                    ("resume_id", resumeIdOf (suitableResumeReply w page i))]
                   (User.hhAccessToken user)))
         (trace (fst (resumed w user position page i vacancy st))).
Proof.
  intros Hhh Hfound Hsuitable Hverdict Htruthy Hresume Hdownload Hpdf Hurl
    Hcontent Hnone st.
  assert (Hletter : letterOf (coverLetterReply w page i) = None).
  { now destruct (coverLetterReply w page i) as [[letter|]|]. }
  destruct (resumed_linked w user position page i vacancy j verdict detail
              download pdf url pdfContent st) as (events & Hrun); try easy.
  rewrite Hletter in Hrun. split; [now exists (logged st events)|].
  rewrite Hrun, sendNegotiation_run. simpl.
  repeat split; try easy.
  rewrite !in_app_iff. simpl. tauto.
Qed.

Lemma linked_account_null_letter_witness :
  noContent (coverLetterReply Sample.generatorSilent 1 0) = true
  /\ vacancyDocs
       (fst (resumed Sample.generatorSilent (Sample.userOf 3 0 true) Sample.dev
               1 0 (Sample.posting "101" "Python developer" "Kaspi") emptyStore))
     = [vacancyDoc (Sample.userOf 3 0 true)
          (Sample.posting "101" "Python developer" "Kaspi") None].
Proof.
  split; [reflexivity|].
  apply (linked_account_null_letter Sample.generatorSilent
           (Sample.userOf 3 0 true) Sample.dev 1 0
           (Sample.posting "101" "Python developer" "Kaspi")
           (JObj [("isSuitable", JBool true); ("reason", JStr "match")])
           (JBool true) Sample.resume
           (JObj [("pdf", JObj [("url", JStr "https://hh.ru/r1.pdf")])])
           (JObj [("url", JStr "https://hh.ru/r1.pdf")])
           (JStr "https://hh.ru/r1.pdf") "resume text"
           eq_refl eq_refl eq_refl eq_refl eq_refl eq_refl eq_refl eq_refl
           eq_refl eq_refl eq_refl emptyStore).
Defined.

(** ** Quota and duplicates within one page *)

(** C3 (the code departs from the claim): a user with eight criteria has
    quota 2; when the first page holds three new suitable postings, the run
    accumulates and commits three records. *)
Theorem quota_exceeded_within_page :
  getApplicationsPerPosition 8 = 2
  /\ processedVacancies
       (run (processVacancies Sample.threeOnPageOne (Sample.userOf 8 0 false)
               Sample.dev))
     = 3
  /\ map Doc.vacancy_id
       (committed
          (trace (run (processVacancies Sample.threeOnPageOne
                         (Sample.userOf 8 0 false) Sample.dev))))
     = ["101"; "102"; "103"].
Proof. vm_compute. repeat split. Qed.

(** C4 (the code departs from the claim): two postings of one page with the
    same title and the same employer both yield a record in one run. *)
Theorem twins_of_one_page_both_recorded :
  map (fun doc => (Doc.vacancy_id doc, Doc.job_name doc, Doc.employer_name doc))
    (committed
       (trace (run (processVacancies
                      (Sample.friendly (Sample.firstPageOnly Sample.twins))
                      (Sample.userOf 3 0 false) Sample.dev))))
  = [("201", "Python developer", "Kaspi"); ("202", "Python developer", "Kaspi")].
Proof. vm_compute. reflexivity. Qed.

(** What the code does for duplicates: the callback of a posting returns at
    once when a record accumulated so far has its identifier or its title,
    and it pushes nothing when the store has a record of the user with its
    title. *)
Lemma alreadyInVacancyDocs_spec docs vacancy :
  alreadyInVacancyDocs docs vacancy = true
  <-> exists doc,
        In doc docs
        /\ (Doc.vacancy_id doc = Vacancy.id vacancy
            \/ (Doc.job_name doc = Vacancy.name vacancy
                /\ Doc.employer_name doc = Vacancy.employer_name vacancy)
            \/ Doc.job_name doc = Vacancy.name vacancy).
Proof.
  unfold alreadyInVacancyDocs. rewrite existsb_exists.
  split; intros (doc & Hin & Hdoc); exists doc; (split; [easy|]).
  - rewrite !orb_true_iff, andb_true_iff, !String.eqb_eq in Hdoc. tauto.
  - rewrite !orb_true_iff, andb_true_iff, !String.eqb_eq. tauto.
Qed.

Lemma callback_skips_accumulated w user position q page i vacancy st :
  alreadyInVacancyDocs (vacancyDocs st) vacancy = true ->
  callback w user position q page i vacancy st = (st, Resolved None).
Proof.
  intros Hdup. unfold callback, bind, gets, ret.
  destruct (processedVacancies st >=? q); [reflexivity|]. now rewrite Hdup.
Qed.

Lemma resumed_skips_stored w user position page i vacancy st :
  findOneReply w page i = Resolved true ->
  resumed w user position page i vacancy st
  = (logged st [Call (FindOne (User.id user) (Vacancy.name vacancy))],
     Resolved tt).
Proof.
  intros Hfound. unfold resumed, bind, call, settled, emit, logged, ret.
  now rewrite Hfound.
Qed.

(** ** The quota of a run *)

(** The claim C2 as it is worded fails: a user with one active and seven
    paused criteria gets quota 2, not 7. *)
Lemma quota_not_from_active_criteria :
  User.positions (Sample.userOf 1 7 false)
  = Some (repeat Sample.dev 1 ++ repeat (Sample.criterion "QA engineer" "Paused") 7)
  /\ quotaFromActiveCriteria
       (repeat Sample.dev 1 ++ repeat (Sample.criterion "QA engineer" "Paused") 7)
     = 7
  /\ List.length
       (committed
          (trace (run (processVacancies (Sample.friendly Sample.onePerPage)
                         (Sample.userOf 1 7 false) Sample.dev))))
     = 2%nat
  /\ List.length
       (committed
          (trace (run (criterionRun (Sample.friendly Sample.onePerPage)
                         (Sample.userOf 1 7 false) Sample.dev
                         (quotaFromActiveCriteria
                            (repeat Sample.dev 1
                             ++ repeat (Sample.criterion "QA engineer" "Paused") 7))))))
     = 6%nat
  /\ run (processVacancies (Sample.friendly Sample.onePerPage)
            (Sample.userOf 1 7 false) Sample.dev)
     <> run (criterionRun (Sample.friendly Sample.onePerPage)
               (Sample.userOf 1 7 false) Sample.dev
               (quotaFromActiveCriteria
                  (repeat Sample.dev 1
                   ++ repeat (Sample.criterion "QA engineer" "Paused") 7))).
Proof.
  repeat split; try (vm_compute; reflexivity).
  intros Hsame.
  apply (f_equal (fun st => List.length (vacancyDocs st))) in Hsame.
  vm_compute in Hsame. discriminate Hsame.
Qed.

Lemma positionPromises_nth worlds user positions : forall k j criterion,
  nth_error positions j = Some criterion ->
  nth_error (positionPromises worlds user k positions) j
  = Some (if isActive criterion
          then Some (run (processVacancies (worlds (k + j)%nat) user criterion))
          else None).
Proof.
  induction positions as [|p rest IH]; intros k j criterion Hnth.
  - now destruct j.
  - destruct j as [|j]; simpl in *.
    + injection Hnth as ->. now rewrite Nat.add_0_r.
    + rewrite (IH (S k) j criterion Hnth). now rewrite Nat.add_succ_r.
Qed.

(** C2, amended: the quota of a run is computed from the number of all the
    criteria of the user ([user.positions.length]), whatever their status:
    criteria of another status in the same number give the same run.  The
    status decides only whether the criterion is run at all. *)
Theorem quota_from_all_criteria w user position positions :
  User.positions user = Some positions ->
  processVacancies w user position
  = criterionRun w user position
      (getApplicationsPerPosition (Z.of_nat (List.length positions)))
  /\ (forall positions',
         List.length positions' = List.length positions ->
         processVacancies w (withPositions (Some positions') user) position
         = processVacancies w user position)
  /\ (forall worlds j criterion,
         nth_error positions j = Some criterion ->
         nth_error (positionPromises worlds user 0 positions) j
         = Some (if isActive criterion
                 then Some (run (processVacancies (worlds j) user criterion))
                 else None)).
Proof.
  intros Hpositions. split; [|split].
  - unfold processVacancies. now rewrite Hpositions.
  - intros positions' Hlength. unfold processVacancies.
    rewrite Hpositions. cbn [User.positions withPositions].
    rewrite Hlength. reflexivity.
  - intros worlds j criterion Hnth.
    now rewrite (positionPromises_nth worlds user positions 0 j criterion Hnth).
Qed.

Lemma quota_from_all_criteria_witness :
  User.positions (Sample.userOf 1 7 false)
  = Some (repeat Sample.dev 1 ++ repeat (Sample.criterion "QA engineer" "Paused") 7)
  /\ processVacancies (Sample.friendly Sample.onePerPage)
       (Sample.userOf 1 7 false) Sample.dev
     = criterionRun (Sample.friendly Sample.onePerPage)
         (Sample.userOf 1 7 false) Sample.dev 2.
Proof.
  split; [reflexivity|].
  destruct (quota_from_all_criteria (Sample.friendly Sample.onePerPage)
              (Sample.userOf 1 7 false) Sample.dev
              (repeat Sample.dev 1
               ++ repeat (Sample.criterion "QA engineer" "Paused") 7)
              eq_refl) as (Hquota & _).
  exact Hquota.
Defined.

(** ** The page loop: extraction, cap, empty pages, early stop *)

(** The claim C8 as it is worded fails: the extraction fails on page 1, and
    the run goes on, asks for the extraction a second time, fetches page 2
    and commits its two records. *)
Lemma extraction_failure_does_not_abort :
  extractionFails (extractionReply Sample.extractionFailsOnce 1) = true
  /\ fetchedPages
       (trace (run (processVacancies Sample.extractionFailsOnce
                      (Sample.userOf 8 0 false) Sample.dev)))
     = [2%nat]
  /\ extractions
       (trace (run (processVacancies Sample.extractionFailsOnce
                      (Sample.userOf 8 0 false) Sample.dev)))
     = 2%nat
  /\ map Doc.vacancy_id
       (committed
          (trace (run (processVacancies Sample.extractionFailsOnce
                         (Sample.userOf 8 0 false) Sample.dev))))
     = ["102"; "103"].
Proof. vm_compute. repeat split. Qed.

Lemma iteration_extraction_fails w user position q page rest st :
  extractionFails (extractionReply w page) = true ->
  pageLoop w user position q (page :: rest) st
  = pageLoop w user position q rest
      (logged st
         [Call (ChatExtract (Position.position position)); Log (ErrorPage page)]).
Proof.
  intros Hfails. simpl. unfold bind at 1, tryCatch.
  rewrite pageBody_extraction_fails by easy.
  unfold bind, log, ret. now rewrite emit_logged, logged_logged.
Qed.

(** C8, amended: when the extraction fails in the turn of a page, that page
    is skipped (nothing is fetched, no posting is evaluated), the failure is
    logged and the loop goes on with the pages that remain.  The extraction
    is asked for once in every turn of the loop: as many times as there are
    pages when the loop is not left by [break], at most six times in a
    run. *)
Theorem extraction_failure_skips_page w user position q page rest st :
  extractionFails (extractionReply w page) = true ->
  pageLoop w user position q (page :: rest) st
  = pageLoop w user position q rest
      (logged st
         [Call (ChatExtract (Position.position position)); Log (ErrorPage page)])
  /\ (forall pages st0,
         exists docs events flow,
           pageLoop w user position q pages st0
           = (extend st0 docs events, Resolved flow)
           /\ (extractions events <= List.length pages)%nat
           /\ (flow = Next -> extractions events = List.length pages))
  /\ (extractions (trace (run (processVacancies w user position))) <= 6)%nat.
Proof.
  intros Hfails. split; [|split].
  - now apply iteration_extraction_fails.
  - intros pages st0.
    destruct (pageLoop_shape w user position q (fun _ => True)
                (fun _ _ _ _ _ _ => I) pages st0)
      as (docs & events & flow & Hrun & _ & Hle & Hnext & _).
    now exists docs, events, flow.
  - now destruct (processVacancies_shape w user position (fun _ => True))
      as (_ & _ & _ & _ & Hle).
Qed.

Lemma extraction_failure_skips_page_witness :
  extractionFails (extractionReply Sample.extractionFailsOnce 1) = true
  /\ pageLoop Sample.extractionFailsOnce (Sample.userOf 8 0 false) Sample.dev 2
       [1; 2]%nat emptyStore
     = pageLoop Sample.extractionFailsOnce (Sample.userOf 8 0 false) Sample.dev 2
         [2%nat]
         (logged emptyStore
            [Call (ChatExtract "Python developer"); Log (ErrorPage 1)]).
Proof.
  split; [reflexivity|].
  apply (extraction_failure_skips_page Sample.extractionFailsOnce
           (Sample.userOf 8 0 false) Sample.dev 2 1%nat [2%nat] emptyStore
           eq_refl).
Defined.

Lemma iteration_empty_page w user position q page rest st j extractPosition :
  extractionReply w page = Resolved (ParsesTo j) ->
  getProp j "position" = Resolved extractPosition ->
  vacanciesReply w page = Resolved {| VacanciesPage.items := Some [] |} ->
  pageLoop w user position q (page :: rest) st
  = pageLoop w user position q rest
      (logged st
         [Call (ChatExtract (Position.position position));
          Log (LogPosition extractPosition);
          Call (GetVacancies extractPosition page (User.only_with_salary user)
                  40 "publication_time")]).
Proof.
  intros Hreply Hposition Hempty. simpl. unfold bind at 1, tryCatch.
  rewrite (pageBody_extracted w user position q page st j extractPosition)
    by easy.
  now rewrite Hempty.
Qed.

Lemma iteration_evaluated w user position q page rest st j extractPosition
    vacancy items :
  extractionReply w page = Resolved (ParsesTo j) ->
  getProp j "position" = Resolved extractPosition ->
  vacanciesReply w page
  = Resolved {| VacanciesPage.items := Some (vacancy :: items) |} ->
  pageLoop w user position q (page :: rest) st
  = let st2 :=
      settledPage w user position q page (vacancy :: items)
        (logged st
           [Call (ChatExtract (Position.position position));
            Log (LogPosition extractPosition);
            Call (GetVacancies extractPosition page (User.only_with_salary user)
                    40 "publication_time")]) in
    if processedVacancies st2 >=? q then (st2, Resolved Break)
    else pageLoop w user position q rest st2.
Proof.
  intros Hreply Hposition Hitems. simpl. unfold bind at 1, tryCatch.
  rewrite (pageBody_extracted w user position q page st j extractPosition)
    by easy.
  rewrite Hitems. cbv zeta.
  now destruct (processedVacancies _ >=? q).
Qed.

Lemma iteration_fetch_fails w user position q page rest st j extractPosition :
  extractionReply w page = Resolved (ParsesTo j) ->
  getProp j "position" = Resolved extractPosition ->
  vacanciesReply w page = Rejected
  \/ vacanciesReply w page = Resolved {| VacanciesPage.items := None |} ->
  exists events,
    pageLoop w user position q (page :: rest) st
    = pageLoop w user position q rest (logged st events).
Proof.
  intros Hreply Hposition Hfails. simpl. unfold bind at 1, tryCatch.
  rewrite (pageBody_extracted w user position q page st j extractPosition)
    by easy.
  destruct Hfails as [-> | ->]; unfold bind at 1, log, ret;
    rewrite emit_logged, ?logged_logged; eexists; reflexivity.
Qed.

(** A loop that starts below the quota is left by [break] exactly when the
    count of records has reached the quota. *)
Lemma pageLoop_break_iff w user position q pages : forall st,
  processedVacancies st < q ->
  snd (pageLoop w user position q pages st) = Resolved Break
  <-> q <= processedVacancies (fst (pageLoop w user position q pages st)).
Proof.
  induction pages as [|page rest IH]; intros st Hbelow.
  - simpl. split; [discriminate | lia].
  - destruct (extractionFails (extractionReply w page)) eqn:Hfails.
    + rewrite iteration_extraction_fails by easy. now apply IH.
    + destruct (extraction_cases _ Hfails) as (j & extractPosition & Hreply & Hpos).
      destruct (vacanciesReply w page) as [[[[|vacancy items]|]]|] eqn:Hpage.
      * rewrite (iteration_empty_page w user position q page rest st j
                   extractPosition) by easy.
        now apply IH.
      * rewrite (iteration_evaluated w user position q page rest st j
                   extractPosition vacancy items) by easy.
        cbv zeta.
        destruct (Z.geb_spec
                    (processedVacancies
                       (settledPage w user position q page (vacancy :: items)
                          (logged st
                             [Call (ChatExtract (Position.position position));
                              Log (LogPosition extractPosition);
                              Call (GetVacancies extractPosition page
                                      (User.only_with_salary user) 40
                                      "publication_time")]))) q) as [Hge|Hlt].
        -- simpl. split; [lia | reflexivity].
        -- now apply IH.
      * destruct (iteration_fetch_fails w user position q page rest st j
                    extractPosition Hreply Hpos) as (events & ->);
          [now right | now apply IH].
      * destruct (iteration_fetch_fails w user position q page rest st j
                    extractPosition Hreply Hpos) as (events & ->);
          [now left | now apply IH].
Qed.

(** * Further properties *)

(** ** The turns of the loop, case by case *)

Section Turns.

Variable w : World.
Variable user : User.t.
Variable position : Position.t.
Variable q : Z.

(** A turn either leaves the records as they are and goes on, or evaluates
    the postings of a page that is not empty. *)
Lemma pageLoop_cases page rest st :
  (exists events,
      Forall (loopEvent user position page) events
      /\ pageLoop w user position q (page :: rest) st
         = pageLoop w user position q rest (logged st events))
  \/ (exists vacancy items events,
         Forall (loopEvent user position page) events
         /\ vacanciesReply w page
            = Resolved {| VacanciesPage.items := Some (vacancy :: items) |}
         /\ pageLoop w user position q (page :: rest) st
            = let st2 :=
                settledPage w user position q page (vacancy :: items)
                  (logged st events) in
              if processedVacancies st2 >=? q then (st2, Resolved Break)
              else pageLoop w user position q rest st2).
Proof.
  destruct (extractionFails (extractionReply w page)) eqn:Hfails.
  - left.
    exists [Call (ChatExtract (Position.position position)); Log (ErrorPage page)].
    split; [now repeat constructor|].
    now apply iteration_extraction_fails.
  - destruct (extraction_cases _ Hfails) as (j & extractPosition & Hreply & Hpos).
    pose proof (pageBody_extracted w user position q page st j extractPosition
                  Hreply Hpos) as Hbody.
    cbv zeta in Hbody.
    destruct (vacanciesReply w page) as [[[[|vacancy items]|]]|] eqn:Hpage.
    + left. eexists. split;
        [|apply (iteration_empty_page w user position q page rest st j
                   extractPosition Hreply Hpos Hpage)].
      now repeat constructor.
    + right. exists vacancy, items. eexists.
      split; [|split; [reflexivity|]].
      2: apply (iteration_evaluated w user position q page rest st j
                  extractPosition vacancy items Hreply Hpos Hpage).
      now repeat constructor.
    + left.
      exists [Call (ChatExtract (Position.position position));
              Log (LogPosition extractPosition);
              Call (GetVacancies extractPosition page
                      (User.only_with_salary user) 40 "publication_time");
              Log (ErrorPage page)].
      split; [now repeat constructor|].
      simpl. unfold bind at 1, tryCatch. rewrite Hbody.
      unfold bind, log, ret. now rewrite emit_logged, logged_logged.
    + left.
      exists [Call (ChatExtract (Position.position position));
              Log (LogPosition extractPosition);
              Call (GetVacancies extractPosition page
                      (User.only_with_salary user) 40 "publication_time");
              Log ErrorVacancies; Log (ErrorPage page)].
      split; [now repeat constructor|].
      simpl. unfold bind at 1, tryCatch. rewrite Hbody.
      unfold bind, log, ret. now rewrite emit_logged, !logged_logged.
Qed.

(** A relation between stores that the events of the loop and the callbacks
    of every page keep is kept by the loop. *)
Lemma pageLoop_keeps (R : Store -> Store -> Prop) pages :
  (forall st, R st st) ->
  (forall st1 st2 st3, R st1 st2 -> R st2 st3 -> R st1 st3) ->
  (forall page events st,
      In page pages -> Forall (loopEvent user position page) events ->
      R st (logged st events)) ->
  (forall page vacancy items st,
      In page pages ->
      vacanciesReply w page
      = Resolved {| VacanciesPage.items := Some (vacancy :: items) |} ->
      R st (settledPage w user position q page (vacancy :: items) st)) ->
  Keeps R (pageLoop w user position q pages).
Proof.
  intros R_refl R_trans Hlog Hpage.
  induction pages as [|page rest IH]; intros st; [apply R_refl|].
  assert (IH' : Keeps R (pageLoop w user position q rest)).
  { apply IH; intros; [eapply Hlog | eapply Hpage]; eauto using in_cons. }
  destruct (pageLoop_cases page rest st)
    as [(events & Hevents & ->)
       | (vacancy & items & events & Hevents & Hitems & ->)].
  - eapply R_trans; [apply (Hlog page events st); [now left | easy] | apply IH'].
  - cbv zeta.
    assert (Hstep : R st (settledPage w user position q page (vacancy :: items)
                            (logged st events))).
    { eapply R_trans; [apply (Hlog page events st); [now left | easy]|].
      apply Hpage; [now left | easy]. }
    destruct (processedVacancies _ >=? q); [exact Hstep|].
    eapply R_trans; [exact Hstep | apply IH'].
Qed.

(** The end of a run: the loop, then the events of the commit. *)
Lemma criterionRun_ends st :
  criterionRun w user position q st
  = (logged (fst (pageLoop w user position q (seq 1 6) st))
       (commitEvents w (fst (pageLoop w user position q (seq 1 6) st))),
     Resolved tt).
Proof.
  unfold criterionRun. remember (seq 1 6) as pages.
  destruct (pageLoop_shape w user position q (fun _ => True)
              (fun _ _ _ _ _ _ => I) pages st)
    as (docs & events & flow & Hloop & _).
  unfold bind at 1. rewrite Hloop. cbn [fst].
  remember (extend st docs events) as st1 eqn:Hst1. clear Hst1 Hloop.
  unfold bind, gets, commitEvents.
  destruct (vacancyDocs st1) as [|doc more] eqn:Hdocs.
  - reflexivity.
  - change (0 <? List.length (doc :: more))%nat with true. cbv iota.
    unfold tryCatch, call, bind, log, settled, emit, logged.
    cbn [vacancyDocs processedVacancies trace].
    destruct (insertManyReply w) as [[]|];
      cbn [vacancyDocs processedVacancies trace]; now rewrite <- app_assoc.
Qed.

End Turns.

(** ** What a run never lets out *)

(** X1: whatever the outside answers, a criterion run resolves: no rejection
    of a request and no exception of the run's own leaves
    [processVacancies]. *)
Theorem processVacancies_never_rejects w user position st :
  snd (processVacancies w user position st) = Resolved tt.
Proof.
  unfold processVacancies.
  destruct (User.positions user) as [positions|]; [|reflexivity].
  now rewrite criterionRun_ends.
Qed.

Lemma insertions_app e1 e2 : insertions (e1 ++ e2) = insertions e1 ++ insertions e2.
Proof. apply flat_map_app. Qed.

(** ** The callback of a posting, for any relation between stores *)

Section Callback.

Variable R : Store -> Store -> Prop.
Hypothesis R_refl : forall st, R st st.
Hypothesis R_trans : forall st1 st2 st3, R st1 st2 -> R st2 st3 -> R st1 st3.

Variable w : World.
Variable user : User.t.
Variable position : Position.t.
Variable vacancy : Vacancy.t.

Hypothesis R_helper : forall e,
  helperEvent user position vacancy e -> Keeps R (emit e).

Hypothesis R_submit :
  User.hasHHAccount user = true ->
  forall resumeId coverLetter reply,
    Keeps R
      (HHService.sendNegotiation (Vacancy.id vacancy) resumeId coverLetter
         (User.hhAccessToken user) reply ;;;
       push (vacancyDoc user vacancy coverLetter)).

Hypothesis R_push :
  User.hasHHAccount user = false ->
  forall coverLetter,
    truthyText coverLetter = true ->
    Keeps R (push (vacancyDoc user vacancy coverLetter)).

Ltac kept :=
  repeat first
    [ apply Keeps_ret; [apply R_refl]
    | apply Keeps_throw; [apply R_refl]
    | apply Keeps_settled; [apply R_refl]
    | apply R_helper; simpl; tauto
    | apply Keeps_call; [apply R_refl | apply R_trans | ]
    | apply Keeps_tryCatch; [apply R_trans | | ]
    | (apply Keeps_bind; [apply R_trans | | intros]) ].

Lemma resumed_keeps page i :
  Keeps R (resumed w user position page i vacancy).
Proof.
  unfold resumed.
  apply Keeps_bind; [apply R_trans | kept | intros found].
  destruct found; [kept|].
  apply Keeps_bind;
    [apply R_trans | unfold isSuitableVacancy, log; kept | intros isSuitable].
  destruct (negb (truthy isSuitable)); [kept|].
  destruct (User.hasHHAccount user) eqn:Hhh.
  - unfold HHService.getSuitableResumeId, HHService.getOneResume, log.
    apply Keeps_bind; [apply R_trans | kept | intros resumeId].
    apply Keeps_bind; [apply R_trans | kept | intros resumeDetail].
    apply Keeps_bind; [apply R_trans | kept | intros download].
    apply Keeps_bind; [apply R_trans | kept | intros pdf].
    apply Keeps_bind; [apply R_trans | kept | intros url].
    apply Keeps_bind; [apply R_trans | | intros pdfContent].
    { unfold loadPDF.
      destruct (User.hhAccessToken user =? "")%string eqn:Htoken;
        apply Keeps_call; try easy; apply R_helper; simpl;
        rewrite Hhh, Htoken; tauto. }
    apply Keeps_bind;
      [apply R_trans | unfold generateCoverLetter, log; kept | intros coverLetter].
    now apply R_submit.
  - apply Keeps_bind;
      [apply R_trans | unfold generateCoverLetter, log; kept | intros coverLetter].
    destruct (truthyText coverLetter) eqn:Hletter; simpl; [|kept].
    now apply R_push.
Qed.

End Callback.

(** ** Relations kept by the callbacks of a page and by a run *)

Lemma launched_all_in w user position q (P : M unit -> Prop) st page items :
  forall i,
    (forall j vacancy,
        In vacancy items ->
        alreadyInVacancyDocs (vacancyDocs st) vacancy = false ->
        processedVacancies st < q ->
        P (resumed w user position page j vacancy)) ->
    Forall P (map snd (launched w user position q st page i items)).
Proof.
  induction items as [|vacancy rest IH]; intros i HP; simpl; [constructor|].
  assert (Hrest : Forall P (map snd (launched w user position q st page (S i) rest))).
  { apply IH. intros j v Hin. apply HP. now right. }
  destruct (Z.geb_spec (processedVacancies st) q) as [Hge|Hlt]; [exact Hrest|].
  destruct (alreadyInVacancyDocs (vacancyDocs st) vacancy) eqn:Hdup;
    [exact Hrest|].
  simpl. constructor; [|exact Hrest].
  apply HP; [now left | easy | easy].
Qed.

Lemma settledPage_keeps_in w user position q (R : Store -> Store -> Prop)
    page items st :
  (forall st, R st st) ->
  (forall st1 st2 st3, R st1 st2 -> R st2 st3 -> R st1 st3) ->
  (forall i vacancy,
      In vacancy items ->
      alreadyInVacancyDocs (vacancyDocs st) vacancy = false ->
      processedVacancies st < q ->
      Keeps R (resumed w user position page i vacancy)) ->
  R st (settledPage w user position q page items st).
Proof.
  intros R_refl R_trans Hk. unfold settledPage.
  apply allSettled_keeps; [easy | easy |].
  eapply Permutation_Forall.
  - symmetry. apply inOrderOfSettling_perm.
  - now apply launched_all_in.
Qed.

Lemma Grows_logged Q (T : Event -> Prop) st events :
  Forall T events -> Grows Q T st (logged st events).
Proof.
  intros Hevents. exists [], events. now rewrite logged_extend.
Qed.

Lemma sendNegotiation_then_push_grows Q (T : Event -> Prop) user vacancy
    resumeId coverLetter reply :
  Q (vacancyDoc user vacancy coverLetter) ->
  (forall e, negotiationEvent user vacancy e -> T e) ->
  User.hasHHAccount user = true ->
  Keeps (Grows Q T)
    (HHService.sendNegotiation (Vacancy.id vacancy) resumeId coverLetter
       (User.hhAccessToken user) reply ;;;
     push (vacancyDoc user vacancy coverLetter)).
Proof.
  intros Hdoc HT Hhh st. unfold bind. rewrite sendNegotiation_run.
  match goal with
  | |- context [logged st ?events] =>
      exists [vacancyDoc user vacancy coverLetter], events
  end.
  split; [reflexivity|]. split; [now constructor|].
  destruct (truthyText coverLetter), reply;
    repeat constructor; apply HT; simpl; tauto.
Qed.

(** The page loop of a run appends only events of the run, and records
    built from postings of the pages. *)
Lemma pageLoop_events w user position q st :
  Grows
    (fun doc =>
       exists page vacancy coverLetter,
         onPage w page vacancy /\ doc = vacancyDoc user vacancy coverLetter)
    (pagesEvent w user position)
    st (fst (pageLoop w user position q (seq 1 6) st)).
Proof.
  apply pageLoop_keeps; [apply Grows_refl | apply Grows_trans | |].
  - intros page events st0 Hpage Hevents. apply Grows_logged.
    eapply Forall_impl; [|exact Hevents].
    intros e He. left. now exists page.
  - intros page vacancy items st0 Hpage Hitems.
    apply settledPage_keeps_in; [apply Grows_refl | apply Grows_trans |].
    intros i v Hin _ _.
    assert (Hon : onPage w page v) by (now exists (vacancy :: items)).
    apply resumed_keeps; [apply Grows_refl | apply Grows_trans | | |].
    + intros e He. apply Grows_emit. right. exists page, v. tauto.
    + intros Hhh resumeId coverLetter reply.
      apply sendNegotiation_then_push_grows; [| |easy].
      * now exists page, v, coverLetter.
      * intros e He. right. exists page, v. tauto.
    + intros _ coverLetter _. apply Grows_push.
      now exists page, v, coverLetter.
Qed.

Lemma pagesEvent_not_commit w user position e :
  pagesEvent w user position e -> ~ commitEvent e.
Proof.
  intros [(page & _ & He) | (page & vacancy & _ & _ & [He|He])] Hc;
    destruct e as [[]|[]]; simpl in *; tauto.
Qed.

Lemma no_commit_events events :
  Forall (fun e => ~ commitEvent e) events ->
  insertions events = [] /\ ~ In (Log NothingToInsert) events.
Proof.
  induction 1 as [|e rest He _ (IH & IHn)]; [now split|].
  split.
  - destruct e as [[]|]; simpl in *; try exact IH. now contradict He.
  - intros [->|Hin]; [now apply He | now apply IHn].
Qed.

Lemma run_count w user position positions :
  User.positions user = Some positions ->
  processedVacancies (run (processVacancies w user position))
  = Z.of_nat (List.length (vacancyDocs (run (processVacancies w user position)))).
Proof.
  intros Hpositions. unfold run, processVacancies.
  rewrite Hpositions, criterionRun_ends. cbn [fst].
  destruct (pageLoop_events w user position
              (getApplicationsPerPosition (Z.of_nat (List.length positions)))
              emptyStore) as (docs & events & -> & _).
  unfold logged, extend, emptyStore.
  cbn [vacancyDocs processedVacancies trace app]. lia.
Qed.

(** X2: a run keeps its count equal to the number of records it has
    accumulated; it calls [insertMany] once, with all of them, when there is
    at least one, and not at all when there is none, in which case (and in
    no other) it prints that there is nothing to insert. *)
Theorem run_commits_once w user position positions :
  User.positions user = Some positions ->
  let st := run (processVacancies w user position) in
  processedVacancies st = Z.of_nat (List.length (vacancyDocs st))
  /\ insertions (trace st)
     = match vacancyDocs st with
       | [] => []
       | _ :: _ => [vacancyDocs st]
       end
  /\ (In (Log NothingToInsert) (trace st) <-> vacancyDocs st = []).
Proof.
  intros Hpositions st. subst st. unfold run, processVacancies.
  rewrite Hpositions, criterionRun_ends. cbn [fst].
  destruct (pageLoop_events w user position
              (getApplicationsPerPosition (Z.of_nat (List.length positions)))
              emptyStore) as (docs & events & -> & _ & Hevents).
  assert (Hquiet : insertions events = [] /\ ~ In (Log NothingToInsert) events).
  { apply no_commit_events. eapply Forall_impl; [|exact Hevents].
    intros e. apply pagesEvent_not_commit. }
  destruct Hquiet as (Hnone & Hnot).
  unfold commitEvents, logged, extend, emptyStore.
  cbn [vacancyDocs processedVacancies trace app].
  split; [lia|].
  destruct docs as [|doc docs]; cbn [app];
    rewrite insertions_app, Hnone; (split; [reflexivity|]).
  - split; [reflexivity|]. intros _. apply in_or_app. right. now left.
  - split; [|discriminate].
    intros Hin. apply in_app_or in Hin as [Hin|Hin]; [now apply Hnot in Hin|].
    destruct Hin as [Hin|[Hin|[]]]; [discriminate|].
    now destruct (insertManyReply w).
Qed.

Lemma run_commits_once_witness :
  insertions
    (trace (run (processVacancies Sample.threeOnPageOne (Sample.userOf 3 0 false)
                   Sample.dev)))
  = [vacancyDocs
       (run (processVacancies Sample.threeOnPageOne (Sample.userOf 3 0 false)
               Sample.dev))].
Proof.
  destruct (run_commits_once Sample.threeOnPageOne (Sample.userOf 3 0 false)
              Sample.dev (repeat Sample.dev 3 ++ repeat (Sample.criterion "QA engineer" "Paused") 0)
              eq_refl) as (_ & Hins & _).
  exact Hins.
Defined.

Lemma run_events w user position :
  let st := run (processVacancies w user position) in
  Forall (runEvent w user position) (trace st)
  /\ Forall
       (fun doc =>
          exists page vacancy coverLetter,
            onPage w page vacancy /\ doc = vacancyDoc user vacancy coverLetter)
       (vacancyDocs st).
Proof.
  unfold run, processVacancies.
  destruct (User.positions user) as [positions|]; [|now split].
  rewrite criterionRun_ends. cbn [fst].
  destruct (pageLoop_events w user position
              (getApplicationsPerPosition (Z.of_nat (List.length positions)))
              emptyStore) as (docs & events & -> & Hdocs & Hevents).
  split; [|exact Hdocs].
  unfold logged, extend, emptyStore. cbn [trace vacancyDocs app].
  apply Forall_app. split.
  - eapply Forall_impl; [|exact Hevents]. intros e He. now left.
  - unfold commitEvents. cbn [vacancyDocs app].
    destruct docs, (insertManyReply w);
      repeat (apply Forall_cons; [right; exact I|]); apply Forall_nil.
Qed.

(** X3: the requests of a run are made for its user and for postings of the
    job board.  A negotiation is posted only for a user with a linked
    account, with the access token of the user, and for a posting that one
    of the pages 1 to 6 holds; a search asks for one of the pages 1 to 6, in
    area 40, by publication time, with the salary flag of the user; the
    store is asked about the user and about the title of a posting of the
    job board; every committed record is built from a posting of the job
    board and belongs to the user. *)
Theorem run_requests_for_user w user position :
  let events := trace (run (processVacancies w user position)) in
  (forall formData token,
      In (Call (PostNegotiation formData token)) events ->
      User.hasHHAccount user = true
      /\ token = User.hhAccessToken user
      /\ exists page vacancy,
           (1 <= page <= 6)%nat /\ onPage w page vacancy
           /\ assoc "vacancy_id" formData = JStr (Vacancy.id vacancy))
  /\ (forall text page only_with_salary area order_by,
         In (Call (GetVacancies text page only_with_salary area order_by)) events ->
         (1 <= page <= 6)%nat
         /\ only_with_salary = User.only_with_salary user
         /\ area = 40 /\ order_by = "publication_time")
  /\ (forall u job_name,
         In (Call (FindOne u job_name)) events ->
         u = User.id user
         /\ exists page vacancy,
              (1 <= page <= 6)%nat /\ onPage w page vacancy
              /\ job_name = Vacancy.name vacancy)
  /\ Forall
       (fun doc =>
          Doc.user doc = User._id user
          /\ exists page vacancy,
               onPage w page vacancy
               /\ Doc.vacancy_id doc = Vacancy.id vacancy
               /\ Doc.job_name doc = Vacancy.name vacancy
               /\ Doc.employer_name doc = Vacancy.employer_name vacancy)
       (committed events).
Proof.
  intros events. subst events.
  destruct (run_events w user position) as (Hevents & Hdocs).
  rewrite Forall_forall in Hevents.
  assert (Hrange : forall page, In page (seq 1 6) -> (1 <= page <= 6)%nat).
  { intros page Hin. apply in_seq in Hin. lia. }
  split; [|split; [|split]].
  - intros formData token Hin.
    destruct (Hevents _ Hin)
      as [[(page & _ & He) | (page & vacancy & Hpage & Hon & [He|He])] | He];
      simpl in He; try contradiction.
    destruct He as (Hhh & Htoken & Hid).
    split; [easy|]. split; [easy|]. exists page, vacancy. auto.
  - intros text page only_with_salary area order_by Hin.
    destruct (Hevents _ Hin)
      as [[(page' & Hpage & He) | (page' & vacancy & Hpage & Hon & [He|He])] | He];
      simpl in He; try contradiction.
    destruct He as (-> & Hflag & Harea & Horder). auto.
  - intros u job_name Hin.
    destruct (Hevents _ Hin)
      as [[(page & _ & He) | (page & vacancy & Hpage & Hon & [He|He])] | He];
      simpl in He; try contradiction.
    destruct He as (Hu & Hname). split; [easy|]. exists page, vacancy. auto.
  - rewrite committed_accumulated.
    eapply Forall_impl; [|exact Hdocs].
    intros doc (page & vacancy & coverLetter & Hon & ->).
    split; [reflexivity|]. now exists page, vacancy.
Qed.

Lemma run_requests_for_user_witness :
  In (Call (PostNegotiation
              [("vacancy_id", JStr "101"); ("resume_id", JStr "r1");
               ("message", JStr "Hello")] "token"))
    (trace (run (processVacancies Sample.threeOnPageOne (Sample.userOf 3 0 true)
                   Sample.dev)))
  /\ User.hasHHAccount (Sample.userOf 3 0 true) = true.
Proof.
  assert (Hin : In (Call (PostNegotiation
                            [("vacancy_id", JStr "101"); ("resume_id", JStr "r1");
                             ("message", JStr "Hello")] "token"))
                  (trace (run (processVacancies Sample.threeOnPageOne
                                 (Sample.userOf 3 0 true) Sample.dev)))).
  { vm_compute. tauto. }
  split; [exact Hin|].
  destruct (run_requests_for_user Sample.threeOnPageOne (Sample.userOf 3 0 true)
              Sample.dev) as (Hsubmit & _).
  apply (Hsubmit _ _ Hin).
Defined.

(** ** The records of a page *)

Lemma Subseq_refl {A} (l : list A) : Subseq l l.
Proof. induction l; now constructor. Qed.

Lemma Subseq_In {A} (l1 l2 : list A) x : Subseq l1 l2 -> In x l1 -> In x l2.
Proof.
  induction 1 as [|y l1 l2 _ IH|y l1 l2 _ IH]; simpl; [easy | auto |].
  intros [->|Hin]; auto.
Qed.

Lemma Subseq_NoDup {A} (l1 l2 : list A) : Subseq l1 l2 -> NoDup l2 -> NoDup l1.
Proof.
  induction 1 as [|y l1 l2 Hs IH|y l1 l2 Hs IH]; intros Hnodup; [easy | |];
    inversion Hnodup as [|? ? Hnotin Hrest]; subst; [now apply IH|].
  constructor; [|now apply IH].
  intros Hin. apply Hnotin. now apply (Subseq_In l1 l2).
Qed.

Lemma Subseq_map {A B} (f : A -> B) (l1 l2 : list A) :
  Subseq l1 l2 -> Subseq (map f l1) (map f l2).
Proof. induction 1; simpl; now constructor. Qed.

Lemma resumed_for w user position page i vacancy :
  PushesFor user [vacancy] (resumed w user position page i vacancy).
Proof.
  apply resumed_pushes.
  - exists []. split; [reflexivity | apply Subseq_nil_l].
  - intros coverLetter _. exists [(vacancy, coverLetter)].
    split; [reflexivity | apply Subseq_refl].
Qed.

Lemma launched_for w user position q st page items : forall i,
  Forall2 (fun k vacancy => PushesFor user [vacancy] k)
    (map snd (launched w user position q st page i items))
    (launchedVacancies q st items).
Proof.
  unfold launchedVacancies.
  induction items as [|vacancy rest IH]; intros i; simpl.
  - destruct (processedVacancies st >=? q); constructor.
  - specialize (IH (S i)).
    destruct (processedVacancies st >=? q); [exact IH|].
    destruct (alreadyInVacancyDocs (vacancyDocs st) vacancy); simpl; [exact IH|].
    constructor; [apply resumed_for | exact IH].
Qed.

Lemma allSettled_for user pending vacancies :
  Forall2 (fun k vacancy => PushesFor user [vacancy] k) pending vacancies ->
  exists pairs events,
    Subseq (map fst pairs) vacancies
    /\ forall st,
         allSettled pending st
         = (extend st (map (docOf user) pairs) events, Resolved tt).
Proof.
  induction 1 as [|k vacancy rest vacancies Hk _ IH].
  - exists [], []. split; [constructor|]. intros st. simpl. unfold ret.
    now rewrite extend_nil.
  - destruct Hk as (docs & events & o & (pairs & -> & Hsub) & Hrun).
    destruct IH as (pairs' & events' & Hsub' & Hrest).
    exists (pairs ++ pairs'), (events ++ events').
    split.
    + rewrite map_app. apply (Subseq_app _ _ [vacancy] vacancies); easy.
    + intros st. simpl. unfold bind, tryCatch, ret. rewrite Hrun.
      destruct o as [[]|]; rewrite Hrest, extend_extend, map_app; reflexivity.
Qed.

(** The callbacks of a page append the records of some of the postings that
    were launched, each at most once. *)
Lemma settledPage_docs w user position q page items st :
  exists pairs events vacancies,
    Permutation (launchedVacancies q st items) vacancies
    /\ Subseq (map fst pairs) vacancies
    /\ settledPage w user position q page items st
       = extend st (map (docOf user) pairs) events.
Proof.
  unfold settledPage.
  destruct (Permutation_Forall2
              (Permutation_sym
                 (inOrderOfSettling_perm
                    (launched w user position q st page 0 items)))
              (launched_for w user position q st page items 0))
    as (vacancies & Hperm & Hall).
  destruct (allSettled_for user _ _ Hall) as (pairs & events & Hsub & Hrun).
  exists pairs, events, vacancies. now rewrite Hrun.
Qed.

Lemma launchedVacancies_incl q st items vacancy :
  In vacancy (launchedVacancies q st items) ->
  In vacancy items
  /\ alreadyInVacancyDocs (vacancyDocs st) vacancy = false
  /\ processedVacancies st < q.
Proof.
  unfold launchedVacancies.
  destruct (Z.geb_spec (processedVacancies st) q) as [Hge|Hlt]; [easy|].
  rewrite filter_In, negb_true_iff. tauto.
Qed.

Lemma launchedVacancies_length q st items :
  (List.length (launchedVacancies q st items) <= List.length items)%nat.
Proof.
  unfold launchedVacancies.
  destruct (processedVacancies st >=? q); [simpl; lia | apply filter_length_le].
Qed.

Lemma settledPage_count w user position q page items st :
  processedVacancies st
  <= processedVacancies (settledPage w user position q page items st)
  <= processedVacancies st + Z.of_nat (List.length items).
Proof.
  destruct (settledPage_docs w user position q page items st)
    as (pairs & events & vacancies & Hperm & Hsub & ->).
  simpl. rewrite length_map.
  apply Subseq_length in Hsub. rewrite length_map in Hsub.
  apply Permutation_length in Hperm.
  pose proof (launchedVacancies_length q st items). lia.
Qed.

(** ** How far a run can pass its quota *)

Lemma pageLoop_bound w user position q n pages :
  (forall page vacancy items,
      In page pages ->
      vacanciesReply w page
      = Resolved {| VacanciesPage.items := Some (vacancy :: items) |} ->
      (List.length (vacancy :: items) <= n)%nat) ->
  forall st,
    processedVacancies st < q ->
    processedVacancies (fst (pageLoop w user position q pages st))
    <= q - 1 + Z.of_nat n.
Proof.
  induction pages as [|page rest IH]; intros Hsize st Hbelow; [simpl; lia|].
  assert (IH' : forall st0,
             processedVacancies st0 < q ->
             processedVacancies (fst (pageLoop w user position q rest st0))
             <= q - 1 + Z.of_nat n).
  { apply IH. intros p v l Hin. apply Hsize. now right. }
  destruct (pageLoop_cases w user position q page rest st)
    as [(events & _ & ->)
       | (vacancy & items & events & _ & Hitems & ->)].
  - now apply IH'.
  - cbv zeta.
    pose proof (settledPage_count w user position q page (vacancy :: items)
                  (logged st events)) as Hcount.
    pose proof (Hsize page vacancy items (or_introl eq_refl) Hitems) as Hn.
    cbn [processedVacancies logged] in Hcount.
    destruct (Z.geb_spec
                (processedVacancies
                   (settledPage w user position q page (vacancy :: items)
                      (logged st events))) q) as [Hge|Hlt].
    + cbn [fst]. lia.
    + now apply IH'.
Qed.

(** X4: when no page of the job board holds more than [n] postings, a run
    commits at most [quota - 1 + n] records: the quota is passed only on
    the page on which it is reached, and by less than the size of that
    page. *)
Theorem overshoot_bounded_by_page_size w user position positions n :
  User.positions user = Some positions ->
  (forall page items,
      (1 <= page <= 6)%nat ->
      vacanciesReply w page = Resolved {| VacanciesPage.items := Some items |} ->
      (List.length items <= n)%nat) ->
  Z.of_nat
    (List.length (committed (trace (run (processVacancies w user position)))))
  <= getApplicationsPerPosition (Z.of_nat (List.length positions)) - 1
     + Z.of_nat n.
Proof.
  intros Hpositions Hsize.
  rewrite committed_accumulated, <- (run_count w user position positions Hpositions).
  unfold run, processVacancies. rewrite Hpositions, criterionRun_ends.
  cbn [fst logged processedVacancies].
  apply pageLoop_bound.
  - intros page vacancy items Hin. apply Hsize. apply in_seq in Hin. lia.
  - apply getApplicationsPerPosition_pos.
Qed.

Lemma overshoot_bounded_by_page_size_witness :
  Z.of_nat
    (List.length
       (committed
          (trace (run (processVacancies Sample.threeOnPageOne
                         (Sample.userOf 8 0 false) Sample.dev)))))
  <= 2 - 1 + 3.
Proof.
  apply (overshoot_bounded_by_page_size Sample.threeOnPageOne
           (Sample.userOf 8 0 false) Sample.dev
           (repeat Sample.dev 8 ++ repeat (Sample.criterion "QA engineer" "Paused") 0)
           3 eq_refl).
  intros page items _.
  destruct page as [|[|page]]; intros Hpage; injection Hpage as <-;
    simpl; lia.
Defined.

(** ** Duplicates across pages *)

Section Keys.

Variable w : World.
Variable user : User.t.
Variable position : Position.t.
Variable q : Z.

(** A key of postings and the key of records that goes with it: the
    identifier, or the title. *)
Variable keyOfVacancy : Vacancy.t -> string.
Variable keyOfDoc : Doc.t -> string.

Hypothesis key_built : forall vacancy coverLetter,
  keyOfDoc (vacancyDoc user vacancy coverLetter) = keyOfVacancy vacancy.

Hypothesis key_tested : forall docs vacancy doc,
  alreadyInVacancyDocs docs vacancy = false -> In doc docs ->
  keyOfDoc doc <> keyOfVacancy vacancy.

Lemma settledPage_distinct page items st :
  NoDup (map keyOfVacancy items) ->
  NoDup (map keyOfDoc (vacancyDocs st)) ->
  NoDup (map keyOfDoc
           (vacancyDocs (settledPage w user position q page items st))).
Proof.
  intros Hitems Hold.
  destruct (settledPage_docs w user position q page items st)
    as (pairs & events & vacancies & Hperm & Hsub & ->).
  cbn [vacancyDocs extend]. rewrite map_app.
  assert (Hkeys : map keyOfDoc (map (docOf user) pairs)
                  = map keyOfVacancy (map fst pairs)).
  { rewrite !map_map. apply map_ext. intros [vacancy coverLetter].
    apply key_built. }
  rewrite Hkeys. apply NoDup_app; [exact Hold | |].
  - apply (Subseq_NoDup _ (map keyOfVacancy vacancies));
      [now apply Subseq_map|].
    apply (Permutation_NoDup (Permutation_map keyOfVacancy Hperm)).
    unfold launchedVacancies.
    destruct (processedVacancies st >=? q); [constructor|].
    clear -Hitems. induction items as [|v rest IH]; simpl; [constructor|].
    inversion Hitems as [|? ? Hnotin Hrest]; subst.
    destruct (negb (alreadyInVacancyDocs (vacancyDocs st) v)); simpl; [|auto].
    constructor; [|auto].
    intros Hin. apply Hnotin. apply in_map_iff in Hin as (v' & Hkey & Hin).
    apply filter_In in Hin as (Hin & _). apply in_map_iff. now exists v'.
  - intros key Hin_old Hin_new.
    apply in_map_iff in Hin_old as (doc & Hdoc & Hin_doc).
    apply in_map_iff in Hin_new as (vacancy & Hvacancy & Hin_vacancy).
    apply (Subseq_In _ _ _ Hsub) in Hin_vacancy.
    apply (Permutation_in _ (Permutation_sym Hperm)) in Hin_vacancy.
    apply launchedVacancies_incl in Hin_vacancy as (_ & Hnew & _).
    apply (key_tested _ _ _ Hnew Hin_doc). congruence.
Qed.

Lemma pageLoop_distinct pages st :
  (forall page items,
      In page pages ->
      vacanciesReply w page = Resolved {| VacanciesPage.items := Some items |} ->
      NoDup (map keyOfVacancy items)) ->
  NoDup (map keyOfDoc (vacancyDocs st)) ->
  NoDup (map keyOfDoc
           (vacancyDocs (fst (pageLoop w user position q pages st)))).
Proof.
  intros Hpages.
  apply (pageLoop_keeps w user position q
           (fun st st' =>
              NoDup (map keyOfDoc (vacancyDocs st)) ->
              NoDup (map keyOfDoc (vacancyDocs st')))); auto.
  intros page vacancy items st0 Hin Hitems.
  apply settledPage_distinct. now apply (Hpages page).
Qed.

End Keys.

(** X5: the test for duplicates works across pages.  When the postings of
    each page of the job board have pairwise distinct titles, the records
    that a run commits have pairwise distinct titles; when they have
    pairwise distinct identifiers, so do the records. *)
Theorem distinct_within_pages_distinct_in_run w user position :
  ((forall page items,
       (1 <= page <= 6)%nat ->
       vacanciesReply w page = Resolved {| VacanciesPage.items := Some items |} ->
       NoDup (map Vacancy.name items)) ->
   NoDup (map Doc.job_name
            (committed (trace (run (processVacancies w user position))))))
  /\ ((forall page items,
          (1 <= page <= 6)%nat ->
          vacanciesReply w page = Resolved {| VacanciesPage.items := Some items |} ->
          NoDup (map Vacancy.id items)) ->
      NoDup (map Doc.vacancy_id
               (committed (trace (run (processVacancies w user position)))))).
Proof.
  rewrite committed_accumulated. unfold run, processVacancies.
  destruct (User.positions user) as [positions|];
    [|split; intros _; constructor].
  rewrite criterionRun_ends. cbn [fst logged vacancyDocs].
  split; intros Hpages.
  - apply (pageLoop_distinct w user position _ Vacancy.name Doc.job_name).
    + reflexivity.
    + intros docs vacancy doc Hnew Hin Hsame.
      assert (Hdup : alreadyInVacancyDocs docs vacancy = true).
      { apply alreadyInVacancyDocs_spec. exists doc. tauto. }
      congruence.
    + intros page items Hin. apply Hpages. apply in_seq in Hin. lia.
    + constructor.
  - apply (pageLoop_distinct w user position _ Vacancy.id Doc.vacancy_id).
    + reflexivity.
    + intros docs vacancy doc Hnew Hin Hsame.
      assert (Hdup : alreadyInVacancyDocs docs vacancy = true).
      { apply alreadyInVacancyDocs_spec. exists doc. tauto. }
      congruence.
    + intros page items Hin. apply Hpages. apply in_seq in Hin. lia.
    + constructor.
Qed.

Lemma distinct_within_pages_distinct_in_run_witness :
  NoDup
    (map Doc.job_name
       (committed
          (trace (run (processVacancies (Sample.friendly Sample.onePerPage)
                         (Sample.userOf 3 0 false) Sample.dev))))).
Proof.
  apply (distinct_within_pages_distinct_in_run
           (Sample.friendly Sample.onePerPage) (Sample.userOf 3 0 false)
           Sample.dev).
  intros page items _ Hpage.
  destruct page as [|[|[|[|[|[|page]]]]]]; injection Hpage as <-;
    repeat constructor; simpl; tauto.
Defined.

(** ** Replies that parse but lack what the program reads *)

Lemma isSuitableVacancy_parsed position vacancy j st :
  isSuitableVacancy position vacancy (Resolved (ParsesTo j)) st
  = match getProp j "isSuitable" with
    | Resolved verdict =>
        (logged st [Call (ChatSuitable position vacancy)], Resolved verdict)
    | Rejected =>
        (logged st [Call (ChatSuitable position vacancy); Log ErrorSuitable],
         Resolved (JBool false))
    end.
Proof.
  unfold isSuitableVacancy, tryCatch, bind, call, settled, log, ret, emit, logged.
  simpl. destruct (getProp j "isSuitable"); simpl; [reflexivity|].
  now rewrite <- app_assoc.
Qed.

Lemma bind_run {A B} (m : M A) (k : A -> M B) st :
  bind m k st
  = match m st with
    | (st', Resolved a) => k a st'
    | (st', Rejected) => (st', Rejected)
    end.
Proof. reflexivity. Qed.

Lemma call_run {A} (r : Request) (reply : Outcome A) st :
  call r reply st = (logged st [Call r], reply).
Proof. reflexivity. Qed.

Lemma generateCoverLetter_run user vacancy resume reply st :
  generateCoverLetter user vacancy resume reply st
  = (logged st
       (Call (ChatCoverLetter (User.firstName user) (User.lastName user)
                vacancy resume)
        :: match reply with
           | Resolved _ => []
           | Rejected => [Log ErrorCoverLetter]
           end),
     Resolved (letterOf reply)).
Proof.
  unfold generateCoverLetter, tryCatch, bind, call, settled, log, ret, emit,
    logged.
  destruct reply; simpl; [reflexivity|]. now rewrite <- app_assoc.
Qed.

(** X6: a reply of the classifier that parses but gives no truthy
    [isSuitable] (the key is missing, the value is [false], [null], 0 or
    the empty string, or the reply is not an object) counts as not suitable:
    the callback pushes nothing, asks for no letter and posts no
    negotiation. *)
Theorem classifier_without_verdict w user position page i vacancy j :
  suitableReply w page i = Resolved (ParsesTo j) ->
  (forall verdict,
      getProp j "isSuitable" = Resolved verdict -> truthy verdict = false) ->
  forall st,
    exists events,
      fst (resumed w user position page i vacancy st) = logged st events
      /\ Forall (fun e => ~ lateEvent e) events.
Proof.
  intros Hreply Hfalsy st. unfold resumed.
  rewrite bind_run, call_run.
  destruct (findOneReply w page i) as [[|]|].
  - eexists. split; [reflexivity|]. repeat constructor. simpl. tauto.
  - rewrite bind_run, Hreply, isSuitableVacancy_parsed.
    destruct (getProp j "isSuitable") as [verdict|] eqn:Hverdict.
    + rewrite (Hfalsy verdict eq_refl). cbn [negb fst ret].
      rewrite logged_logged.
      eexists. split; [reflexivity|]. repeat constructor; simpl; tauto.
    + cbn [truthy negb fst ret]. rewrite logged_logged.
      eexists. split; [reflexivity|]. repeat constructor; simpl; tauto.
  - eexists. split; [reflexivity|]. repeat constructor. simpl. tauto.
Qed.

Lemma classifier_without_verdict_witness :
  vacancyDocs
    (fst (resumed
            (withSuitableReply
               (fun _ _ => Resolved (ParsesTo (JObj [("reason", JStr "match")])))
               Sample.threeOnPageOne)
            (Sample.userOf 3 0 false) Sample.dev 1 0
            (Sample.posting "101" "Python developer" "Kaspi") emptyStore))
  = [].
Proof.
  destruct (classifier_without_verdict
              (withSuitableReply
                 (fun _ _ => Resolved (ParsesTo (JObj [("reason", JStr "match")])))
                 Sample.threeOnPageOne)
              (Sample.userOf 3 0 false) Sample.dev 1 0
              (Sample.posting "101" "Python developer" "Kaspi")
              (JObj [("reason", JStr "match")]) eq_refl)
    with (st := emptyStore) as (events & -> & _).
  - intros verdict Hverdict. injection Hverdict as <-. reflexivity.
  - reflexivity.
Defined.

(** X7: the way of a posting to a record for a user without a linked
    account.  When the posting is not stored yet, the verdict of the
    classifier is truthy and the generator returns a letter that is not
    empty, the callback asks the store, the classifier and the generator
    (with an empty resume), once each and nothing else, and pushes one
    record, that of the posting with this letter. *)
Theorem posting_recorded_without_account w user position page i vacancy
    j verdict letter :
  User.hasHHAccount user = false ->
  findOneReply w page i = Resolved false ->
  suitableReply w page i = Resolved (ParsesTo j) ->
  getProp j "isSuitable" = Resolved verdict ->
  truthy verdict = true ->
  coverLetterReply w page i = Resolved (Some letter) ->
  letter <> "" ->
  forall st,
    resumed w user position page i vacancy st
    = (extend st [vacancyDoc user vacancy (Some letter)]
         [Call (FindOne (User.id user) (Vacancy.name vacancy));
          Call (ChatSuitable (Position.position position) vacancy);
          Call (ChatCoverLetter (User.firstName user) (User.lastName user)
                  vacancy "")],
       Resolved tt).
Proof.
  intros Hhh Hfound Hreply Hverdict Htruthy Hletter Hnonempty st.
  unfold resumed.
  rewrite bind_run, call_run, Hfound.
  rewrite bind_run, Hreply, isSuitableVacancy_parsed, Hverdict.
  rewrite Htruthy, Hhh. change (negb true) with false. cbv iota.
  rewrite bind_run, generateCoverLetter_run, Hletter. cbn [letterOf].
  assert (Hnot : negb (truthyText (Some letter)) = false).
  { simpl. apply String.eqb_neq in Hnonempty. now rewrite Hnonempty. }
  rewrite Hnot, !logged_logged.
  unfold push, logged, extend. reflexivity.
Qed.

Lemma posting_recorded_without_account_witness :
  vacancyDocs
    (fst (resumed Sample.threeOnPageOne (Sample.userOf 3 0 false) Sample.dev 1 0
            (Sample.posting "101" "Python developer" "Kaspi") emptyStore))
  = [vacancyDoc (Sample.userOf 3 0 false)
       (Sample.posting "101" "Python developer" "Kaspi") (Some "Hello")].
Proof.
  rewrite (posting_recorded_without_account Sample.threeOnPageOne
             (Sample.userOf 3 0 false) Sample.dev 1 0
             (Sample.posting "101" "Python developer" "Kaspi")
             (JObj [("isSuitable", JBool true); ("reason", JStr "match")])
             (JBool true) "Hello" eq_refl eq_refl eq_refl eq_refl eq_refl eq_refl
             ltac:(discriminate) emptyStore).
  reflexivity.
Defined.

(** ** The callback of a posting for a user with a linked account, step by
       step *)

Lemma getSuitableResumeId_run vacancyId token reply st :
  HHService.getSuitableResumeId vacancyId token reply st
  = (logged st
       (Call (SuitableResume vacancyId token)
        :: match reply with
           | Resolved _ => []
           | Rejected => [Log ErrorResume]
           end),
     Resolved (resumeIdOf reply)).
Proof.
  unfold HHService.getSuitableResumeId, tryCatch, bind, call, settled, log, ret,
    emit, logged.
  destruct reply; simpl; [reflexivity|]. now rewrite <- app_assoc.
Qed.

Lemma loadPDF_run url token reply st :
  loadPDF url token reply st
  = (logged st
       [Call (LoadPDF url (if (token =? "")%string then None else Some token))],
     reply).
Proof. unfold loadPDF. now destruct (token =? "")%string. Qed.

Lemma pdfUrl_run {A} (resumeDetail : JsValue) (k : JsValue -> M A) st :
  (download <- settled (getProp resumeDetail "download") ;;
   pdf <- settled (getProp download "pdf") ;;
   url <- settled (getProp pdf "url") ;;
   k url) st
  = match pdfUrl resumeDetail with
    | Resolved url => k url st
    | Rejected => (st, Rejected)
    end.
Proof.
  unfold pdfUrl, bind, settled.
  destruct (getProp resumeDetail "download") as [download|]; [|reflexivity].
  destruct (getProp download "pdf") as [pdf|]; [|reflexivity].
  now destruct (getProp pdf "url").
Qed.

(** The callback of a new and suitable posting, up to the reading of the
    resume. *)
Lemma resumed_until_resume w user position page i vacancy j verdict st :
  User.hasHHAccount user = true ->
  findOneReply w page i = Resolved false ->
  suitableReply w page i = Resolved (ParsesTo j) ->
  getProp j "isSuitable" = Resolved verdict ->
  truthy verdict = true ->
  resumed w user position page i vacancy st
  = let st1 :=
      logged st
        ([Call (FindOne (User.id user) (Vacancy.name vacancy));
          Call (ChatSuitable (Position.position position) vacancy);
          Call (SuitableResume (Vacancy.id vacancy) (User.hhAccessToken user))]
         ++ match suitableResumeReply w page i with
            | Resolved _ => []
            | Rejected => [Log ErrorResume]
            end
         ++ [Call (GetResume (resumeIdOf (suitableResumeReply w page i))
                     (User.hhAccessToken user))]) in
    match resumeReply w page i with
    | Rejected => (st1, Rejected)
    | Resolved resumeDetail =>
        match pdfUrl resumeDetail with
        | Rejected => (st1, Rejected)
        | Resolved url =>
            let st2 :=
              logged st1
                [Call (LoadPDF url
                         (if (User.hhAccessToken user =? "")%string then None
                          else Some (User.hhAccessToken user)))] in
            match pdfReply w page i with
            | Rejected => (st2, Rejected)
            | Resolved pdfContent =>
                (coverLetter <-
                   generateCoverLetter user vacancy pdfContent
                     (coverLetterReply w page i) ;;
                 HHService.sendNegotiation (Vacancy.id vacancy)
                   (resumeIdOf (suitableResumeReply w page i)) coverLetter
                   (User.hhAccessToken user) (negotiationReply w page i) ;;;
                 push (vacancyDoc user vacancy coverLetter)) st2
            end
        end
    end.
Proof.
  intros Hhh Hfound Hreply Hverdict Htruthy. unfold resumed.
  rewrite bind_run, call_run, Hfound.
  rewrite bind_run, Hreply, isSuitableVacancy_parsed, Hverdict.
  rewrite Htruthy, Hhh. change (negb true) with false. cbv iota.
  rewrite bind_run, getSuitableResumeId_run.
  rewrite bind_run. unfold HHService.getOneResume. rewrite call_run.
  rewrite !logged_logged. cbv zeta.
  assert (Hevents :
            ([Call (FindOne (User.id user) (Vacancy.name vacancy))]
             ++ [Call (ChatSuitable (Position.position position) vacancy)])
            ++ (Call (SuitableResume (Vacancy.id vacancy) (User.hhAccessToken user))
                :: match suitableResumeReply w page i with
                   | Resolved _ => []
                   | Rejected => [Log ErrorResume]
                   end)
            ++ [Call (GetResume (resumeIdOf (suitableResumeReply w page i))
                        (User.hhAccessToken user))]
            = [Call (FindOne (User.id user) (Vacancy.name vacancy));
               Call (ChatSuitable (Position.position position) vacancy);
               Call (SuitableResume (Vacancy.id vacancy) (User.hhAccessToken user))]
              ++ match suitableResumeReply w page i with
                 | Resolved _ => []
                 | Rejected => [Log ErrorResume]
                 end
              ++ [Call (GetResume (resumeIdOf (suitableResumeReply w page i))
                          (User.hhAccessToken user))]).
  { reflexivity. }
  rewrite <- !app_assoc in *. rewrite Hevents.
  destruct (resumeReply w page i) as [resumeDetail|]; [|reflexivity].
  rewrite pdfUrl_run.
  destruct (pdfUrl resumeDetail) as [url|]; [|reflexivity].
  rewrite bind_run, loadPDF_run.
  now destruct (pdfReply w page i).
Qed.

Lemma resumed_unreadable w user position page i vacancy j verdict :
  User.hasHHAccount user = true ->
  findOneReply w page i = Resolved false ->
  suitableReply w page i = Resolved (ParsesTo j) ->
  getProp j "isSuitable" = Resolved verdict ->
  truthy verdict = true ->
  resumeReply w page i = Rejected
  \/ (exists resumeDetail,
         resumeReply w page i = Resolved resumeDetail
         /\ (pdfUrl resumeDetail = Rejected \/ pdfReply w page i = Rejected)) ->
  forall st,
    exists events,
      resumed w user position page i vacancy st = (logged st events, Rejected)
      /\ Forall (fun e => ~ lateEvent e) events.
Proof.
  intros Hhh Hfound Hreply Hverdict Htruthy Hunreadable st.
  rewrite (resumed_until_resume w user position page i vacancy j verdict st)
    by easy.
  cbv zeta.
  assert (Hhead :
            Forall (fun e => ~ lateEvent e)
              ([Call (FindOne (User.id user) (Vacancy.name vacancy));
                Call (ChatSuitable (Position.position position) vacancy);
                Call (SuitableResume (Vacancy.id vacancy) (User.hhAccessToken user))]
               ++ match suitableResumeReply w page i with
                  | Resolved _ => []
                  | Rejected => [Log ErrorResume]
                  end
               ++ [Call (GetResume (resumeIdOf (suitableResumeReply w page i))
                           (User.hhAccessToken user))])).
  { destruct (suitableResumeReply w page i); repeat constructor; simpl; tauto. }
  destruct Hunreadable as [-> | (resumeDetail & -> & Hlater)].
  - eexists. split; [reflexivity | exact Hhead].
  - destruct (pdfUrl resumeDetail) as [url|].
    + destruct Hlater as [Hurl | ->]; [discriminate|].
      rewrite logged_logged. eexists. split; [reflexivity|].
      apply Forall_app. split; [exact Hhead|].
      repeat constructor. simpl. tauto.
    + eexists. split; [reflexivity | exact Hhead].
Qed.

Lemma allSettled_after pending1 k pending2 st :
  allSettled (pending1 ++ k :: pending2) st
  = allSettled pending2 (fst (k (fst (allSettled pending1 st)))).
Proof.
  revert st. induction pending1 as [|k1 rest IH]; intros st.
  - cbn [app allSettled]. unfold bind, tryCatch, ret. cbn [fst].
    now destruct (k st) as [st1 [[]|]].
  - cbn [app allSettled]. unfold bind, tryCatch, ret.
    destruct (k1 st) as [st1 [[]|]]; apply IH.
Qed.

(** X8: for a user with a linked account, when the resume of a new and
    suitable posting cannot be read (the request for the resume rejects,
    the resume has no [download.pdf.url], or the loading of the PDF
    rejects), the callback rejects: it pushes no record, asks for no letter
    and posts no negotiation.  The rejection stays with the promise of the
    callback: wherever the callback stands among those of the page,
    [Promise.allSettled] goes on with the callbacks that settle after it,
    from the records that those before it have left; the [try] block of
    the page is not left by the exception; the run resolves. *)
Theorem resume_unreadable_no_submission w user position page i vacancy
    j verdict :
  User.hasHHAccount user = true ->
  findOneReply w page i = Resolved false ->
  suitableReply w page i = Resolved (ParsesTo j) ->
  getProp j "isSuitable" = Resolved verdict ->
  truthy verdict = true ->
  resumeReply w page i = Rejected
  \/ (exists resumeDetail,
         resumeReply w page i = Resolved resumeDetail
         /\ (pdfUrl resumeDetail = Rejected \/ pdfReply w page i = Rejected)) ->
  (forall st,
      exists events,
        resumed w user position page i vacancy st = (logged st events, Rejected)
        /\ Forall (fun e => ~ lateEvent e) events)
  /\ (forall earlier later st,
         exists events,
           allSettled
             (earlier ++ resumed w user position page i vacancy :: later) st
           = allSettled later (logged (fst (allSettled earlier st)) events)
           /\ Forall (fun e => ~ lateEvent e) events)
  /\ (forall q items st j' extractPosition,
         extractionReply w page = Resolved (ParsesTo j') ->
         getProp j' "position" = Resolved extractPosition ->
         vacanciesReply w page = Resolved {| VacanciesPage.items := Some items |} ->
         nth_error items i = Some vacancy ->
         let st2 :=
           settledPage w user position q page items
             (logged st
                [Call (ChatExtract (Position.position position));
                 Log (LogPosition extractPosition);
                 Call (GetVacancies extractPosition page
                         (User.only_with_salary user) 40 "publication_time")]) in
         tryCatch (pageBody w user position q page)
           (log (ErrorPage page) ;;; ret Next) st
         = (st2, Resolved (if processedVacancies st2 >=? q then Break else Next)))
  /\ (forall st, snd (processVacancies w user position st) = Resolved tt).
Proof.
  intros Hhh Hfound Hreply Hverdict Htruthy Hunreadable.
  pose proof (resumed_unreadable w user position page i vacancy j verdict
                Hhh Hfound Hreply Hverdict Htruthy Hunreadable) as Hrejects.
  split; [exact Hrejects|]. split; [|split].
  - intros earlier later st.
    destruct (Hrejects (fst (allSettled earlier st))) as (events & Hrun & Hevents).
    exists events. split; [|exact Hevents].
    now rewrite allSettled_after, Hrun.
  - intros q items st j' extractPosition Hextracted Hposition Hitems Hnth st2.
    subst st2. unfold tryCatch.
    rewrite (pageBody_extracted w user position q page st j' extractPosition
               Hextracted Hposition).
    cbv zeta. rewrite Hitems.
    destruct items as [|first rest]; [now destruct i|]. reflexivity.
  - intros st. unfold processVacancies.
    destruct (User.positions user) as [positions|]; [|reflexivity].
    now rewrite criterionRun_ends.
Qed.

Lemma resume_unreadable_no_submission_witness :
  exists events,
    allSettled
      [resumed firstResumeUnreadable (Sample.userOf 3 0 true) Sample.dev 1 0
         (Sample.posting "101" "Python developer" "Kaspi");
       resumed firstResumeUnreadable (Sample.userOf 3 0 true) Sample.dev 1 1
         (Sample.posting "102" "Backend developer" "Kolesa")]
      emptyStore
    = allSettled
        [resumed firstResumeUnreadable (Sample.userOf 3 0 true) Sample.dev 1 1
           (Sample.posting "102" "Backend developer" "Kolesa")]
        (logged emptyStore events)
    /\ Forall (fun e => ~ lateEvent e) events.
Proof.
  destruct (resume_unreadable_no_submission firstResumeUnreadable
              (Sample.userOf 3 0 true) Sample.dev 1 0
              (Sample.posting "101" "Python developer" "Kaspi")
              (JObj [("isSuitable", JBool true); ("reason", JStr "match")])
              (JBool true) eq_refl eq_refl eq_refl eq_refl eq_refl
              (or_introl eq_refl)) as (_ & Hsettles & _).
  apply (Hsettles []
           [resumed firstResumeUnreadable (Sample.userOf 3 0 true) Sample.dev 1 1
              (Sample.posting "102" "Backend developer" "Kolesa")]
           emptyStore).
Defined.

(** X9: the way of a posting to a record for a user with a linked account.
    When the posting is not stored yet, the verdict of the classifier is
    truthy and the resume can be read, the callback makes its requests in
    this order: the store, the classifier, the selection of a resume, the
    resume, its PDF, the generator (with the text of the PDF), the
    negotiation; then it pushes one record.  When the selection of a resume
    failed, the resume is asked for, and the negotiation is posted, with an
    [undefined] resume identifier. *)
Theorem posting_submitted_with_account w user position page i vacancy
    j verdict resumeDetail url pdfContent :
  User.hasHHAccount user = true ->
  findOneReply w page i = Resolved false ->
  suitableReply w page i = Resolved (ParsesTo j) ->
  getProp j "isSuitable" = Resolved verdict ->
  truthy verdict = true ->
  resumeReply w page i = Resolved resumeDetail ->
  pdfUrl resumeDetail = Resolved url ->
  pdfReply w page i = Resolved pdfContent ->
  forall st,
    let resumeId := resumeIdOf (suitableResumeReply w page i) in
    let coverLetter := letterOf (coverLetterReply w page i) in
    resumed w user position page i vacancy st
    = (extend st [vacancyDoc user vacancy coverLetter]
         ([Call (FindOne (User.id user) (Vacancy.name vacancy));
           Call (ChatSuitable (Position.position position) vacancy);
           Call (SuitableResume (Vacancy.id vacancy) (User.hhAccessToken user))]
          ++ match suitableResumeReply w page i with
             | Resolved _ => []
             | Rejected => [Log ErrorResume]
             end
          ++ [Call (GetResume resumeId (User.hhAccessToken user));
              Call (LoadPDF url
                      (if (User.hhAccessToken user =? "")%string then None
                       else Some (User.hhAccessToken user)));
              Call (ChatCoverLetter (User.firstName user) (User.lastName user)
                      vacancy pdfContent)]
          ++ match coverLetterReply w page i with
             | Resolved _ => []
             | Rejected => [Log ErrorCoverLetter]
             end
          ++ [Call (PostNegotiation
                      (if truthyText coverLetter
                       then [("vacancy_id", JStr (Vacancy.id vacancy));
                             ("resume_id", resumeId);
                             ("message", JStr (orEmpty coverLetter))]
                       else [("vacancy_id", JStr (Vacancy.id vacancy));
                             ("resume_id", resumeId)])
                      (User.hhAccessToken user))]
          ++ match negotiationReply w page i with
             | Resolved _ => []
             | Rejected => [Log ErrorNegotiation]
             end),
       Resolved tt)
    /\ (suitableResumeReply w page i = Rejected -> resumeId = JUndefined).
Proof.
  intros Hhh Hfound Hreply Hverdict Htruthy Hresume Hurl Hcontent st
    resumeId coverLetter.
  split; [|intros Hfailed; subst resumeId; now rewrite Hfailed].
  rewrite (resumed_until_resume w user position page i vacancy j verdict st)
    by easy.
  cbv zeta. rewrite Hresume, Hurl, Hcontent.
  rewrite bind_run, generateCoverLetter_run.
  rewrite bind_run, sendNegotiation_run.
  unfold push. rewrite !logged_logged. unfold logged, extend.
  cbn [vacancyDocs processedVacancies trace List.length Z.of_nat].
  fold resumeId. fold coverLetter.
  f_equal. f_equal.
  rewrite <- !app_assoc. repeat f_equal.
Qed.

Lemma posting_submitted_with_account_witness :
  vacancyDocs
    (fst (resumed Sample.threeOnPageOne (Sample.userOf 3 0 true) Sample.dev 1 0
            (Sample.posting "101" "Python developer" "Kaspi") emptyStore))
  = [vacancyDoc (Sample.userOf 3 0 true)
       (Sample.posting "101" "Python developer" "Kaspi") (Some "Hello")].
Proof.
  destruct (posting_submitted_with_account Sample.threeOnPageOne
              (Sample.userOf 3 0 true) Sample.dev 1 0
              (Sample.posting "101" "Python developer" "Kaspi")
              (JObj [("isSuitable", JBool true); ("reason", JStr "match")])
              (JBool true) Sample.resume (JStr "https://hh.ru/r1.pdf")
              "resume text" eq_refl eq_refl eq_refl eq_refl eq_refl eq_refl
              eq_refl eq_refl emptyStore) as (Hrun & _).
  rewrite Hrun. reflexivity.
Defined.

(** ** The search of a page *)

Lemma pageLoop_trace_kept w user position q pages st e :
  In e (trace st) -> In e (trace (fst (pageLoop w user position q pages st))).
Proof.
  intros Hin.
  destruct (pageLoop_shape w user position q (fun _ => True)
              (fun _ _ _ _ _ _ => I) pages st)
    as (docs & events & flow & -> & _).
  apply in_or_app. now left.
Qed.

Lemma settledPage_trace_kept w user position q page items st e :
  In e (trace st) -> In e (trace (settledPage w user position q page items st)).
Proof.
  intros Hin.
  destruct (settledPage_grows w user position q (fun _ => True)
              (fun _ _ _ _ _ _ => I) page items st)
    as (docs & events & -> & _).
  apply in_or_app. now left.
Qed.

Lemma iteration_search_rejects w user position q page rest st j extractPosition :
  extractionReply w page = Resolved (ParsesTo j) ->
  getProp j "position" = Resolved extractPosition ->
  vacanciesReply w page = Rejected ->
  pageLoop w user position q (page :: rest) st
  = pageLoop w user position q rest
      (logged st
         [Call (ChatExtract (Position.position position));
          Log (LogPosition extractPosition);
          Call (GetVacancies extractPosition page
                  (User.only_with_salary user) 40 "publication_time");
          Log ErrorVacancies; Log (ErrorPage page)]).
Proof.
  intros Hreply Hposition Hpage.
  pose proof (pageBody_extracted w user position q page st j extractPosition
                Hreply Hposition) as Hbody.
  cbv zeta in Hbody. rewrite Hpage in *.
  simpl. unfold bind at 1, tryCatch. rewrite Hbody.
  unfold bind, log, ret. now rewrite emit_logged, !logged_logged.
Qed.

Lemma iteration_no_items w user position q page rest st j extractPosition :
  extractionReply w page = Resolved (ParsesTo j) ->
  getProp j "position" = Resolved extractPosition ->
  vacanciesReply w page = Resolved {| VacanciesPage.items := None |} ->
  pageLoop w user position q (page :: rest) st
  = pageLoop w user position q rest
      (logged st
         [Call (ChatExtract (Position.position position));
          Log (LogPosition extractPosition);
          Call (GetVacancies extractPosition page
                  (User.only_with_salary user) 40 "publication_time");
          Log (ErrorPage page)]).
Proof.
  intros Hreply Hposition Hpage.
  pose proof (pageBody_extracted w user position q page st j extractPosition
                Hreply Hposition) as Hbody.
  cbv zeta in Hbody. rewrite Hpage in *.
  simpl. unfold bind at 1, tryCatch. rewrite Hbody.
  unfold bind, log, ret. now rewrite emit_logged, logged_logged.
Qed.

(** X10: a search that fails does not end the run.  When the request of
    [getVacancy] rejects, [getVacancy] logs and rejects in its turn, the
    page loop logs the error of the page and goes on with the pages that
    remain; the same holds, without the log of [getVacancy], when the
    answer has no [items]. *)
Theorem search_failure_skips_page w user position q page rest st
    j extractPosition :
  extractionReply w page = Resolved (ParsesTo j) ->
  getProp j "position" = Resolved extractPosition ->
  (vacanciesReply w page = Rejected ->
   snd (HHService.getVacancy extractPosition page (User.only_with_salary user)
          (vacanciesReply w page) st)
   = Rejected
   /\ pageLoop w user position q (page :: rest) st
      = pageLoop w user position q rest
          (logged st
             [Call (ChatExtract (Position.position position));
              Log (LogPosition extractPosition);
              Call (GetVacancies extractPosition page
                      (User.only_with_salary user) 40 "publication_time");
              Log ErrorVacancies; Log (ErrorPage page)]))
  /\ (vacanciesReply w page = Resolved {| VacanciesPage.items := None |} ->
      pageLoop w user position q (page :: rest) st
      = pageLoop w user position q rest
          (logged st
             [Call (ChatExtract (Position.position position));
              Log (LogPosition extractPosition);
              Call (GetVacancies extractPosition page
                      (User.only_with_salary user) 40 "publication_time");
              Log (ErrorPage page)])).
Proof.
  intros Hreply Hposition.
  split; intros Hpage.
  - split; [now rewrite Hpage|].
    now apply (iteration_search_rejects w user position q page rest st j).
  - now apply (iteration_no_items w user position q page rest st j).
Qed.

Lemma search_failure_skips_page_witness :
  pageLoop
    {| extractionReply := extractionReply Sample.threeOnPageOne;
       vacanciesReply := fun _ => Rejected;
       findOneReply := findOneReply Sample.threeOnPageOne;
       suitableReply := suitableReply Sample.threeOnPageOne;
       suitableResumeReply := suitableResumeReply Sample.threeOnPageOne;
       resumeReply := resumeReply Sample.threeOnPageOne;
       pdfReply := pdfReply Sample.threeOnPageOne;
       coverLetterReply := coverLetterReply Sample.threeOnPageOne;
       negotiationReply := negotiationReply Sample.threeOnPageOne;
       insertManyReply := insertManyReply Sample.threeOnPageOne;
       settleTime := settleTime Sample.threeOnPageOne |}
    (Sample.userOf 3 0 false) Sample.dev 7 [6%nat] emptyStore
  = (logged emptyStore
       [Call (ChatExtract "Python developer");
        Log (LogPosition (JStr "Python developer"));
        Call (GetVacancies (JStr "Python developer") 6 false 40 "publication_time");
        Log ErrorVacancies; Log (ErrorPage 6)],
     Resolved Next).
Proof.
  match goal with
  | |- pageLoop ?w ?u ?p ?q [?page] ?st = _ =>
      destruct (search_failure_skips_page w u p q page [] st
                  (JObj [("position", JStr "Python developer")])
                  (JStr "Python developer") eq_refl eq_refl) as (Hrejected & _);
      destruct (Hrejected eq_refl) as (_ & Hloop)
  end.
  rewrite Hloop. reflexivity.
Defined.

(** X11: an extraction whose reply parses to a value without [position]
    (an object without this key, a number, a string, a list) is no failure:
    the page is searched, with [undefined] as its text. *)
Theorem extraction_without_position_searches w user position q page rest st j :
  extractionReply w page = Resolved (ParsesTo j) ->
  getProp j "position" = Resolved JUndefined ->
  extractionFails (extractionReply w page) = false
  /\ In (Call (GetVacancies JUndefined page (User.only_with_salary user) 40
                 "publication_time"))
       (trace (fst (pageLoop w user position q (page :: rest) st))).
Proof.
  intros Hreply Hposition. split.
  - rewrite Hreply. now destruct j.
  - assert (Hhead :
              forall st', In (Call (GetVacancies JUndefined page
                                      (User.only_with_salary user) 40
                                      "publication_time"))
                            (trace (logged st
                                      ([Call (ChatExtract (Position.position position));
                                        Log (LogPosition JUndefined);
                                        Call (GetVacancies JUndefined page
                                                (User.only_with_salary user) 40
                                                "publication_time")] ++ st')))).
    { intros st'. simpl. apply in_or_app. right. simpl. tauto. }
    destruct (vacanciesReply w page) as [[[[|vacancy items]|]]|] eqn:Hpage.
    + rewrite (iteration_empty_page w user position q page rest st j JUndefined)
        by easy.
      apply pageLoop_trace_kept. apply (Hhead []).
    + rewrite (iteration_evaluated w user position q page rest st j JUndefined
                 vacancy items) by easy.
      cbv zeta.
      assert (Hsettled :
                In (Call (GetVacancies JUndefined page
                            (User.only_with_salary user) 40 "publication_time"))
                  (trace (settledPage w user position q page (vacancy :: items)
                            (logged st
                               [Call (ChatExtract (Position.position position));
                                Log (LogPosition JUndefined);
                                Call (GetVacancies JUndefined page
                                        (User.only_with_salary user) 40
                                        "publication_time")])))).
      { apply settledPage_trace_kept. apply (Hhead []). }
      destruct (processedVacancies _ >=? q); [exact Hsettled|].
      now apply pageLoop_trace_kept.
    + rewrite (iteration_no_items w user position q page rest st j JUndefined
                 Hreply Hposition Hpage).
      apply pageLoop_trace_kept. apply (Hhead [_]).
    + rewrite (iteration_search_rejects w user position q page rest st j
                 JUndefined Hreply Hposition Hpage).
      apply pageLoop_trace_kept. apply (Hhead [_; _]).
Qed.

Lemma extraction_without_position_searches_witness :
  In (Call (GetVacancies JUndefined 6 false 40 "publication_time"))
    (trace
       (fst (pageLoop
               (withExtractionReply
                  (fun _ => Resolved (ParsesTo (JObj [("role", JStr "dev")])))
                  Sample.threeOnPageOne)
               (Sample.userOf 3 0 false) Sample.dev 7 [6%nat] emptyStore))).
Proof.
  apply (extraction_without_position_searches
           (withExtractionReply
              (fun _ => Resolved (ParsesTo (JObj [("role", JStr "dev")])))
              Sample.threeOnPageOne)
           (Sample.userOf 3 0 false) Sample.dev 7 6%nat [] emptyStore
           (JObj [("role", JStr "dev")]) eq_refl eq_refl).
Defined.

(** ** The order in which the callbacks settle *)

Lemma existsb_perm {A} (f : A -> bool) (l l' : list A) :
  Permutation l l' -> existsb f l = existsb f l'.
Proof.
  induction 1 as [|x l l' _ IH|x y l|l l' l'' _ IH _ IH']; simpl.
  - reflexivity.
  - now rewrite IH.
  - now destruct (f x), (f y).
  - now rewrite IH.
Qed.

Lemma alreadyInVacancyDocs_perm docs docs' vacancy :
  Permutation docs docs' ->
  alreadyInVacancyDocs docs vacancy = alreadyInVacancyDocs docs' vacancy.
Proof. apply existsb_perm. Qed.

Lemma sameRecords_refl st : sameRecords st st.
Proof. now split. Qed.

Lemma sameRecords_logged st st' events events' :
  sameRecords st st' -> sameRecords (logged st events) (logged st' events').
Proof. now intros (Hdocs & Hcount). Qed.

Lemma sameRecords_extend st st' docs docs' events events' :
  sameRecords st st' -> Permutation docs docs' ->
  sameRecords (extend st docs events) (extend st' docs' events').
Proof.
  intros (Hdocs & Hcount) Hperm. split; simpl.
  - now apply Permutation_app.
  - now rewrite Hcount, (Permutation_length Hperm).
Qed.

Lemma launched_withSettleTime settle w user position q page items :
  forall i st st',
    sameRecords st st' ->
    map snd (launched (withSettleTime settle w) user position q st' page i items)
    = map snd (launched w user position q st page i items).
Proof.
  induction items as [|vacancy rest IH]; intros i st st' Hsame; [reflexivity|].
  simpl. destruct Hsame as (Hdocs & Hcount).
  rewrite <- Hcount, <- (alreadyInVacancyDocs_perm _ _ vacancy Hdocs).
  destruct (processedVacancies st >=? q); [now apply IH|].
  destruct (alreadyInVacancyDocs (vacancyDocs st) vacancy); [now apply IH|].
  simpl. f_equal. now apply IH.
Qed.

Lemma resumed_blind w user position page i vacancy :
  exists docs, Blind (resumed w user position page i vacancy) docs.
Proof.
  destruct (resumed_pushes (fun _ => True) w user position page i vacancy I
              (fun _ _ => I)) as (docs & events & o & _ & Hrun).
  now exists docs, events, o.
Qed.

Lemma launched_blind w user position q st page items : forall i,
  exists records,
    Forall2 Blind (map snd (launched w user position q st page i items)) records.
Proof.
  induction items as [|vacancy rest IH]; intros i; simpl.
  - exists []. constructor.
  - destruct (processedVacancies st >=? q); [apply IH|].
    destruct (alreadyInVacancyDocs (vacancyDocs st) vacancy); [apply IH|].
    destruct (IH (S i)) as (records & Hrest).
    destruct (resumed_blind w user position page i vacancy) as (docs & Hdocs).
    exists (docs :: records). now constructor.
Qed.

Lemma allSettled_blind pending records :
  Forall2 Blind pending records ->
  exists events,
    forall st,
      allSettled pending st = (extend st (List.concat records) events, Resolved tt).
Proof.
  induction 1 as [|k docs pending records (events & o & Hrun) _ (events' & IH)].
  - exists []. intros st. simpl. unfold ret. now rewrite extend_nil.
  - exists (events ++ events'). intros st.
    simpl. unfold bind, tryCatch, ret. rewrite Hrun.
    destruct o as [[]|]; now rewrite IH, extend_extend.
Qed.

Lemma Permutation_concat {A} (l l' : list (list A)) :
  Permutation l l' -> Permutation (List.concat l) (List.concat l').
Proof.
  induction 1 as [|x l l' _ IH|x y l|l l' l'' _ IH _ IH']; simpl.
  - constructor.
  - now apply Permutation_app_head.
  - rewrite !app_assoc. apply Permutation_app_tail, Permutation_app_comm.
  - now rewrite IH.
Qed.

(** The callbacks of a page leave the same records, whatever the order in
    which they settle. *)
Lemma settledPage_withSettleTime settle w user position q page items st st' :
  sameRecords st st' ->
  sameRecords (settledPage w user position q page items st)
    (settledPage (withSettleTime settle w) user position q page items st').
Proof.
  intros Hsame. unfold settledPage.
  destruct (launched_blind w user position q st page items 0)
    as (records & Hblind).
  pose proof (inOrderOfSettling_perm (launched w user position q st page 0 items))
    as Hperm.
  pose proof (inOrderOfSettling_perm
                (launched (withSettleTime settle w) user position q st' page 0
                   items)) as Hperm'.
  rewrite (launched_withSettleTime settle w user position q page items 0 st st'
             Hsame) in Hperm'.
  destruct (Permutation_Forall2 (Permutation_sym Hperm) Hblind)
    as (sorted & Hsorted & Hall).
  destruct (Permutation_Forall2 (Permutation_sym Hperm') Hblind)
    as (sorted' & Hsorted' & Hall').
  destruct (allSettled_blind _ _ Hall) as (events & ->).
  destruct (allSettled_blind _ _ Hall') as (events' & ->).
  cbn [fst]. apply sameRecords_extend; [exact Hsame|].
  apply Permutation_concat.
  now rewrite <- Hsorted, Hsorted'.
Qed.

Lemma pageLoop_withSettleTime settle w user position q pages : forall st st',
  sameRecords st st' ->
  sameRecords (fst (pageLoop w user position q pages st))
    (fst (pageLoop (withSettleTime settle w) user position q pages st')).
Proof.
  induction pages as [|page rest IH]; intros st st' Hsame; [exact Hsame|].
  destruct (extractionFails (extractionReply w page)) eqn:Hfails.
  - rewrite (iteration_extraction_fails w user position q page rest st Hfails),
      (iteration_extraction_fails (withSettleTime settle w) user position q page
         rest st' Hfails).
    now apply IH, sameRecords_logged.
  - destruct (extraction_cases _ Hfails) as (j & extractPosition & Hreply & Hposition).
    destruct (vacanciesReply w page) as [[[[|vacancy items]|]]|] eqn:Hpage.
    + rewrite (iteration_empty_page w user position q page rest st j
                 extractPosition Hreply Hposition Hpage),
        (iteration_empty_page (withSettleTime settle w) user position q page rest
           st' j extractPosition Hreply Hposition Hpage).
      now apply IH, sameRecords_logged.
    + rewrite (iteration_evaluated w user position q page rest st j
                 extractPosition vacancy items Hreply Hposition Hpage),
        (iteration_evaluated (withSettleTime settle w) user position q page rest
           st' j extractPosition vacancy items Hreply Hposition Hpage).
      cbv zeta.
      match goal with
      | |- context [settledPage w user position q page ?l (logged st ?events)] =>
          pose proof (settledPage_withSettleTime settle w user position q page l
                        (logged st events) (logged st' events)
                        (sameRecords_logged st st' events events Hsame))
            as Hsettled
      end.
      destruct Hsettled as (Hdocs & Hcount). rewrite <- Hcount.
      destruct (processedVacancies _ >=? q); [now split|].
      apply IH. now split.
    + rewrite (iteration_no_items w user position q page rest st j
                 extractPosition Hreply Hposition Hpage),
        (iteration_no_items (withSettleTime settle w) user position q page rest
           st' j extractPosition Hreply Hposition Hpage).
      now apply IH, sameRecords_logged.
    + rewrite (iteration_search_rejects w user position q page rest st j
                 extractPosition Hreply Hposition Hpage),
        (iteration_search_rejects (withSettleTime settle w) user position q page
           rest st' j extractPosition Hreply Hposition Hpage).
      now apply IH, sameRecords_logged.
Qed.

(** X18: the order in which the callbacks of a page settle decides nothing
    but the order of the records.  Two runs that get the same answers and
    differ in the moments at which the callbacks settle commit the same
    records, up to their order, and end with the same count. *)
Theorem settle_order_immaterial settle w user position :
  Permutation
    (committed (trace (run (processVacancies w user position))))
    (committed
       (trace (run (processVacancies (withSettleTime settle w) user position))))
  /\ processedVacancies (run (processVacancies w user position))
     = processedVacancies
         (run (processVacancies (withSettleTime settle w) user position)).
Proof.
  rewrite !committed_accumulated. unfold run, processVacancies.
  destruct (User.positions user) as [positions|]; [|now split].
  rewrite !criterionRun_ends. cbn [fst].
  apply (sameRecords_logged _ _ _ _
           (pageLoop_withSettleTime settle w user position _ (seq 1 6) _ _
              (sameRecords_refl emptyStore))).
Qed.

(** ** The worker of the queue *)

Lemma positionPromises_length worlds user positions : forall k,
  List.length (positionPromises worlds user k positions) = List.length positions.
Proof.
  induction positions as [|p rest IH]; intros k; simpl; [reflexivity|].
  now rewrite IH.
Qed.

(** X12: the worker of a user refreshes the token and then starts one run
    for every criterion that has a text and the status [Active], and none
    for the others; it fails when the user has no list of criteria.  The
    refresh changes neither the criteria nor their number; the runs post
    their negotiations with the access token that the refresh returned, or
    with the old one when the refresh failed. *)
Theorem processUser_runs_active_criteria worlds refreshReply user :
  (User.positions user = None ->
   processUser worlds refreshReply user = Rejected)
  /\ (forall positions,
         User.positions user = Some positions ->
         exists results,
           processUser worlds refreshReply user = Resolved results
           /\ List.length results = List.length positions
           /\ (forall j criterion,
                  nth_error positions j = Some criterion ->
                  nth_error results j
                  = Some (if isActive criterion
                          then Some (run (processVacancies (worlds j)
                                            (refreshAccessToken user refreshReply)
                                            criterion))
                          else None))
           /\ (forall j st formData token,
                  nth_error results j = Some (Some st) ->
                  In (Call (PostNegotiation formData token)) (trace st) ->
                  token = match refreshReply with
                          | Resolved (access_token, _) => access_token
                          | Rejected => User.hhAccessToken user
                          end)).
Proof.
  assert (Hkept : User.positions (refreshAccessToken user refreshReply)
                  = User.positions user).
  { now destruct refreshReply as [[access refresh]|]. }
  split.
  - intros Hnone. unfold processUser. now rewrite Hkept, Hnone.
  - intros positions Hpositions. unfold processUser.
    rewrite Hkept, Hpositions. eexists. split; [reflexivity|].
    split; [apply positionPromises_length|]. split.
    + intros j criterion Hnth.
      now rewrite (positionPromises_nth worlds _ positions 0 j criterion Hnth).
    + intros j st formData token Hnth Hin.
      destruct (nth_error positions j) as [criterion|] eqn:Hcriterion.
      * rewrite (positionPromises_nth worlds _ positions 0 j criterion Hcriterion)
          in Hnth.
        destruct (isActive criterion); [|discriminate].
        injection Hnth as <-.
        destruct (run_events (worlds (0 + j)%nat)
                    (refreshAccessToken user refreshReply) criterion)
          as (Hevents & _).
        rewrite Forall_forall in Hevents.
        destruct (Hevents _ Hin)
          as [[(page & _ & He) | (page & vacancy & _ & _ & [He|He])] | He];
          simpl in He; try contradiction.
        destruct He as (_ & -> & _).
        now destruct refreshReply as [[access refresh]|].
      * apply nth_error_None in Hcriterion.
        assert (Hsome : nth_error
                          (positionPromises worlds
                             (refreshAccessToken user refreshReply) 0 positions) j
                        <> None) by congruence.
        apply nth_error_Some in Hsome.
        rewrite positionPromises_length in Hsome. lia.
Qed.

Lemma processUser_runs_active_criteria_witness :
  exists results,
    processUser (fun _ => Sample.threeOnPageOne) (Resolved ("fresh", "next"))
      (Sample.userOf 1 1 true)
    = Resolved results
    /\ List.length results = 2%nat.
Proof.
  destruct (processUser_runs_active_criteria (fun _ => Sample.threeOnPageOne)
              (Resolved ("fresh", "next")) (Sample.userOf 1 1 true))
    as (_ & Hsome).
  destruct (Hsome (repeat Sample.dev 1
                   ++ repeat (Sample.criterion "QA engineer" "Paused") 1)
              eq_refl) as (results & Hrun & Hlength & _).
  exists results. split; [exact Hrun | exact Hlength].
Defined.

(** ** The turns of a run *)

Lemma firstn_seq_le n : forall start len,
  (n <= len)%nat -> firstn n (seq start len) = seq start n.
Proof.
  induction n as [|n IH]; intros start len Hle; [reflexivity|].
  destruct len as [|len]; [lia|]. simpl. rewrite IH by lia. reflexivity.
Qed.

Lemma commitEvents_silent w st :
  extractions (commitEvents w st) = 0%nat
  /\ fetchedPages (commitEvents w st) = [].
Proof.
  unfold commitEvents.
  destruct (vacancyDocs st); [now split|].
  now destruct (insertManyReply w).
Qed.

Section Paging.

Variable w : World.
Variable user : User.t.
Variable position : Position.t.
Variable q : Z.

Lemma pageLoop_resolves pages st :
  exists flow, snd (pageLoop w user position q pages st) = Resolved flow.
Proof.
  destruct (pageLoop_shape w user position q (fun _ => True)
              (fun _ _ _ _ _ _ => I) pages st)
    as (docs & events & flow & -> & _).
  now exists flow.
Qed.

Lemma below_quota st events :
  processedVacancies st < q -> (processedVacancies (logged st events) >=? q) = false.
Proof.
  intros Hbelow. cbn [processedVacancies logged].
  now destruct (Z.geb_spec (processedVacancies st) q); [lia|].
Qed.

(** One turn of a loop that is below the quota: one extraction; one search
    when the extraction succeeded; the loop is left when the count has
    reached the quota after the turn, and goes on otherwise. *)
Lemma turn_of_page page st :
  processedVacancies st < q ->
  exists st1,
    extractions (trace st1) = S (extractions (trace st))
    /\ fetchedPages (trace st1)
       = fetchedPages (trace st)
         ++ (if extractionFails (extractionReply w page) then [] else [page])
    /\ forall rest,
         pageLoop w user position q (page :: rest) st
         = if processedVacancies st1 >=? q then (st1, Resolved Break)
           else pageLoop w user position q rest st1.
Proof.
  intros Hbelow.
  destruct (extractionFails (extractionReply w page)) eqn:Hfails.
  - eexists. split; [|split].
      3: { intros rest. rewrite below_quota by exact Hbelow.
           now apply iteration_extraction_fails. }
      all: cbn [trace logged];
        rewrite ?extractions_app, ?fetchedPages_app;
        first [reflexivity | unfold extractions; simpl; lia].
  - destruct (extraction_cases _ Hfails) as (j & extractPosition & Hreply & Hpos).
    destruct (vacanciesReply w page) as [[[[|vacancy items]|]]|] eqn:Hpage.
    + eexists. split; [|split].
      3: { intros rest. rewrite below_quota by exact Hbelow.
           now apply (iteration_empty_page w user position q page rest st j extractPosition). }
      all: cbn [trace logged];
        rewrite ?extractions_app, ?fetchedPages_app;
        first [reflexivity | unfold extractions; simpl; lia].
    + destruct (settledPage_grows w user position q (fun _ => True)
                  (fun _ _ _ _ _ _ => I) page (vacancy :: items)
                  (logged st
                     [Call (ChatExtract (Position.position position));
                      Log (LogPosition extractPosition);
                      Call (GetVacancies extractPosition page
                              (User.only_with_salary user) 40 "publication_time")]))
        as (docs & events & Hst2 & _ & Hevents).
      destruct (inner_silent events Hevents) as (He & Hf & _).
      exists (settledPage w user position q page (vacancy :: items)
                (logged st
                   [Call (ChatExtract (Position.position position));
                    Log (LogPosition extractPosition);
                    Call (GetVacancies extractPosition page
                            (User.only_with_salary user) 40 "publication_time")])).
      split; [|split];
        [| |intros rest;
            now apply (iteration_evaluated w user position q page rest st j
                         extractPosition vacancy items)].
      * rewrite Hst2. cbn [trace logged extend].
        rewrite !extractions_app, He. unfold extractions. simpl. lia.
      * rewrite Hst2. cbn [trace logged extend].
        rewrite !fetchedPages_app, Hf. simpl. now rewrite app_nil_r.
    + eexists. split; [|split].
      3: { intros rest. rewrite below_quota by exact Hbelow.
           now apply (iteration_no_items w user position q page rest st j extractPosition). }
      all: cbn [trace logged];
        rewrite ?extractions_app, ?fetchedPages_app;
        first [reflexivity | unfold extractions; simpl; lia].
    + eexists. split; [|split].
      3: { intros rest. rewrite below_quota by exact Hbelow.
           now apply (iteration_search_rejects w user position q page rest st j extractPosition). }
      all: cbn [trace logged];
        rewrite ?extractions_app, ?fetchedPages_app;
        first [reflexivity | unfold extractions; simpl; lia].
Qed.

(** The turns of a loop that starts below the quota: it takes the first [n]
    of its pages, in their order; all of them unless the count reaches the
    quota, and then [n] is the first page after which it has. *)
Lemma pageLoop_turns pages : forall st,
  processedVacancies st < q ->
  exists n,
    (n <= List.length pages)%nat
    /\ pageLoop w user position q pages st
       = pageLoop w user position q (firstn n pages) st
    /\ extractions (trace (fst (pageLoop w user position q pages st)))
       = (extractions (trace st) + n)%nat
    /\ fetchedPages (trace (fst (pageLoop w user position q pages st)))
       = fetchedPages (trace st)
         ++ filter (fun page => negb (extractionFails (extractionReply w page)))
              (firstn n pages)
    /\ (processedVacancies (fst (pageLoop w user position q pages st)) < q ->
        n = List.length pages)
    /\ (q <= processedVacancies (fst (pageLoop w user position q pages st)) ->
        (1 <= n)%nat
        /\ processedVacancies
             (fst (pageLoop w user position q (firstn (n - 1) pages) st)) < q).
Proof.
  induction pages as [|page rest IH]; intros st Hbelow.
  - exists 0%nat. cbn [firstn pageLoop List.length filter]. unfold ret. cbn [fst trace].
    rewrite app_nil_r, Nat.add_0_r. repeat split; try easy. all: lia.
  - destruct (turn_of_page page st Hbelow) as (st1 & He & Hf & Hloop).
    destruct (Z.geb_spec (processedVacancies st1) q) as [Hge|Hlt].
    + exists 1%nat. cbn [firstn List.length filter Nat.sub].
      rewrite (Hloop rest), (Hloop []).
      destruct (Z.geb_spec (processedVacancies st1) q) as [_|Hlt]; [|lia].
      cbn [fst]. rewrite He, Hf.
      split; [lia|]. split; [reflexivity|]. split; [lia|].
      split; [now destruct (extractionFails (extractionReply w page))|].
      split; [lia|]. intros _. split; [lia|]. exact Hbelow.
    + destruct (IH st1 Hlt) as (n & Hn & Heq & He' & Hf' & Hall & Hstop).
      exists (S n). cbn [firstn List.length filter].
      rewrite (Hloop rest), (Hloop (firstn n rest)).
      destruct (Z.geb_spec (processedVacancies st1) q) as [Hge|_]; [lia|].
      rewrite Hf', He', He, Hf, <- Heq.
      split; [lia|]. split; [reflexivity|]. split; [lia|].
      split.
      { rewrite <- app_assoc.
        now destruct (extractionFails (extractionReply w page)). }
      split; [intros Hend; now rewrite (Hall Hend)|].
      intros Hend. destruct (Hstop Hend) as (Hone & Hbefore).
      split; [lia|].
      replace (S n - 1)%nat with (S (n - 1)) by lia. cbn [firstn].
      rewrite (Hloop (firstn (n - 1) rest)).
      destruct (Z.geb_spec (processedVacancies st1) q) as [Hge|_]; [lia|].
      exact Hbefore.
Qed.

(** Over pages that all come back empty the loop fetches every page. *)
Lemma pageLoop_empty_pages pages : forall st,
  (forall page,
      In page pages ->
      extractionFails (extractionReply w page) = false
      /\ vacanciesReply w page = Resolved {| VacanciesPage.items := Some [] |}) ->
  fetchedPages (trace (fst (pageLoop w user position q pages st)))
  = fetchedPages (trace st) ++ pages.
Proof.
  induction pages as [|page rest IH]; intros st Hempty.
  - cbn [pageLoop]. unfold ret. cbn [fst]. now rewrite app_nil_r.
  - destruct (Hempty page (or_introl eq_refl)) as (Hok & Hnone).
    destruct (extraction_cases _ Hok) as (j & extractPosition & Hreply & Hpos).
    rewrite (iteration_empty_page w user position q page rest st j
               extractPosition Hreply Hpos Hnone).
    rewrite IH by (intros page' Hin; apply Hempty; now right).
    cbn [trace logged]. rewrite fetchedPages_app, <- app_assoc. reflexivity.
Qed.

End Paging.

(** The turns of a run. *)
Lemma run_turns w user position positions :
  User.positions user = Some positions ->
  let q := getApplicationsPerPosition (Z.of_nat (List.length positions)) in
  let st := run (processVacancies w user position) in
  exists n,
    (n <= 6)%nat
    /\ extractions (trace st) = n
    /\ fetchedPages (trace st)
       = filter (fun page => negb (extractionFails (extractionReply w page)))
           (seq 1 n)
    /\ (processedVacancies st < q -> n = 6%nat)
    /\ (q <= processedVacancies st ->
        (1 <= n)%nat
        /\ processedVacancies
             (fst (pageLoop w user position q (seq 1 (n - 1)) emptyStore)) < q
        /\ vacancyDocs st
           = vacancyDocs (fst (pageLoop w user position q (seq 1 n) emptyStore))).
Proof.
  intros Hpositions q st. subst st. unfold run, processVacancies.
  rewrite Hpositions. fold q. rewrite criterionRun_ends. cbn [fst].
  destruct (pageLoop_turns w user position q (seq 1 6) emptyStore
              (getApplicationsPerPosition_pos _))
    as (n & Hn & Heq & He & Hf & Hall & Hstop).
  rewrite length_seq in Hn, Hall.
  rewrite firstn_seq_le in Heq, Hf by exact Hn.
  destruct (commitEvents_silent w (fst (pageLoop w user position q (seq 1 6) emptyStore)))
    as (Hce & Hcf).
  exists n. cbn [trace logged processedVacancies vacancyDocs].
  rewrite extractions_app, fetchedPages_app, Hce, Hcf, He, Hf, app_nil_r.
  split; [exact Hn|]. split; [simpl; lia|]. split; [reflexivity|].
  split; [exact Hall|].
  intros Hend. destruct (Hstop Hend) as (Hone & Hbefore).
  split; [exact Hone|]. split; [|now rewrite Heq].
  rewrite firstn_seq_le in Hbefore by lia. exact Hbefore.
Qed.

(** C9: a run fetches pages among 1 to 6 only, each at most once and in
    rising order, and asks for at most six extractions.  In the turn of a
    page that comes back empty the loop goes on with the pages that remain;
    in the turn of a page with postings the loop is left as soon as the
    count of records has reached the quota once the callbacks of the page
    have settled, and goes on with the pages that remain otherwise; a loop
    that starts below the quota is left by [break] exactly when the count
    has reached the quota.  A run takes the turns of the pages 1 to [n], in
    this order, with one extraction per turn and one search for every page
    whose extraction succeeded: [n] is 6 unless the count reaches the quota,
    whatever the pages hold (nothing, postings, an error), and is otherwise
    the first page after whose turn the count has reached the quota. *)
Theorem page_loop_capped_and_sequential w user position :
  Subseq (fetchedPages (trace (run (processVacancies w user position))))
    [1; 2; 3; 4; 5; 6]%nat
  /\ (extractions (trace (run (processVacancies w user position))) <= 6)%nat
  /\ (forall q page rest st j extractPosition,
         extractionReply w page = Resolved (ParsesTo j) ->
         getProp j "position" = Resolved extractPosition ->
         vacanciesReply w page = Resolved {| VacanciesPage.items := Some [] |} ->
         pageLoop w user position q (page :: rest) st
         = pageLoop w user position q rest
             (logged st
                [Call (ChatExtract (Position.position position));
                 Log (LogPosition extractPosition);
                 Call (GetVacancies extractPosition page
                         (User.only_with_salary user) 40 "publication_time")]))
  /\ (forall q page rest st j extractPosition vacancy items,
         extractionReply w page = Resolved (ParsesTo j) ->
         getProp j "position" = Resolved extractPosition ->
         vacanciesReply w page
         = Resolved {| VacanciesPage.items := Some (vacancy :: items) |} ->
         pageLoop w user position q (page :: rest) st
         = let st2 :=
             settledPage w user position q page (vacancy :: items)
               (logged st
                  [Call (ChatExtract (Position.position position));
                   Log (LogPosition extractPosition);
                   Call (GetVacancies extractPosition page
                           (User.only_with_salary user) 40 "publication_time")]) in
           if processedVacancies st2 >=? q then (st2, Resolved Break)
           else pageLoop w user position q rest st2)
  /\ (forall q pages st,
         processedVacancies st < q ->
         snd (pageLoop w user position q pages st) = Resolved Break
         <-> q <= processedVacancies (fst (pageLoop w user position q pages st)))
  /\ (forall positions,
         User.positions user = Some positions ->
         let q := getApplicationsPerPosition (Z.of_nat (List.length positions)) in
         let st := run (processVacancies w user position) in
         exists n,
           (n <= 6)%nat
           /\ extractions (trace st) = n
           /\ fetchedPages (trace st)
              = filter
                  (fun page => negb (extractionFails (extractionReply w page)))
                  (seq 1 n)
           /\ (processedVacancies st < q -> n = 6%nat)
           /\ (q <= processedVacancies st ->
               (1 <= n)%nat
               /\ processedVacancies
                    (fst (pageLoop w user position q (seq 1 (n - 1)) emptyStore))
                  < q
               /\ vacancyDocs st
                  = vacancyDocs
                      (fst (pageLoop w user position q (seq 1 n) emptyStore))))
  /\ (User.positions user <> None ->
      (forall page,
          (1 <= page <= 6)%nat ->
          extractionFails (extractionReply w page) = false
          /\ vacanciesReply w page
             = Resolved {| VacanciesPage.items := Some [] |}) ->
      fetchedPages (trace (run (processVacancies w user position)))
      = [1; 2; 3; 4; 5; 6]%nat).
Proof.
  destruct (processVacancies_shape w user position (fun _ => True))
    as (_ & _ & _ & Hfetched & Hle); [easy|].
  split; [exact Hfetched|]. split; [exact Hle|]. split; [|split; [|split; [|split]]].
  - intros. now apply iteration_empty_page with (j := j).
  - intros. now apply iteration_evaluated with (j := j).
  - intros. now apply pageLoop_break_iff.
  - intros positions Hpositions. now apply run_turns.
  - intros Hsome Hempty.
    destruct (User.positions user) as [positions|] eqn:Hpositions; [|easy].
    unfold run, processVacancies. rewrite Hpositions, criterionRun_ends.
    cbn [fst trace logged]. rewrite fetchedPages_app.
    destruct (commitEvents_silent w
                (fst (pageLoop w user position
                        (getApplicationsPerPosition (Z.of_nat (List.length positions)))
                        (seq 1 6) emptyStore))) as (_ & ->).
    rewrite app_nil_r, pageLoop_empty_pages; [reflexivity|].
    intros page Hin. apply Hempty. apply in_seq in Hin. lia.
Qed.

Lemma page_loop_capped_and_sequential_witness :
  User.positions (Sample.userOf 3 0 false) <> None
  /\ fetchedPages
       (trace (run (processVacancies (Sample.friendly (fun _ => []))
                      (Sample.userOf 3 0 false) Sample.dev)))
     = [1; 2; 3; 4; 5; 6]%nat
  /\ extractions
       (trace (run (processVacancies (Sample.friendly (fun _ => []))
                      (Sample.userOf 3 0 false) Sample.dev)))
     = 6%nat.
Proof.
  destruct (page_loop_capped_and_sequential (Sample.friendly (fun _ => []))
              (Sample.userOf 3 0 false) Sample.dev)
    as (_ & _ & _ & _ & _ & Hturns & Hempty).
  split; [discriminate|]. split.
  - apply Hempty; [discriminate|]. intros page _. split; reflexivity.
  - destruct (Hturns (repeat Sample.dev 3 ++ []) eq_refl)
      as (n & _ & -> & _ & Hall & _).
    apply Hall. reflexivity.
Defined.

(** ** The record of a posting in the run *)

Section Recorded.

Variable w : World.
Variable user : User.t.
Variable position : Position.t.
Variable q : Z.

Lemma pageLoop_app pages1 pages2 : forall st,
  snd (pageLoop w user position q pages1 st) = Resolved Next ->
  pageLoop w user position q (pages1 ++ pages2) st
  = pageLoop w user position q pages2
      (fst (pageLoop w user position q pages1 st)).
Proof.
  induction pages1 as [|page rest IH]; intros st; [reflexivity|].
  cbn [app pageLoop]. unfold bind.
  destruct (tryCatch _ _ st) as [st1 [[|]|]]; cbn [fst snd]; try discriminate.
  apply IH.
Qed.

Lemma pageLoop_below_next pages st :
  processedVacancies st < q ->
  processedVacancies (fst (pageLoop w user position q pages st)) < q ->
  snd (pageLoop w user position q pages st) = Resolved Next.
Proof.
  intros Hbelow Hend.
  destruct (pageLoop_resolves w user position q pages st) as ([|] & Hflow);
    [exact Hflow|].
  apply (pageLoop_break_iff w user position q pages st Hbelow) in Hflow. lia.
Qed.

Lemma pageLoop_docs_kept pages st doc :
  In doc (vacancyDocs st) ->
  In doc (vacancyDocs (fst (pageLoop w user position q pages st))).
Proof.
  intros Hin.
  destruct (pageLoop_shape w user position q (fun _ => True)
              (fun _ _ _ _ _ _ => I) pages st)
    as (docs & events & flow & -> & _).
  cbn [fst vacancyDocs extend]. apply in_or_app. now left.
Qed.

Lemma launched_nth st page items : forall start k vacancy,
  nth_error items k = Some vacancy ->
  processedVacancies st < q ->
  alreadyInVacancyDocs (vacancyDocs st) vacancy = false ->
  In (resumed w user position page (start + k) vacancy)
    (map snd (launched w user position q st page start items)).
Proof.
  induction items as [|first rest IH]; intros start k vacancy Hnth Hbelow Hnew.
  - now destruct k.
  - cbn [launched].
    destruct (Z.geb_spec (processedVacancies st) q) as [Hge|_]; [lia|].
    destruct k as [|k]; cbn [nth_error] in Hnth.
    + injection Hnth as ->. rewrite Hnew, Nat.add_0_r. now left.
    + assert (Hrest : In (resumed w user position page (start + S k) vacancy)
                        (map snd (launched w user position q st page (S start) rest))).
      { rewrite <- Nat.add_succ_comm. now apply IH. }
      destruct (alreadyInVacancyDocs (vacancyDocs st) first); [exact Hrest|].
      now right.
Qed.

(** The callbacks of a page leave the record of a posting that was
    launched and whose callback pushes it. *)
Lemma settledPage_records page items i vacancy doc st :
  nth_error items i = Some vacancy ->
  processedVacancies st < q ->
  alreadyInVacancyDocs (vacancyDocs st) vacancy = false ->
  (forall st',
      vacancyDocs (fst (resumed w user position page i vacancy st'))
      = vacancyDocs st' ++ [doc]) ->
  In doc (vacancyDocs (settledPage w user position q page items st)).
Proof.
  intros Hnth Hbelow Hnew Hpushes. unfold settledPage.
  pose proof (launched_nth st page items 0 i vacancy Hnth Hbelow Hnew) as Hin.
  apply (Permutation_in _
           (Permutation_sym
              (inOrderOfSettling_perm (launched w user position q st page 0 items))))
    in Hin.
  assert (Hall : Forall (Keeps (Grows (fun _ => True) (fun _ => True)))
                   (inOrderOfSettling (launched w user position q st page 0 items))).
  { eapply Permutation_Forall;
      [symmetry; apply inOrderOfSettling_perm|].
    apply launched_all. intros j posting.
    intros st'.
    eapply Grows_weaken;
      [| |apply (resumed_grows (fun _ => True) w user position page j posting)];
      easy. }
  apply in_split in Hin as (before & after & Hsplit).
  rewrite Hsplit in Hall |- *.
  apply Forall_app in Hall as (_ & Hall). apply Forall_cons_iff in Hall as (_ & Hafter).
  rewrite allSettled_after.
  destruct (allSettled_keeps (Grows (fun _ => True) (fun _ => True)) after
              (Grows_refl _ _) (Grows_trans _ _) Hafter
              (fst (resumed w user position page (0 + i) vacancy
                      (fst (allSettled before st)))))
    as (docs & events & -> & _).
  cbn [vacancyDocs extend]. apply in_or_app. left.
  cbn [Nat.add]. rewrite Hpushes. apply in_or_app. right. now left.
Qed.

End Recorded.

(** A posting that is launched in the turn of its page, and whose callback
    pushes a record, has this record among those that the run commits. *)
Lemma run_commits_record w user position positions page items i vacancy doc :
  User.positions user = Some positions ->
  let q := getApplicationsPerPosition (Z.of_nat (List.length positions)) in
  let before := fst (pageLoop w user position q (seq 1 (page - 1)) emptyStore) in
  (1 <= page <= 6)%nat ->
  extractionFails (extractionReply w page) = false ->
  vacanciesReply w page = Resolved {| VacanciesPage.items := Some items |} ->
  nth_error items i = Some vacancy ->
  processedVacancies before < q ->
  alreadyInVacancyDocs (vacancyDocs before) vacancy = false ->
  (forall st,
      vacancyDocs (fst (resumed w user position page i vacancy st))
      = vacancyDocs st ++ [doc]) ->
  In doc (committed (trace (run (processVacancies w user position)))).
Proof.
  intros Hpositions q before Hpage Hok Hitems Hnth Hbelow Hnew Hpushes.
  rewrite committed_accumulated. unfold processVacancies. rewrite Hpositions.
  fold q. rewrite criterionRun_docs.
  assert (Hseq : seq 1 6 = seq 1 (page - 1) ++ page :: seq (S page) (6 - page)).
  { replace 6%nat with ((page - 1) + S (6 - page))%nat at 1 by lia.
    rewrite seq_app. cbn [seq]. do 3 f_equal; lia. }
  rewrite Hseq, pageLoop_app
    by (apply pageLoop_below_next; [apply getApplicationsPerPosition_pos | exact Hbelow]).
  fold before.
  destruct (extraction_cases _ Hok) as (j & extractPosition & Hreply & Hpos).
  destruct items as [|first rest]; [now destruct i|].
  rewrite (iteration_evaluated w user position q page _ before j extractPosition
             first rest Hreply Hpos Hitems).
  cbv zeta.
  assert (Hin : In doc
                  (vacancyDocs
                     (settledPage w user position q page (first :: rest)
                        (logged before
                           [Call (ChatExtract (Position.position position));
                            Log (LogPosition extractPosition);
                            Call (GetVacancies extractPosition page
                                    (User.only_with_salary user) 40
                                    "publication_time")])))).
  { now apply (settledPage_records w user position q page (first :: rest) i vacancy). }
  destruct (processedVacancies _ >=? q); [exact Hin|].
  now apply pageLoop_docs_kept.
Qed.

(** ** Submission *)

(** C7: a request of [sendNegotiation] that fails is caught: the function
    resolves with the soft failure value instead of rejecting.  The callback
    of a posting that came as far as the submission therefore pushes its
    record and resolves, and what a run commits is the same whatever the
    submission endpoint answers.  In a run, when the turn of the page of the
    posting comes with the count below the quota and no accumulated record
    matches the posting, the record of the posting is among the records
    that the run hands to [insertMany], although its submission failed. *)
Theorem submission_failure_is_soft w user position page i vacancy
    j verdict detail download pdf url pdfContent :
  User.hasHHAccount user = true ->
  findOneReply w page i = Resolved false ->
  suitableReply w page i = Resolved (ParsesTo j) ->
  getProp j "isSuitable" = Resolved verdict ->
  truthy verdict = true ->
  resumeReply w page i = Resolved detail ->
  getProp detail "download" = Resolved download ->
  getProp download "pdf" = Resolved pdf ->
  getProp pdf "url" = Resolved url ->
  pdfReply w page i = Resolved pdfContent ->
  negotiationReply w page i = Rejected ->
  (forall vacancyId resumeId message token st,
      snd (HHService.sendNegotiation vacancyId resumeId message token Rejected st)
      = Resolved HHService.softFailure)
  /\ (forall st,
         snd (resumed w user position page i vacancy st) = Resolved tt
         /\ vacancyDocs (fst (resumed w user position page i vacancy st))
            = vacancyDocs st
              ++ [vacancyDoc user vacancy (letterOf (coverLetterReply w page i))]
         /\ processedVacancies (fst (resumed w user position page i vacancy st))
            = processedVacancies st + 1)
  /\ (forall replies,
         committed
           (trace (run (processVacancies (withNegotiationReply replies w)
                          user position)))
         = committed (trace (run (processVacancies w user position))))
  /\ (forall positions items,
         User.positions user = Some positions ->
         let q := getApplicationsPerPosition (Z.of_nat (List.length positions)) in
         let before :=
           fst (pageLoop w user position q (seq 1 (page - 1)) emptyStore) in
         (1 <= page <= 6)%nat ->
         extractionFails (extractionReply w page) = false ->
         vacanciesReply w page = Resolved {| VacanciesPage.items := Some items |} ->
         nth_error items i = Some vacancy ->
         processedVacancies before < q ->
         alreadyInVacancyDocs (vacancyDocs before) vacancy = false ->
         In (vacancyDoc user vacancy (letterOf (coverLetterReply w page i)))
           (committed (trace (run (processVacancies w user position))))).
Proof.
  intros Hhh Hfound Hsuitable Hverdict Htruthy Hresume Hdownload Hpdf Hurl
    Hcontent Hrefused.
  assert (Hpushes : forall st,
             snd (resumed w user position page i vacancy st) = Resolved tt
             /\ vacancyDocs (fst (resumed w user position page i vacancy st))
                = vacancyDocs st
                  ++ [vacancyDoc user vacancy (letterOf (coverLetterReply w page i))]
             /\ processedVacancies (fst (resumed w user position page i vacancy st))
                = processedVacancies st + 1).
  { intros st.
    destruct (resumed_linked w user position page i vacancy j verdict detail
                download pdf url pdfContent st) as (events & ->); try easy.
    rewrite sendNegotiation_run. simpl. easy. }
  split; [|split; [|split]].
  - intros. now rewrite sendNegotiation_run.
  - exact Hpushes.
  - intros replies.
    now rewrite !committed_accumulated, processVacancies_sameDocs.
  - intros positions items Hpositions q before Hpage Hok Hitems Hnth Hbelow Hnew.
    apply (run_commits_record w user position positions page items i vacancy _
             Hpositions Hpage Hok Hitems Hnth Hbelow Hnew).
    intros st. apply Hpushes.
Qed.

Lemma submission_failure_is_soft_witness :
  negotiationReply Sample.submissionRefused 1 0 = Rejected
  /\ In (vacancyDoc (Sample.userOf 3 0 true)
           (Sample.posting "101" "Python developer" "Kaspi") (Some "Hello"))
       (committed
          (trace (run (processVacancies Sample.submissionRefused
                         (Sample.userOf 3 0 true) Sample.dev)))).
Proof.
  split; [reflexivity|].
  destruct (submission_failure_is_soft Sample.submissionRefused
              (Sample.userOf 3 0 true) Sample.dev 1 0
              (Sample.posting "101" "Python developer" "Kaspi")
              (JObj [("isSuitable", JBool true); ("reason", JStr "match")])
              (JBool true) Sample.resume
              (JObj [("pdf", JObj [("url", JStr "https://hh.ru/r1.pdf")])])
              (JObj [("url", JStr "https://hh.ru/r1.pdf")])
              (JStr "https://hh.ru/r1.pdf") "resume text"
              eq_refl eq_refl eq_refl eq_refl eq_refl eq_refl eq_refl eq_refl
              eq_refl eq_refl eq_refl) as (_ & _ & _ & Hcommitted).
  apply (Hcommitted (repeat Sample.dev 3 ++ []) Sample.threePostings eq_refl);
    [lia | reflexivity | reflexivity | reflexivity | reflexivity | reflexivity].
Defined.

(** ** The selection of a resume *)

Module SelectionFacts.

Import Selection.

Lemma stripPrefix_app prefix s : stripPrefix prefix (prefix ++ s)%string = Some s.
Proof.
  induction prefix as [|c prefix IH]; simpl; [reflexivity|].
  now rewrite Ascii.eqb_refl.
Qed.

Lemma stripPrefix_spec prefix : forall s tail,
  stripPrefix prefix s = Some tail -> s = (prefix ++ tail)%string.
Proof.
  induction prefix as [|p prefix IH]; intros s tail; simpl.
  - now intros [= ->].
  - destruct s as [|c s]; [discriminate|].
    destruct (Ascii.eqb_spec p c) as [->|]; [|discriminate].
    intros Htail. now rewrite (IH s tail Htail).
Qed.

Lemma untilQuote_spec s : forall run after,
  untilQuote s = Some (run, after) ->
  s = (run ++ String quote after)%string /\ quoteFree run = true.
Proof.
  induction s as [|c s IH]; intros run after; simpl; [discriminate|].
  destruct (Ascii.eqb_spec c quote) as [->|Hc].
  - intros [= <- <-]. now split.
  - destruct (untilQuote s) as [[run' after']|]; [|discriminate].
    intros [= <- <-]. destruct (IH run' after' eq_refl) as (-> & Hfree).
    split; [reflexivity|]. simpl. rewrite Hfree.
    apply Ascii.eqb_neq in Hc. now rewrite Hc.
Qed.

Lemma untilQuote_app run after :
  quoteFree run = true ->
  untilQuote (run ++ String quote after)%string = Some (run, after).
Proof.
  induction run as [|c run IH]; simpl.
  - reflexivity.
  - intros Hfree. apply andb_true_iff in Hfree as (Hc & Hrun).
    apply negb_true_iff in Hc. now rewrite Hc, IH.
Qed.

Lemma captureAt_spec s resumeId :
  captureAt s = Some resumeId ->
  resumeId <> EmptyString /\ quoteFree resumeId = true
  /\ exists after, s = (key ++ resumeId ++ String quote after)%string.
Proof.
  unfold captureAt.
  destruct (stripPrefix key s) as [tail|] eqn:Htail; [|discriminate].
  destruct (untilQuote tail) as [[run after]|] eqn:Hrun; [|discriminate].
  destruct run as [|c run]; [discriminate|]. intros [= <-].
  destruct (untilQuote_spec tail _ _ Hrun) as (-> & Hfree).
  split; [discriminate|]. split; [exact Hfree|].
  exists after. now apply stripPrefix_spec.
Qed.

(** X13: what the regular expression of [getSuitableResumeId] finds is a
    resume identifier that is not empty, has no double quote in it, and
    stands in the text between the key with its opening quote and a closing
    quote. *)
Theorem matchResumeId_sound s : forall resumeId,
  matchResumeId s = Some resumeId ->
  resumeId <> EmptyString /\ quoteFree resumeId = true
  /\ exists before after,
       s = (before ++ key ++ resumeId ++ String quote after)%string.
Proof.
  induction s as [|c s IH]; intros resumeId; simpl.
  - discriminate.
  - destruct (captureAt (String c s)) as [found|] eqn:Hhere.
    + intros [= <-].
      destruct (captureAt_spec _ _ Hhere) as (Hne & Hfree & after & Hs).
      split; [exact Hne|]. split; [exact Hfree|].
      exists EmptyString, after. exact Hs.
    + intros Hlater.
      destruct (IH resumeId Hlater) as (Hne & Hfree & before & after & ->).
      split; [exact Hne|]. split; [exact Hfree|].
      now exists (String c before), after.
Qed.

Lemma matchResumeId_sound_witness :
  matchResumeId ("{" ++ key ++ "42" ++ String quote "}")%string = Some "42"%string
  /\ quoteFree "42" = true.
Proof.
  split; [reflexivity|].
  apply (matchResumeId_sound ("{" ++ key ++ "42" ++ String quote "}")%string
           "42"%string eq_refl).
Defined.

Lemma captureAt_no_quote c s :
  Ascii.eqb c quote = false -> captureAt (String c s) = None.
Proof.
  intros Hc. unfold captureAt, key. cbn [stripPrefix].
  rewrite Ascii.eqb_sym, Hc. reflexivity.
Qed.

Lemma matchResumeId_here s resumeId :
  captureAt s = Some resumeId -> matchResumeId s = Some resumeId.
Proof. destruct s; cbn [matchResumeId]; now intros ->. Qed.

Lemma quoteFree_keyAbsent before rest :
  quoteFree before = true -> keyAbsent before rest = true.
Proof.
  induction before as [|c before IH]; [reflexivity|].
  cbn [quoteFree]. intros Hfree. apply andb_true_iff in Hfree as (Hc & Hrest).
  apply negb_true_iff in Hc. cbn [keyAbsent append]. unfold key.
  cbn [stripPrefix]. rewrite Ascii.eqb_sym, Hc. now apply IH.
Qed.

(** X14: round trip of the regular expression.  A text in which the key
    is followed by an identifier (not empty, without double quote) and a
    closing quote, and in which no occurrence of the key starts earlier,
    gives back this identifier, whatever stands before (quoted fields
    included) and after. *)
Theorem matchResumeId_finds before resumeId after :
  keyAbsent before (key ++ resumeId ++ String quote after)%string = true ->
  resumeId <> EmptyString ->
  quoteFree resumeId = true ->
  matchResumeId (before ++ key ++ resumeId ++ String quote after)%string
  = Some resumeId.
Proof.
  intros Hbefore Hne Hfree.
  induction before as [|c before IH].
  - assert (Hhere : captureAt (key ++ resumeId ++ String quote after)%string
                    = Some resumeId).
    { unfold captureAt. rewrite stripPrefix_app, untilQuote_app by easy.
      now destruct resumeId. }
    cbn [append]. now apply matchResumeId_here.
  - cbn [keyAbsent] in Hbefore.
    destruct (stripPrefix key
                (String c before ++ key ++ resumeId ++ String quote after)%string)
      as [tail|] eqn:Hkey; [discriminate|].
    cbn [append] in Hkey |- *. cbn [matchResumeId].
    unfold captureAt at 1. rewrite Hkey.
    now apply IH.
Qed.

Lemma matchResumeId_finds_witness :
  matchResumeId
    (("{" ++ String quote "reason" ++ String quote ": "
      ++ String quote "best fit" ++ String quote ", ")
     ++ key ++ "42" ++ String quote "}")%string
  = Some "42"%string.
Proof.
  apply (matchResumeId_finds
           ("{" ++ String quote "reason" ++ String quote ": "
            ++ String quote "best fit" ++ String quote ", ")%string
           "42" "}");
    [reflexivity | discriminate | reflexivity].
Defined.

Lemma andThen_fst {A B} (m : T A) (k : A -> T B) :
  fst (andThen m k)
  = fst m ++ match snd m with
             | Resolved a => fst (k a)
             | Rejected => []
             end.
Proof.
  destruct m as [asked [a|]]; simpl; [|now rewrite app_nil_r].
  now destruct (k a).
Qed.

Lemma andThen_snd {A B} (m : T A) (k : A -> T B) :
  snd (andThen m k)
  = match snd m with
    | Resolved a => snd (k a)
    | Rejected => Rejected
    end.
Proof.
  destruct m as [asked [a|]]; simpl; [|reflexivity].
  now destruct (k a).
Qed.

Lemma loadOne_asks r token k resume :
  (List.length (fst (loadOne r token k resume)) <= 1)%nat
  /\ Forall (fun a => isAskPDF a = true) (fst (loadOne r token k resume)).
Proof.
  unfold loadOne.
  destruct (pdfUrl resume) as [url|];
    [destruct (pdfReply r k) as [data|];
       [destruct (getProp resume "id")|]|];
    simpl; (split; [lia | now repeat constructor]).
Qed.

Lemma promiseAll_fst {A} (promises : list (T A)) :
  fst (promiseAll promises) = List.concat (map fst promises).
Proof.
  induction promises as [|[asked o] rest IH]; simpl; [reflexivity|].
  destruct (promiseAll rest) as [asked' os]. simpl in *. now rewrite IH.
Qed.

Lemma promiseAll_rejects {A} (promises : list (T A)) p :
  In p promises -> snd p = Rejected -> snd (promiseAll promises) = Rejected.
Proof.
  induction promises as [|[asked o] rest IH]; simpl; [easy|].
  intros [<- | Hin] Hp.
  - simpl in Hp. subst o. now destruct (promiseAll rest).
  - specialize (IH Hin Hp). destruct (promiseAll rest) as [asked' os].
    simpl in IH. subst os. now destruct o.
Qed.

Lemma loadFrom_asks r token resumes : forall k,
  (List.length (List.concat (map fst (loadFrom r token k resumes)))
   <= List.length resumes)%nat
  /\ Forall (fun a => isAskPDF a = true)
       (List.concat (map fst (loadFrom r token k resumes))).
Proof.
  induction resumes as [|resume rest IH]; intros k; simpl.
  - split; [lia | constructor].
  - destruct (IH (S k)) as (Hlen & Hall).
    destruct (loadOne_asks r token k resume) as (Hone & Hpdf).
    rewrite length_app. split; [lia | now apply Forall_app].
Qed.

Lemma loadFrom_nth r token resumes : forall start k resume,
  nth_error resumes k = Some resume ->
  In (loadOne r token (start + k) resume) (loadFrom r token start resumes).
Proof.
  induction resumes as [|first rest IH]; intros start k resume Hnth.
  - now destruct k.
  - destruct k as [|k]; simpl in *.
    + injection Hnth as ->. left. now rewrite Nat.add_0_r.
    + right. rewrite <- Nat.add_succ_comm. now apply IH.
Qed.

(** The requests of the block, by the answers. *)
Lemma tryBlock_asks r vacancyId token :
  exists loads others,
    fst (tryBlock r vacancyId token)
    = AskSuitableResumes vacancyId token
      :: match resumesReply r with
         | Resolved _ => AskVacancy vacancyId token :: loads ++ others
         | Rejected => []
         end
    /\ (List.length loads <= 4)%nat
    /\ Forall (fun a => isAskPDF a = true) loads
    /\ Forall (fun a => isAskPDF a = false) others.
Proof.
  unfold tryBlock. rewrite andThen_fst. cbn [ask fst snd app].
  destruct (resumesReply r) as [resumeData|];
    [|exists [], []; repeat split; try constructor; simpl; lia].
  rewrite andThen_fst. cbn [ask fst snd app].
  destruct (vacancyReply r) as [vacancy|];
    [|exists [], []; repeat split; try constructor; simpl; lia].
  rewrite andThen_fst. cbn [lift fst snd app].
  destruct (getProp resumeData "items") as [items|];
    [|exists [], []; repeat split; try constructor; simpl; lia].
  rewrite andThen_fst. cbn [lift fst snd app].
  destruct (asArray items) as [all|];
    [|exists [], []; repeat split; try constructor; simpl; lia].
  cbv zeta. rewrite andThen_fst, promiseAll_fst.
  destruct (loadFrom_asks r token (firstn 4 all) 0) as (Hlen & Hall).
  assert (Hfour : (List.length (List.concat (map fst (loadFrom r token 0 (firstn 4 all))))
                   <= 4)%nat).
  { pose proof (firstn_le_length 4 all). lia. }
  exists (List.concat (map fst (loadFrom r token 0 (firstn 4 all)))).
  destruct (snd (promiseAll (loadFrom r token 0 (firstn 4 all))))
    as [resumeDetails|];
    [|exists []; repeat split; try easy; constructor].
  rewrite andThen_fst. cbn [lift fst snd app].
  destruct (vacancyDetails vacancy) as [details|];
    [|exists []; repeat split; try easy; constructor].
  rewrite andThen_fst. cbn [ask fst snd app].
  destruct (chatReply r) as [[text|]|];
    [| eexists; repeat split; try easy; rewrite andThen_fst; simpl;
       now repeat constructor
     | eexists; repeat split; try easy; now repeat constructor].
  rewrite andThen_fst. cbn [lift fst snd app].
  destruct (matchResumeId text) as [resumeId|].
  - eexists. repeat split; try easy. now repeat constructor.
  - rewrite andThen_fst. cbn [ask fst snd app].
    destruct (mineReply r) as [mine|];
      [|eexists; repeat split; try easy; now repeat constructor].
    rewrite andThen_fst. cbn [lift fst snd app].
    destruct (getProp mine "items") as [mineItems|];
      [|eexists; repeat split; try easy; now repeat constructor].
    rewrite andThen_fst. cbn [lift fst snd app].
    destruct (first mineItems) as [resume|];
      eexists; repeat split; try easy; now repeat constructor.
Qed.

(** X15: the selection starts with the request for the candidates and,
    when this one is answered, goes on with the request for the posting;
    the requests for PDFs come next, for at most four candidates, however
    many the job board proposes; no PDF is asked for when the list of
    candidates or the posting cannot be fetched. *)
Theorem selection_loads_at_most_four r vacancyId token :
  (List.length (filter isAskPDF (fst (tryBlock r vacancyId token))) <= 4)%nat
  /\ (resumesReply r = Rejected ->
      fst (tryBlock r vacancyId token) = [AskSuitableResumes vacancyId token])
  /\ (vacancyReply r = Rejected ->
      filter isAskPDF (fst (tryBlock r vacancyId token)) = [])
  /\ (forall resumeData,
         resumesReply r = Resolved resumeData ->
         exists loads others,
           fst (tryBlock r vacancyId token)
           = AskSuitableResumes vacancyId token
             :: AskVacancy vacancyId token :: loads ++ others
           /\ (List.length loads <= 4)%nat
           /\ Forall (fun a => isAskPDF a = true) loads
           /\ Forall (fun a => isAskPDF a = false) others).
Proof.
  destruct (tryBlock_asks r vacancyId token)
    as (loads & others & Hasks & Hlen & Hloads & Hothers).
  assert (Hcount : forall l, Forall (fun a => isAskPDF a = false) l ->
                             filter isAskPDF l = []).
  { induction 1 as [|a l Ha _ IH]; simpl; [reflexivity|]. now rewrite Ha. }
  split; [|split; [|split]].
  - rewrite Hasks. cbn [filter isAskPDF].
    destruct (resumesReply r); [|simpl; lia].
    cbn [filter isAskPDF]. rewrite filter_app, length_app, (Hcount others Hothers).
    pose proof (filter_length_le isAskPDF loads). simpl. lia.
  - intros Hfailed. rewrite Hasks. now rewrite Hfailed.
  - intros Hfailed. unfold tryBlock. rewrite andThen_fst. cbn [ask fst snd app].
    destruct (resumesReply r); [|reflexivity].
    rewrite andThen_fst. cbn [ask fst snd app]. now rewrite Hfailed.
  - intros resumeData Hresumes. rewrite Hresumes in Hasks.
    now exists loads, others.
Qed.

Lemma selection_loads_at_most_four_witness :
  (exists rest,
      fst (tryBlock fiveCandidates "101" "token")
      = AskSuitableResumes "101" "token" :: AskVacancy "101" "token" :: rest)
  /\ List.length (filter isAskPDF (fst (tryBlock fiveCandidates "101" "token")))
     = 4%nat.
Proof.
  split; [|reflexivity].
  destruct (selection_loads_at_most_four fiveCandidates "101" "token")
    as (_ & _ & _ & Hstart).
  destruct (Hstart _ eq_refl) as (loads & others & Hasks & _).
  exists (loads ++ others). exact Hasks.
Defined.

Lemma tryBlock_until_chat r vacancyId token resumeData vacancy items all
    resumeDetails details :
  resumesReply r = Resolved resumeData ->
  vacancyReply r = Resolved vacancy ->
  getProp resumeData "items" = Resolved items ->
  asArray items = Resolved all ->
  snd (promiseAll (loadFrom r token 0 (firstn 4 all))) = Resolved resumeDetails ->
  vacancyDetails vacancy = Resolved details ->
  snd (tryBlock r vacancyId token)
  = match chatReply r with
    | Resolved (Some text) =>
        match matchResumeId text with
        | Some resumeId => Resolved (JStr resumeId)
        | None =>
            bindO (mineReply r) (fun mine =>
            bindO (getProp mine "items") (fun mineItems =>
            bindO (first mineItems) (fun resume => getProp resume "id")))
        end
    | _ => Rejected
    end
  /\ filter isAskMine (fst (tryBlock r vacancyId token))
     = match chatReply r with
       | Resolved (Some text) =>
           match matchResumeId text with
           | Some _ => []
           | None => [AskMine token]
           end
       | _ => []
       end.
Proof.
  intros Hresumes Hvacancy Hitems Hall Hloads Hdetails.
  assert (Hnone : filter isAskMine
                    (fst (promiseAll (loadFrom r token 0 (firstn 4 all)))) = []).
  { rewrite promiseAll_fst.
    destruct (loadFrom_asks r token (firstn 4 all) 0) as (_ & Hpdf).
    induction Hpdf as [|a l Ha _ IH]; [reflexivity|].
    simpl. destruct a; try discriminate. exact IH. }
  unfold tryBlock.
  rewrite !andThen_snd, !andThen_fst. cbn [ask lift fst snd].
  rewrite Hresumes, !andThen_snd, !andThen_fst. cbn [ask lift fst snd].
  rewrite Hvacancy, !andThen_snd, !andThen_fst. cbn [ask lift fst snd].
  rewrite Hitems, !andThen_snd, !andThen_fst. cbn [ask lift fst snd].
  rewrite Hall. cbv zeta. rewrite !andThen_snd, !andThen_fst, Hloads.
  rewrite !andThen_snd, !andThen_fst. cbn [ask lift fst snd].
  rewrite Hdetails, !andThen_snd, !andThen_fst. cbn [ask lift fst snd].
  cbn [app filter isAskMine]. rewrite filter_app, Hnone. cbn [app filter isAskMine].
  destruct (chatReply r) as [[text|]|]; [| split; reflexivity | split; reflexivity].
  rewrite !andThen_snd, !andThen_fst. cbn [ask lift fst snd app].
  destruct (matchResumeId text) as [resumeId|]; [split; reflexivity|].
  rewrite !andThen_snd, !andThen_fst. cbn [ask lift fst snd app filter isAskMine].
  destruct (mineReply r) as [mine|]; [|split; reflexivity].
  rewrite !andThen_snd, !andThen_fst. cbn [lift fst snd bindO app filter].
  destruct (getProp mine "items") as [mineItems|]; [|split; reflexivity].
  rewrite !andThen_snd, !andThen_fst. cbn [lift fst snd bindO app filter].
  destruct (first mineItems) as [resume|]; split; reflexivity.
Qed.

(** X16: once the candidates, the posting and the PDFs are there, the
    completion decides.  When its text names a resume, the selection is this
    identifier and the resumes of the user are not asked for; when the text
    has no match (for instance [null] in the place of the identifier), the
    resumes of the user are asked for and the selection is the identifier of
    the first of them, which fails when there is none. *)
Theorem selection_by_completion r vacancyId token resumeData vacancy items all
    resumeDetails details text :
  resumesReply r = Resolved resumeData ->
  vacancyReply r = Resolved vacancy ->
  getProp resumeData "items" = Resolved items ->
  asArray items = Resolved all ->
  snd (promiseAll (loadFrom r token 0 (firstn 4 all))) = Resolved resumeDetails ->
  vacancyDetails vacancy = Resolved details ->
  chatReply r = Resolved (Some text) ->
  (forall resumeId,
      matchResumeId text = Some resumeId ->
      snd (tryBlock r vacancyId token) = Resolved (JStr resumeId)
      /\ filter isAskMine (fst (tryBlock r vacancyId token)) = [])
  /\ (matchResumeId text = None ->
      filter isAskMine (fst (tryBlock r vacancyId token)) = [AskMine token]
      /\ (forall mine mineItems resume,
             mineReply r = Resolved mine ->
             getProp mine "items" = Resolved mineItems ->
             first mineItems = Resolved resume ->
             snd (tryBlock r vacancyId token) = getProp resume "id")
      /\ (forall mine,
             mineReply r = Resolved mine ->
             getProp mine "items" = Resolved (JArr []) ->
             snd (tryBlock r vacancyId token) = Rejected)).
Proof.
  intros Hresumes Hvacancy Hitems Hall Hloads Hdetails Hchat.
  destruct (tryBlock_until_chat r vacancyId token resumeData vacancy items all
              resumeDetails details Hresumes Hvacancy Hitems Hall Hloads Hdetails)
    as (Hresult & Hmine).
  rewrite Hchat in Hresult, Hmine.
  split.
  - intros resumeId Hmatch. now rewrite Hmatch in Hresult, Hmine.
  - intros Hmatch. rewrite Hmatch in Hresult, Hmine. split; [exact Hmine|].
    split.
    + intros mine mineItems resume Hreply Hlist Hfirst.
      now rewrite Hresult, Hreply; cbn [bindO]; rewrite Hlist; cbn [bindO];
        rewrite Hfirst.
    + intros mine Hreply Hlist.
      now rewrite Hresult, Hreply; cbn [bindO]; rewrite Hlist.
Qed.

Lemma selection_by_completion_witness :
  snd (tryBlock
         {| resumesReply := Resolved (JObj [("items", JArr [])]);
            vacancyReply :=
              Resolved
                (JObj [("name", JStr "Python developer");
                       ("area", JObj [("name", JStr "Almaty")]);
                       ("employment", JObj [("name", JStr "full")]);
                       ("schedule", JObj [("name", JStr "remote")]);
                       ("key_skills", JArr [])]);
            pdfReply := fun _ => Rejected;
            chatReply :=
              Resolved (Some ("{" ++ key ++ "r7" ++ String quote "}")%string);
            mineReply := Rejected |} "101" "token")
  = Resolved (JStr "r7").
Proof.
  match goal with
  | |- snd (tryBlock ?r ?v ?t) = _ =>
      destruct (selection_by_completion r v t
                  (JObj [("items", JArr [])])
                  (JObj [("name", JStr "Python developer");
                         ("area", JObj [("name", JStr "Almaty")]);
                         ("employment", JObj [("name", JStr "full")]);
                         ("schedule", JObj [("name", JStr "remote")]);
                         ("key_skills", JArr [])])
                  (JArr []) [] []
                  [JStr "Python developer"; JStr "Almaty"; JUndefined;
                   JUndefined; JUndefined; JStr "full"; JStr "remote"]
                  ("{" ++ key ++ "r7" ++ String quote "}")%string
                  eq_refl eq_refl eq_refl eq_refl eq_refl eq_refl eq_refl)
        as (Hnamed & _)
  end.
  apply (Hnamed "r7"%string eq_refl).
Defined.

(** X17: the selection is [undefined], and never a rejection, as soon as a
    step of the block fails.  A completion with a [null] content gives
    [undefined] without asking for the resumes of the user; so does one
    candidate among the first four whose PDF link is missing or whose PDF
    does not load, and in that case the completion is not asked at all. *)
Theorem selection_undefined_on_failure r vacancyId token st :
  (exists resumeId,
      snd (getSuitableResumeId r vacancyId token st) = Resolved resumeId
      /\ (snd (tryBlock r vacancyId token) = Rejected -> resumeId = JUndefined))
  /\ (chatReply r = Resolved None ->
      snd (getSuitableResumeId r vacancyId token st) = Resolved JUndefined
      /\ filter isAskMine (fst (tryBlock r vacancyId token)) = [])
  /\ (forall resumeData items all k resume,
         resumesReply r = Resolved resumeData ->
         getProp resumeData "items" = Resolved items ->
         asArray items = Resolved all ->
         nth_error (firstn 4 all) k = Some resume ->
         pdfUrl resume = Rejected \/ pdfReply r k = Rejected ->
         snd (getSuitableResumeId r vacancyId token st) = Resolved JUndefined
         /\ filter isAskChat (fst (tryBlock r vacancyId token)) = []).
Proof.
  unfold getSuitableResumeId. rewrite !getSuitableResumeId_result.
  split; [|split].
  - eexists. split; [reflexivity|]. now intros ->.
  - intros Hchat.
    assert (Hblock : snd (tryBlock r vacancyId token) = Rejected
                     /\ filter isAskMine (fst (tryBlock r vacancyId token)) = []).
    { assert (Hnone : forall all,
                filter isAskMine
                  (fst (promiseAll (loadFrom r token 0 (firstn 4 all)))) = []).
      { intros all. rewrite promiseAll_fst.
        destruct (loadFrom_asks r token (firstn 4 all) 0) as (_ & Hpdf).
        induction Hpdf as [|a l Ha _ IH]; [reflexivity|].
        simpl. destruct a; try discriminate. exact IH. }
      unfold tryBlock.
      rewrite !andThen_snd, !andThen_fst. cbn [ask lift fst snd].
      destruct (resumesReply r) as [resumeData|]; [|now split].
      rewrite !andThen_snd, !andThen_fst. cbn [ask lift fst snd].
      destruct (vacancyReply r) as [vacancy|]; [|now split].
      rewrite !andThen_snd, !andThen_fst. cbn [ask lift fst snd].
      destruct (getProp resumeData "items") as [items|]; [|now split].
      rewrite !andThen_snd, !andThen_fst. cbn [ask lift fst snd].
      destruct (asArray items) as [all|]; [|now split].
      cbv zeta. rewrite !andThen_snd, !andThen_fst.
      cbn [app filter isAskMine]. rewrite filter_app, Hnone.
      destruct (snd (promiseAll (loadFrom r token 0 (firstn 4 all))));
        [|now split].
      rewrite !andThen_snd, !andThen_fst. cbn [ask lift fst snd].
      destruct (vacancyDetails vacancy) as [details|]; [|now split].
      rewrite !andThen_snd, !andThen_fst. cbn [ask lift fst snd].
      rewrite Hchat. rewrite !andThen_snd, !andThen_fst. now split. }
    destruct Hblock as (-> & Hmine). now split.
  - intros resumeData items all k resume Hresumes Hitems Hall Hnth Hbad.
    assert (Hloads : snd (promiseAll (loadFrom r token 0 (firstn 4 all)))
                     = Rejected).
    { apply (promiseAll_rejects _ (loadOne r token (0 + k) resume)).
      - now apply loadFrom_nth.
      - unfold loadOne. cbn [Nat.add].
        destruct (pdfUrl resume) as [url|]; [|reflexivity].
        destruct Hbad as [Hurl | ->]; [discriminate | reflexivity]. }
    assert (Hnone : filter isAskChat
                      (fst (promiseAll (loadFrom r token 0 (firstn 4 all)))) = []).
    { rewrite promiseAll_fst.
      destruct (loadFrom_asks r token (firstn 4 all) 0) as (_ & Hpdf).
      induction Hpdf as [|a l Ha _ IH]; [reflexivity|].
      simpl. destruct a; try discriminate. exact IH. }
    unfold tryBlock.
    rewrite !andThen_snd, !andThen_fst. cbn [ask lift fst snd].
    rewrite Hresumes, !andThen_snd, !andThen_fst. cbn [ask lift fst snd].
    destruct (vacancyReply r) as [vacancy|]; [|now split].
    rewrite !andThen_snd, !andThen_fst. cbn [ask lift fst snd].
    rewrite Hitems, !andThen_snd, !andThen_fst. cbn [ask lift fst snd].
    rewrite Hall. cbv zeta. rewrite !andThen_snd, !andThen_fst, Hloads.
    cbn [app filter isAskChat]. rewrite filter_app, Hnone. now split.
Qed.

Lemma selection_undefined_on_failure_witness :
  (snd (getSuitableResumeId (withChatReply (Resolved None) fiveCandidates)
          "101" "token" emptyStore)
   = Resolved JUndefined
   /\ List.length
        (filter isAskChat
           (fst (tryBlock (withChatReply (Resolved None) fiveCandidates)
                   "101" "token")))
      = 1%nat
   /\ filter isAskMine
        (fst (tryBlock (withChatReply (Resolved None) fiveCandidates)
                "101" "token"))
      = [])
  /\ (snd (getSuitableResumeId (withPdfReply (fun _ => Rejected) fiveCandidates)
             "101" "token" emptyStore)
      = Resolved JUndefined
      /\ filter isAskChat
           (fst (tryBlock (withPdfReply (fun _ => Rejected) fiveCandidates)
                   "101" "token"))
         = []).
Proof.
  split.
  - destruct (selection_undefined_on_failure
                (withChatReply (Resolved None) fiveCandidates) "101" "token"
                emptyStore) as (_ & Hnull & _).
    destruct (Hnull eq_refl) as (Hresult & Hmine).
    split; [exact Hresult|]. split; [reflexivity | exact Hmine].
  - destruct (selection_undefined_on_failure
                (withPdfReply (fun _ => Rejected) fiveCandidates) "101" "token"
                emptyStore) as (_ & _ & Hpdf).
    apply (Hpdf (JObj [("items", JArr (map candidate ["r1"; "r2"; "r3"; "r4"; "r5"]))])
             (JArr (map candidate ["r1"; "r2"; "r3"; "r4"; "r5"]))
             (map candidate ["r1"; "r2"; "r3"; "r4"; "r5"]) 0%nat (candidate "r1")
             eq_refl eq_refl eq_refl eq_refl (or_intror eq_refl)).
Defined.

End SelectionFacts.
